(** * Citation handling of the Switzerland Law MCP server

    A shallow embedding of
      - [src/tools/validate-citation.ts]  (parseCitation, validateCitationTool),
      - [src/tools/format-citation.ts]    (formatCitationTool),
      - [src/utils/metadata.ts]           (generateResponseMetadata, and
                                           resolveDocumentId of the statute-id
                                           module that follows it),
      - [src/tools/registry.ts]           (buildTools and the CallTool request
                                           handler),
      - [scripts/census.ts]               (srNumberToId, partitionPrefix),
    together with the part of ECMAScript and SQLite these functions rely on:
    strings of UTF-16 code units, [String.prototype.trim], the backtracking
    regular-expression matcher of ECMA-262, and the [=] and [LIKE] operators
    of SQLite. *)

From Stdlib Require Import List NArith ZArith Bool Arith Lia String Ascii.
Import ListNotations.

Set Implicit Arguments.

(** ** JavaScript strings *)

Module JS.

(** A JavaScript string is a sequence of 16-bit code units. *)
Definition code_unit := N.
Definition jsstring := list code_unit.

(** ASCII text of the source, as code units. *)
Definition lit (s : string) : jsstring :=
  List.map N_of_ascii (list_ascii_of_string s).

Definition dquote : jsstring := [34%N].

Fixpoint jseqb (a b : jsstring) : bool :=
  match a, b with
  | [], [] => true
  | x :: a', y :: b' => N.eqb x y && jseqb a' b'
  | _, _ => false
  end.

(** ECMA-262 WhiteSpace and LineTerminator code points: what [trim] strips
    and what the class escape [\s] matches. *)
Definition isLineTerminator (c : code_unit) : bool :=
  (N.eqb c 10 || N.eqb c 13 || N.eqb c 8232 || N.eqb c 8233)%N.

Definition isWhiteSpace (c : code_unit) : bool :=
  (N.eqb c 9 || N.eqb c 11 || N.eqb c 12 || N.eqb c 32 || N.eqb c 160
   || N.eqb c 5760 || (N.leb 8192 c && N.leb c 8202)
   || N.eqb c 8239 || N.eqb c 8287 || N.eqb c 12288 || N.eqb c 65279)%N.

Definition isSpace (c : code_unit) : bool :=
  isWhiteSpace c || isLineTerminator c.

Fixpoint dropWhile (p : code_unit -> bool) (s : jsstring) : jsstring :=
  match s with
  | [] => []
  | c :: s' => if p c then dropWhile p s' else s
  end.

Fixpoint takeWhile (p : code_unit -> bool) (s : jsstring) : jsstring :=
  match s with
  | [] => []
  | c :: s' => if p c then c :: takeWhile p s' else []
  end.

Definition trimStart (s : jsstring) : jsstring := dropWhile isSpace s.
Definition trimEnd (s : jsstring) : jsstring := rev (dropWhile isSpace (rev s)).

(** [String.prototype.trim] *)
Definition trim (s : jsstring) : jsstring := trimEnd (trimStart s).

(** ASCII case folding.  With the [i] flag and without the [u] flag a
    regular expression compares the upper-case images of code units, and the
    image of a unit above 127 is never an ASCII unit (ECMA-262, Canonicalize);
    every letter written in the expressions below is ASCII, so folding the
    ASCII range is all that is observed.  SQLite's [LIKE] and [LOWER] fold
    the ASCII range only as well. *)
Definition isLower (c : code_unit) : bool := (N.leb 97 c && N.leb c 122)%N.
Definition isUpper (c : code_unit) : bool := (N.leb 65 c && N.leb c 90)%N.
Definition toUpperAscii (c : code_unit) : code_unit :=
  if isLower c then (c - 32)%N else c.
Definition toLowerAscii (c : code_unit) : code_unit :=
  if isUpper c then (c + 32)%N else c.

Definition isDigit (c : code_unit) : bool := (N.leb 48 c && N.leb c 57)%N.
Definition isLetter (c : code_unit) : bool := isLower c || isUpper c.

(** Truthiness of a string value that may be [undefined] or [null]. *)
Definition truthy (s : option jsstring) : bool :=
  match s with
  | Some (_ :: _) => true
  | _ => false
  end.

End JS.

Import JS.

(** ** Regular expressions (ECMA-262, backtracking semantics) *)

Module RegExp.

Inductive regex : Type :=
| Empty
| Class (p : code_unit -> bool)
| Seq (r1 r2 : regex)
| Alt (r1 r2 : regex)
| Quant (min : nat) (max : option nat) (greedy : bool) (r : regex)
| Group (i : nat) (r : regex)
| Bol
| Eol.

(** Captures: the most recent binding of a group comes first. *)
Definition captures := list (nat * jsstring).

(** A continuation receives the end index, the input that is left and the
    captures so far. *)
Definition cont := nat -> jsstring -> captures -> option captures.
Definition matcher_t := nat -> jsstring -> captures -> cont -> option captures.

Definition orelse (a : option captures) (b : option captures) : option captures :=
  match a with
  | Some r => Some r
  | None => b
  end.

Definition dec_max (max : option nat) : option nat :=
  match max with
  | Some n => Some (pred n)
  | None => None
  end.

Definition max_is_zero (max : option nat) : bool :=
  match max with
  | Some 0 => true
  | _ => false
  end.

(** RepeatMatcher of ECMA-262.  An iteration that is not required and
    consumes nothing fails, so [min] plus the length of the input bounds the
    depth of the recursion; [fuel] is that bound. *)
Fixpoint repeatMatcher (m : matcher_t) (greedy : bool) (fuel : nat)
    (min : nat) (max : option nat)
    (pos : nat) (rest : jsstring) (cs : captures) (k : cont) {struct fuel}
    : option captures :=
  match fuel with
  | 0 => None
  | S fuel' =>
      if max_is_zero max then k pos rest cs
      else
        let d : cont := fun pos' rest' cs' =>
          if (min =? 0) && (pos' =? pos) then None
          else repeatMatcher m greedy fuel' (pred min) (dec_max max) pos' rest' cs' k in
        if 0 <? min then m pos rest cs d
        else if greedy then orelse (m pos rest cs d) (k pos rest cs)
        else orelse (k pos rest cs) (m pos rest cs d)
  end.

Fixpoint matcher (r : regex) (pos : nat) (rest : jsstring) (cs : captures)
    (k : cont) {struct r} : option captures :=
  match r with
  | Empty => k pos rest cs
  | Class p =>
      match rest with
      | c :: rest' => if p c then k (S pos) rest' cs else None
      | [] => None
      end
  | Seq r1 r2 =>
      matcher r1 pos rest cs (fun pos' rest' cs' => matcher r2 pos' rest' cs' k)
  | Alt r1 r2 =>
      orelse (matcher r1 pos rest cs k) (matcher r2 pos rest cs k)
  | Quant min max greedy r' =>
      repeatMatcher (matcher r') greedy (S (min + List.length rest)) min max pos rest cs k
  | Group i r' =>
      matcher r' pos rest cs
        (fun pos' rest' cs' => k pos' rest' ((i, firstn (pos' - pos) rest) :: cs'))
  | Bol => if pos =? 0 then k pos rest cs else None
  | Eol =>
      match rest with
      | [] => k pos rest cs
      | _ :: _ => None
      end
  end.

Definition accept : cont := fun _ _ cs => Some cs.

(** RegExpBuiltinExec for an expression without the [g] and [y] flags: the
    first start index, from 0 upwards, at which the expression matches. *)
Fixpoint execFrom (r : regex) (pos : nat) (rest : jsstring) : option captures :=
  match matcher r pos rest [] accept with
  | Some cs => Some cs
  | None =>
      match rest with
      | [] => None
      | _ :: rest' => execFrom r (S pos) rest'
      end
  end.

(** [s.match(r)] *)
Definition exec (r : regex) (s : jsstring) : option captures := execFrom r 0 s.

Fixpoint lookup (i : nat) (cs : captures) : option jsstring :=
  match cs with
  | [] => None
  | (j, w) :: cs' => if i =? j then Some w else lookup i cs'
  end.

(** [m[i]] for a group that takes part in every match of its expression. *)
Definition group (i : nat) (cs : captures) : jsstring :=
  match lookup i cs with
  | Some w => w
  | None => []
  end.

(** *** Syntax used by the expressions of the source *)

Definition star (r : regex) : regex := Quant 0 None true r.
Definition plus (r : regex) : regex := Quant 1 None true r.
Definition plus_lazy (r : regex) : regex := Quant 1 None false r.
Definition opt (r : regex) : regex := Quant 0 (Some 1) true r.

(** A literal character under the [i] flag. *)
Definition chr_ci (a : code_unit) : regex :=
  Class (fun c => N.eqb (toUpperAscii c) (toUpperAscii a)).

Fixpoint word_ci (w : jsstring) : regex :=
  match w with
  | [] => Empty
  | [a] => chr_ci a
  | a :: w' => Seq (chr_ci a) (word_ci w')
  end.

Definition str_ci (s : string) : regex := word_ci (lit s).

Fixpoint seqs (rs : list regex) : regex :=
  match rs with
  | [] => Empty
  | [r] => r
  | r :: rs' => Seq r (seqs rs')
  end.

Fixpoint alts (rs : list regex) : regex :=
  match rs with
  | [] => Empty
  | [r] => r
  | r :: rs' => Alt r (alts rs')
  end.

(** [\s], [\d], [[a-z]] under [i], [.], [\.], [[,;]] and [[\d.]] *)
Definition space : regex := Class isSpace.
Definition digit : regex := Class isDigit.
Definition letter_ci : regex := Class isLetter.
Definition dot : regex := Class (fun c => negb (isLineTerminator c)).
Definition period : regex := Class (fun c => N.eqb c 46).
Definition comma_semicolon : regex := Class (fun c => N.eqb c 44 || N.eqb c 59).
Definition digit_or_period : regex := Class (fun c => isDigit c || N.eqb c 46).

End RegExp.

Import RegExp.

(** ** The store (SQLite) *)

Module Store.

(** A row of [legal_documents]; [title_en] and [short_name] may be NULL. *)
Record legal_document : Type := {
  id : jsstring;
  title : jsstring;
  title_en : option jsstring;
  short_name : option jsstring;
  status : jsstring
}.

(** A row of [legal_provisions]; [section] may be NULL. *)
Record legal_provision : Type := {
  document_id : jsstring;
  provision_ref : jsstring;
  section : option jsstring
}.

(** The tables in their row order.  [db_metadata] holds (key, value) rows and
    is [None] in a build without that table. *)
Record database : Type := {
  legal_documents : list legal_document;
  legal_provisions : list legal_provision;
  db_metadata : option (list (jsstring * jsstring))
}.

(** The [LIKE] operator: [%] stands for any run of characters, [_] for one
    character, any other character for itself up to ASCII case.  A character
    is taken to be a code unit, as it is in text of the Basic Multilingual
    Plane without U+0000, and the pattern to be within the 50,000 bytes that
    SQLite accepts in a [LIKE] pattern; a longer one is an error of the
    statement, which this function does not have. *)
Fixpoint like (pattern s : jsstring) {struct pattern} : bool :=
  match pattern with
  | [] => match s with [] => true | _ :: _ => false end
  | c :: pattern' =>
      if N.eqb c 37 then
        (fix any (s : jsstring) : bool :=
           like pattern' s || match s with [] => false | _ :: s' => any s' end) s
      else
        match s with
        | [] => false
        | x :: s' =>
            (N.eqb c 95 || N.eqb (toUpperAscii c) (toUpperAscii x)) && like pattern' s'
        end
  end.

(** [LOWER] *)
Definition lower (s : jsstring) : jsstring := List.map toLowerAscii s.

(** A comparison with NULL is not true. *)
Definition col (p : jsstring -> bool) (v : option jsstring) : bool :=
  match v with
  | Some s => p s
  | None => false
  end.

End Store.

(** ** Effects: the store handle and exceptions *)

Module Eff.

Inductive exn : Type :=
| JsError (message : jsstring)   (* an instance of Error *)
| JsValue (text : jsstring).     (* any other thrown value, with its String() *)

Inductive outcome (A : Type) : Type :=
| Ok (a : A)
| Throw (e : exn).

Arguments Ok {A} a.
Arguments Throw {A} e.

(** A computation runs against the store handle and hands it back. *)
Definition M (A : Type) : Type := Store.database -> outcome A * Store.database.

Definition ret {A : Type} (a : A) : M A := fun db => (Ok a, db).

Definition throw {A : Type} (e : exn) : M A := fun db => (Throw e, db).

Definition bind {A B : Type} (m : M A) (f : A -> M B) : M B :=
  fun db =>
    match m db with
    | (Ok a, db') => f a db'
    | (Throw e, db') => (Throw e, db')
    end.

(** [try { m } catch (e) { h e }] *)
Definition try_catch {A : Type} (m : M A) (h : exn -> M A) : M A :=
  fun db =>
    match m db with
    | (Ok a, db') => (Ok a, db')
    | (Throw e, db') => h e db'
    end.

(** [db.prepare(sql).get(...)] for a SELECT statement: the first row of the
    answer, or [undefined]; the statement throws when a table is missing. *)
Definition get {A : Type} (select : Store.database -> outcome (option A)) : M (option A) :=
  fun db => (select db, db).

Definition TypeError (message : string) : exn := JsError (lit message).

End Eff.

Import Eff.

Notation "x <- m ;; k" := (bind m (fun x => k))
  (at level 61, m at next level, right associativity).

(** ** src/utils/metadata.ts *)

Module Metadata.

Record ResponseMetadata : Type := {
  data_source : jsstring;
  jurisdiction : jsstring;
  disclaimer : jsstring;
  freshness : option jsstring
}.

Record ToolResponse (T : Type) : Type := {
  results : T;
  _metadata : ResponseMetadata
}.

(** [SELECT value FROM db_metadata WHERE key = 'built_at'] *)
Definition select_built_at (db : Store.database) : outcome (option jsstring) :=
  match Store.db_metadata db with
  | None => Throw (JsError (lit "no such table: db_metadata"))
  | Some rows =>
      Ok (option_map snd (find (fun row => jseqb (fst row) (lit "built_at")) rows))
  end.

Definition DATA_SOURCE : jsstring :=
  lit "Fedlex (fedlex.admin.ch) " ++ [8212%N] ++ lit " Swiss Federal Chancellery".

Definition DISCLAIMER : jsstring :=
  lit "This data is sourced from Fedlex under Open Government Data principles. "
  ++ lit "The authoritative versions are in German, French, and Italian. "
  ++ lit "English translations are unofficial. Always verify with the official Fedlex portal.".

Definition generateResponseMetadata : M ResponseMetadata :=
  freshness <- try_catch
      (row <- get select_built_at ;;
       ret (match row with Some value => Some value | None => None end))
      (fun _ => ret None) ;;
  ret {| data_source := DATA_SOURCE;
         jurisdiction := lit "CH";
         disclaimer := DISCLAIMER;
         freshness := freshness |}.

End Metadata.

(** ** src/utils/metadata.ts, second part: statute-id (resolveDocumentId) *)

Module StatuteId.

(** [/(?:SR\s* )?(\d+(?:\.\d+)* )/i]   (in the comments of this file a blank
    separates a star from the closing parenthesis after it) *)
Definition srNumber_re : regex :=
  seqs [opt (Seq (str_ci "SR") (star space));
        Group 1 (Seq (plus digit) (star (Seq period (plus digit))))].

(** [srNumber.replace(/\./g, '-')] *)
Definition dots_to_dashes (s : jsstring) : jsstring :=
  List.map (fun c => if N.eqb c 46 then 45%N else c) s.

Definition first_id (p : Store.legal_document -> bool) (db : Store.database)
    : outcome (option jsstring) :=
  Ok (option_map Store.id (find p (Store.legal_documents db))).

(** [SELECT id FROM legal_documents WHERE id = ?] *)
Definition select_by_id (key : jsstring) :=
  first_id (fun d => jseqb (Store.id d) key).

(** [SELECT id FROM legal_documents WHERE id LIKE ? OR short_name LIKE ? LIMIT 1] *)
Definition select_by_sr (p1 p2 : jsstring) :=
  first_id (fun d => Store.like p1 (Store.id d)
                     || Store.col (Store.like p2) (Store.short_name d)).

(** [SELECT id FROM legal_documents
     WHERE title LIKE ? OR short_name LIKE ? OR title_en LIKE ? LIMIT 1] *)
Definition select_by_title (p1 p2 p3 : jsstring) :=
  first_id (fun d => Store.like p1 (Store.title d)
                     || Store.col (Store.like p2) (Store.short_name d)
                     || Store.col (Store.like p3) (Store.title_en d)).

(** The same statement with [LOWER] on both sides of each [LIKE]. *)
Definition select_by_title_lower (p1 p2 p3 : jsstring) :=
  first_id (fun d =>
       Store.like (Store.lower p1) (Store.lower (Store.title d))
    || Store.col (fun s => Store.like (Store.lower p2) (Store.lower s)) (Store.short_name d)
    || Store.col (fun s => Store.like (Store.lower p3) (Store.lower s)) (Store.title_en d)).

Definition percent (s : jsstring) : jsstring := lit "%" ++ s ++ lit "%".

Definition resolveDocumentId (input : jsstring) : M (option jsstring) :=
  let trimmed := trim input in
  match trimmed with
  | [] => ret None
  | _ :: _ =>
      directMatch <- get (select_by_id trimmed) ;;
      match directMatch with
      | Some id => ret (Some id)
      | None =>
          srResult <-
            match exec srNumber_re trimmed with
            | Some srMatch =>
                let srNumber := group 1 srMatch in
                get (select_by_sr (percent (lit "sr-" ++ dots_to_dashes srNumber))
                                  (percent srNumber))
            | None => ret None
            end ;;
          match srResult with
          | Some id => ret (Some id)
          | None =>
              titleResult <- get (select_by_title (percent trimmed) (percent trimmed)
                                                  (percent trimmed)) ;;
              match titleResult with
              | Some id => ret (Some id)
              | None =>
                  lowerResult <- get (select_by_title_lower (percent trimmed)
                                        (percent trimmed) (percent trimmed)) ;;
                  match lowerResult with
                  | Some id => ret (Some id)
                  | None => ret None
                  end
              end
          end
      end
  end.

End StatuteId.

(** ** src/tools/validate-citation.ts *)

Module ValidateCitation.

Import Metadata.

Record ValidateCitationInput : Type := {
  input_citation : jsstring
}.

Record ValidateCitationResult : Type := {
  valid : bool;
  citation : jsstring;
  normalized : option jsstring;
  document_id : option jsstring;
  document_title : option jsstring;
  provision_ref : option jsstring;
  status : option jsstring;
  warnings : list jsstring
}.

Record parsed_citation : Type := {
  documentRef : jsstring;
  articleRef : option jsstring
}.

(** [(?:bis|ter|quater|quinquies|sexies|septies|octies|novies|decies)] *)
Definition ordinal : regex :=
  alts [str_ci "bis"; str_ci "ter"; str_ci "quater"; str_ci "quinquies";
        str_ci "sexies"; str_ci "septies"; str_ci "octies"; str_ci "novies";
        str_ci "decies"].

(** [\d+(?:bis|...|decies)?[a-z]*] *)
Definition article : regex := seqs [plus digit; opt ordinal; star letter_ci].

(** [/^Art\.?\s*(\d+(?:bis|...|decies)?[a-z]* )\s+(.+)$/i] *)
Definition artFirst_re : regex :=
  seqs [Bol; str_ci "Art"; opt period; star space;
        Group 1 article; plus space; Group 2 (plus dot); Eol].

(** [/^(.+?)[,;]?\s*Art\.?\s*(\d+(?:bis|...|decies)?[a-z]* )$/i] *)
Definition artLast_re : regex :=
  seqs [Bol; Group 1 (plus_lazy dot); opt comma_semicolon; star space;
        str_ci "Art"; opt period; star space; Group 2 article; Eol].

(** [/^SR\s*([\d.]+)\s*[,;]?\s*Art\.?\s*(\d+[a-z]* )$/i] *)
Definition srWithArt_re : regex :=
  seqs [Bol; str_ci "SR"; star space; Group 1 (plus digit_or_period);
        star space; opt comma_semicolon; star space;
        str_ci "Art"; opt period; star space;
        Group 2 (seqs [plus digit; star letter_ci]); Eol].

Definition parseCitation (citation : jsstring) : option parsed_citation :=
  let trimmed := trim citation in
  match exec artFirst_re trimmed with
  | Some artFirst =>
      Some {| documentRef := trim (group 2 artFirst);
              articleRef := Some (group 1 artFirst) |}
  | None =>
      match exec artLast_re trimmed with
      | Some artLast =>
          Some {| documentRef := trim (group 1 artLast);
                  articleRef := Some (group 2 artLast) |}
      | None =>
          match exec srWithArt_re trimmed with
          | Some srWithArt =>
              Some {| documentRef := lit "SR " ++ group 1 srWithArt;
                      articleRef := Some (group 2 srWithArt) |}
          | None =>
              Some {| documentRef := trimmed; articleRef := None |}
          end
      end
  end.

(** [SELECT id, title, status FROM legal_documents WHERE id = ?] *)
Definition select_document (docId : jsstring) (db : Store.database)
    : outcome (option Store.legal_document) :=
  Ok (find (fun d => jseqb (Store.id d) docId) (Store.legal_documents db)).

(** [SELECT provision_ref FROM legal_provisions WHERE document_id = ?
     AND (provision_ref = ? OR provision_ref = ? OR section = ?)] *)
Definition select_provision (docId r1 r2 r3 : jsstring) (db : Store.database)
    : outcome (option jsstring) :=
  Ok (option_map Store.provision_ref
        (find (fun p => jseqb (Store.document_id p) docId
                        && (jseqb (Store.provision_ref p) r1
                            || jseqb (Store.provision_ref p) r2
                            || Store.col (fun s => jseqb s r3) (Store.section p)))
              (Store.legal_provisions db))).

Definition REPEALED_WARNING : jsstring :=
  lit "WARNING: This statute has been repealed.".

Definition AMENDED_WARNING : jsstring :=
  lit "Note: This statute has been amended. Verify you are referencing the current version.".

(** The [warnings] array after the two pushes on the document's status. *)
Definition status_warnings (status : jsstring) : list jsstring :=
  if jseqb status (lit "repealed") then [REPEALED_WARNING]
  else if jseqb status (lit "amended") then [AMENDED_WARNING]
  else [].

Definition document_not_found (documentRef : jsstring) : jsstring :=
  lit "Document not found: " ++ dquote ++ documentRef ++ dquote.

Definition provision_not_found (articleRef title : jsstring) : jsstring :=
  lit "Provision " ++ dquote ++ articleRef ++ dquote ++ lit " not found in " ++ title.

Definition failure (citation : jsstring) (warnings : list jsstring)
    : ValidateCitationResult :=
  {| valid := false; citation := citation; normalized := None;
     document_id := None; document_title := None; provision_ref := None;
     status := None; warnings := warnings |}.

Definition respond {T : Type} (r : T) : M (ToolResponse T) :=
  md <- generateResponseMetadata ;;
  ret {| results := r; _metadata := md |}.

Definition validateCitationTool (input : ValidateCitationInput)
    : M (ToolResponse ValidateCitationResult) :=
  match parseCitation (input_citation input) with
  | None =>
      respond (failure (input_citation input) [lit "Could not parse citation format"])
  | Some parsed =>
      docId <- StatuteId.resolveDocumentId (documentRef parsed) ;;
      match docId with
      | None | Some [] =>
          respond (failure (input_citation input)
                     [document_not_found (documentRef parsed)])
      | Some ((_ :: _) as docId) =>
          row <- get (select_document docId) ;;
          match row with
          | None => throw (TypeError "Cannot read properties of undefined (reading 'status')")
          | Some doc =>
              let warnings := status_warnings (Store.status doc) in
              match articleRef parsed with
              | Some ((_ :: _) as articleRef) =>
                  provision <- get (select_provision docId articleRef
                                      (lit "art" ++ articleRef) articleRef) ;;
                  match provision with
                  | None =>
                      respond
                        {| valid := false;
                           citation := input_citation input;
                           normalized := None;
                           document_id := Some docId;
                           document_title := Some (Store.title doc);
                           provision_ref := None;
                           status := None;
                           warnings := warnings ++
                             [provision_not_found articleRef (Store.title doc)] |}
                  | Some ref =>
                      respond
                        {| valid := true;
                           citation := input_citation input;
                           normalized :=
                             Some (lit "Art. " ++ articleRef ++ lit " " ++ Store.title doc);
                           document_id := Some docId;
                           document_title := Some (Store.title doc);
                           provision_ref := Some ref;
                           status := Some (Store.status doc);
                           warnings := warnings |}
                  end
              | _ =>
                  respond
                    {| valid := true;
                       citation := input_citation input;
                       normalized := Some (Store.title doc);
                       document_id := Some docId;
                       document_title := Some (Store.title doc);
                       provision_ref := None;
                       status := Some (Store.status doc);
                       warnings := warnings |}
              end
          end
      end
  end.

End ValidateCitation.

(** ** src/tools/format-citation.ts *)

Module FormatCitation.

Record FormatCitationInput : Type := {
  input_citation : jsstring;
  input_format : option jsstring
}.

Record FormatCitationResult : Type := {
  original : jsstring;
  formatted : jsstring;
  format : jsstring
}.

(** [\d+[a-z]*(?:bis|ter)?] *)
Definition article : regex :=
  seqs [plus digit; star letter_ci; opt (alts [str_ci "bis"; str_ci "ter"])].

(** [/^Art\.?\s*(\d+[a-z]*(?:bis|ter)?)\s+(.+)$/i] *)
Definition artFirst_re : regex :=
  seqs [Bol; str_ci "Art"; opt period; star space;
        Group 1 article; plus space; Group 2 (plus dot); Eol].

(** [/^(.+?)[,;]?\s*Art\.?\s*(\d+[a-z]*(?:bis|ter)?)$/i] *)
Definition artLast_re : regex :=
  seqs [Bol; Group 1 (plus_lazy dot); opt comma_semicolon; star space;
        str_ci "Art"; opt period; star space; Group 2 article; Eol].

(** [law.split('(')[0]] *)
Definition before_paren (law : jsstring) : jsstring :=
  takeWhile (fun c => negb (N.eqb c 40)) law.

Definition formatCitationTool (input : FormatCitationInput) : FormatCitationResult :=
  let format := match input_format input with Some f => f | None => lit "full" end in
  let trimmed := trim (input_citation input) in
  let artFirst := exec artFirst_re trimmed in
  let artLast := exec artLast_re trimmed in
  let article :=
    match artFirst with
    | Some m => Some (group 1 m)
    | None => option_map (group 2) artLast
    end in
  let law :=
    match artFirst with
    | Some m => group 2 m
    | None =>
        match artLast with
        | Some m => group 1 m
        | None => trimmed
        end
    end in
  let formatted :=
    if jseqb format (lit "short") then
      match article with
      | Some ((_ :: _) as article) =>
          lit "Art. " ++ article ++ lit " " ++ trim (before_paren law)
      | _ => law
      end
    else if jseqb format (lit "pinpoint") then
      match article with
      | Some ((_ :: _) as article) => lit "Art. " ++ article
      | _ => law
      end
    else
      match article with
      | Some ((_ :: _) as article) => lit "Art. " ++ article ++ lit " " ++ law
      | _ => law
      end in
  {| original := input_citation input; formatted := formatted; format := format |}.

End FormatCitation.

(** ** src/tools/registry.ts: the CallTool request handler *)

Module Registry.

(** The tools whose handlers live in other files of the server. *)
Inductive external_tool : Type :=
| search_legislation
| get_provision
| build_legal_stance
| check_currency
| get_eu_basis
| get_swiss_implementations
| search_eu_implementations
| get_provision_eu_basis
| validate_eu_compliance
| list_sources.

Inductive tool : Type :=
| external (t : external_tool)
| validate_citation
| format_citation
| about.

(** The [case] labels of the [switch], in source order. *)
Definition cases : list (string * tool) :=
  [("search_legislation", external search_legislation);
   ("get_provision", external get_provision);
   ("validate_citation", validate_citation);
   ("build_legal_stance", external build_legal_stance);
   ("format_citation", format_citation);
   ("check_currency", external check_currency);
   ("get_eu_basis", external get_eu_basis);
   ("get_swiss_implementations", external get_swiss_implementations);
   ("search_eu_implementations", external search_eu_implementations);
   ("get_provision_eu_basis", external get_provision_eu_basis);
   ("validate_eu_compliance", external validate_eu_compliance);
   ("list_sources", external list_sources);
   ("about", about)]%string.

Definition switch (name : jsstring) : option tool :=
  option_map snd (find (fun c => jseqb (lit (fst c)) name) cases).

(** A value of the [arguments] object of a request, as far as the two
    handlers of this development tell values apart. *)
Inductive value : Type :=
| Undefined
| Null
| Str (s : jsstring)
| Other.                       (* a number, a boolean, an array or an object *)

(** The [arguments] object: what it holds under [citation], and the string
    under [format], [None] when it holds [undefined] or [null] there. *)
Record arguments : Type := {
  arg_citation : value;
  arg_format : option jsstring
}.

(** [request.params]; [args] is [None] when the request has no [arguments]. *)
Record request (raw : Type) : Type := {
  name : jsstring;
  args : option arguments;
  raw_args : raw
}.

(** The call [citation.trim()] has a string to work on, or throws; the source
    writes the receiver of the call as [receiver]. *)
Definition trimmable (receiver : string) (citation : value) : outcome jsstring :=
  match citation with
  | Str s => Ok s
  | Undefined => Throw (TypeError "Cannot read properties of undefined (reading 'trim')")
  | Null => Throw (TypeError "Cannot read properties of null (reading 'trim')")
  | Other => Throw (JsError (lit receiver ++ lit ".trim is not a function"))
  end.

Section Handler.

(** What the handlers of the other files take and return. *)
Variables (raw result context : Type).
Variable handler : external_tool -> raw -> M result.
Variable getAbout : context -> M result.

(** The value handed to [JSON.stringify]. *)
Inductive tool_result : Type :=
| ValidateCitationResponse
    (r : Metadata.ToolResponse ValidateCitation.ValidateCitationResult)
| FormatCitationResponse (r : FormatCitation.FormatCitationResult)
| ExternalResponse (r : result).

Inductive content : Type :=
| Text (text : jsstring)
| Json (value : tool_result).   (* JSON.stringify(value, null, 2) *)

Record response : Type := {
  response_content : content;
  isError : bool
}.

Definition error_response (text : jsstring) : response :=
  {| response_content := Text text; isError := true |}.

Definition success (r : tool_result) : response :=
  {| response_content := Json r; isError := false |}.

Definition message (e : exn) : jsstring :=
  match e with
  | JsError message => message
  | JsValue text => text
  end.

Definition unknown_tool (name : jsstring) : jsstring :=
  lit "Error: Unknown tool " ++ dquote ++ name ++ dquote ++ lit ".".

(** The body of the [try] block. *)
Definition call (ctx : option context) (req : request raw) : M response :=
  match switch (name req) with
  | Some (external t) =>
      r <- handler t (raw_args req) ;;
      ret (success (ExternalResponse r))
  | Some validate_citation =>
      (* parseCitation(input.citation), then citation.trim() *)
      match args req with
      | None =>
          throw (TypeError "Cannot read properties of undefined (reading 'citation')")
      | Some input =>
          match trimmable "citation" (arg_citation input) with
          | Ok c =>
              r <- ValidateCitation.validateCitationTool
                     {| ValidateCitation.input_citation := c |} ;;
              ret (success (ValidateCitationResponse r))
          | Throw e => throw e
          end
      end
  | Some format_citation =>
      (* input.format ?? 'full', then input.citation.trim() *)
      match args req with
      | None =>
          throw (TypeError "Cannot read properties of undefined (reading 'format')")
      | Some input =>
          match trimmable "input.citation" (arg_citation input) with
          | Ok c =>
              ret (success (FormatCitationResponse
                     (FormatCitation.formatCitationTool
                        {| FormatCitation.input_citation := c;
                           FormatCitation.input_format := arg_format input |})))
          | Throw e => throw e
          end
      end
  | Some about =>
      match ctx with
      | Some context =>
          r <- getAbout context ;;
          ret (success (ExternalResponse r))
      | None => ret (error_response (lit "About tool not configured."))
      end
  | None => ret (error_response (unknown_tool (name req)))
  end.

(** The handler registered for [CallToolRequestSchema]. *)
Definition callTool (ctx : option context) (req : request raw) : M response :=
  try_catch (call ctx req)
            (fun error => ret (error_response (lit "Error: " ++ message error))).

End Handler.

End Registry.

(** ** src/tools/registry.ts: the tool list *)

Module ToolList.

(** A [Tool] of the list, by its [name]; the description and the input schema
    are text for the caller and play no part in what follows. *)
Record Tool : Type := {
  tool_name : jsstring
}.

Definition ABOUT_TOOL : Tool := {| tool_name := lit "about" |}.

Definition LIST_SOURCES_TOOL : Tool := {| tool_name := lit "list_sources" |}.

Definition TOOLS : list Tool :=
  [{| tool_name := lit "search_legislation" |};
   {| tool_name := lit "get_provision" |};
   {| tool_name := lit "validate_citation" |};
   {| tool_name := lit "build_legal_stance" |};
   {| tool_name := lit "format_citation" |};
   {| tool_name := lit "check_currency" |};
   {| tool_name := lit "get_eu_basis" |};
   {| tool_name := lit "get_swiss_implementations" |};
   {| tool_name := lit "search_eu_implementations" |};
   {| tool_name := lit "get_provision_eu_basis" |};
   {| tool_name := lit "validate_eu_compliance" |}].

Section BuildTools.

Variable context : Type.

(** [SELECT 1 FROM definitions LIMIT 1]: the table [definitions] is not part
    of the store modelled above, so the statement is a parameter. *)
Variable select_definitions : Store.database -> outcome (option unit).

(** [buildTools(db, context)]; [with_db] tells whether a handle was passed. *)
Definition buildTools (with_db : bool) (ctx : option context) : M (list Tool) :=
  let tools := TOOLS ++ [LIST_SOURCES_TOOL] in
  _ <- (if with_db
        then try_catch (_ <- get select_definitions ;; ret tt) (fun _ => ret tt)
        else ret tt) ;;
  ret (match ctx with
       | Some _ => tools ++ [ABOUT_TOOL]
       | None => tools
       end).

End BuildTools.

End ToolList.

(** ** scripts/census.ts: the ids of the census *)

Module Census.

(** ['sr-' + srNumber.replace(/\./g, '-')] *)
Definition srNumberToId (srNumber : jsstring) : jsstring :=
  lit "sr-" ++ StatuteId.dots_to_dashes srNumber.

End Census.

(** ** scripts/census.ts: query partitions *)

Module Partition.

(** The value of [parseInt(..., 10)]: [None] is NaN. *)
Definition number : Type := option Z.

Definition MAX_PER_QUERY : Z := 950%Z.

(** [count <= MAX_PER_QUERY], false on NaN. *)
Definition within_limit (count : number) : bool :=
  match count with
  | Some z => Z.leb z MAX_PER_QUERY
  | None => false
  end.

(** [String(i)] for a digit. *)
Definition digit_string (i : N) : jsstring := [(48 + i)%N].

(** [prefix.endsWith('.')] *)
Definition endsWith_period (prefix : jsstring) : bool :=
  match rev prefix with
  | c :: _ => N.eqb c 46
  | [] => false
  end.

(** [STRSTARTS(s, prefix)] *)
Fixpoint startsWith (s prefix : jsstring) {struct prefix} : bool :=
  match prefix, s with
  | [], _ => true
  | p :: prefix', c :: s' => N.eqb c p && startsWith s' prefix'
  | _ :: _, [] => false
  end.

(** The sub-prefixes a prefix is split into. *)
Definition subPrefixes (prefix : jsstring) : list jsstring :=
  if jseqb prefix [] then
    lit "0." :: List.map digit_string [1; 2; 3; 4; 5; 6; 7; 8; 9]%N
  else if jseqb prefix (lit "0.") then
    List.map (fun i => lit "0." ++ digit_string i) [1; 2; 3; 4; 5; 6; 7; 8; 9]%N
  else if negb (endsWith_period prefix) then
    (prefix ++ lit ".")
      :: List.map (fun i => prefix ++ digit_string i) [0; 1; 2; 3; 4; 5; 6; 7; 8; 9]%N
  else
    List.map (fun i => prefix ++ digit_string i) [0; 1; 2; 3; 4; 5; 6; 7; 8; 9]%N.

Section Endpoint.

(** The SPARQL endpoint, with the clock of the rate limit: a query is a step
    of the world, and may throw. *)
Variable world : Type.
Variable countByPrefix : jsstring -> world -> outcome number * world.

(** A run that has not come to an end within the fuel is [None]. *)
Definition run (A : Type) : Type := world -> option (outcome A * world).

(** [for (const sub of subPrefixes) result.push(...await f(sub))] *)
Fixpoint for_each (f : jsstring -> run (list jsstring)) (subs : list jsstring)
    : run (list jsstring) :=
  fun w =>
    match subs with
    | [] => Some (Ok [], w)
    | sub :: subs' =>
        match f sub w with
        | None => None
        | Some (Throw e, w1) => Some (Throw e, w1)
        | Some (Ok subResult, w1) =>
            match for_each f subs' w1 with
            | None => None
            | Some (Throw e, w2) => Some (Throw e, w2)
            | Some (Ok result, w2) => Some (Ok (subResult ++ result), w2)
            end
        end
    end.

Fixpoint partitionPrefix (fuel : nat) (prefix : jsstring) : run (list jsstring) :=
  fun w =>
    match fuel with
    | 0 => None
    | S fuel' =>
        match countByPrefix prefix w with
        | (Throw e, w1) => Some (Throw e, w1)
        | (Ok count, w1) =>
            if within_limit count then Some (Ok [prefix], w1)
            else for_each (partitionPrefix fuel') (subPrefixes prefix) w1
        end
    end.

End Endpoint.

End Partition.

(** * Vocabulary of the statements *)

Import Metadata ValidateCitation.

(** ** Matches *)

(** [sound r Q]: whenever [r] followed by [k] succeeds, [r] consumed a word
    [w] and changed the captures as [Q] says, and [k] succeeded from there. *)
Definition sound (r : regex) (Q : jsstring -> captures -> captures -> Prop) : Prop :=
  forall pos rest cs k res,
    matcher r pos rest cs k = Some res ->
    exists w rest' cs',
      rest = w ++ rest' /\ Q w cs cs' /\ k (pos + List.length w) rest' cs' = Some res.

Definition keeps (P : jsstring -> Prop) : jsstring -> captures -> captures -> Prop :=
  fun w cs cs' => P w /\ cs' = cs.

(** [n] iterations in a row. *)
Inductive iterated (Q : jsstring -> captures -> captures -> Prop)
  : nat -> jsstring -> captures -> captures -> Prop :=
| iterated_stop cs : iterated Q 0 [] cs cs
| iterated_step n w1 w2 cs cs1 cs2 :
    Q w1 cs cs1 -> iterated Q n w2 cs1 cs2 ->
    iterated Q (S n) (w1 ++ w2) cs cs2.

(** [within q r]: [r] has no capturing group and each of its classes lies
    within [q]. *)
Fixpoint within (q : code_unit -> bool) (r : regex) : Prop :=
  match r with
  | Empty | Bol | Eol => True
  | Class p => forall c, p c = true -> q c = true
  | Seq r1 r2 | Alt r1 r2 => within q r1 /\ within q r2
  | Quant _ _ _ r' => within q r'
  | Group _ _ => False
  end.

Definition over (q : code_unit -> bool) : jsstring -> captures -> captures -> Prop :=
  keeps (Forall (fun c => q c = true)).

Definition anything : code_unit -> bool := fun _ => true.

(** The class [p] does not match at the head of [rest]. *)
Definition stops (p : code_unit -> bool) (rest : jsstring) : Prop :=
  match rest with
  | [] => True
  | c :: _ => p c = false
  end.

(** Two continuations agree on what is left of [rest]. *)
Definition agree (pos : nat) (rest : jsstring) (k1 k2 : cont) : Prop :=
  forall n cs, n <= List.length rest ->
    k1 (pos + n) (skipn n rest) cs = k2 (pos + n) (skipn n rest) cs.

(** A matcher that calls its continuation on what is left of its input only. *)
Definition local (m : matcher_t) : Prop :=
  forall pos rest cs k1 k2, agree pos rest k1 k2 -> m pos rest cs k1 = m pos rest cs k2.

(** ** Citations and titles *)

(** Digits, at least one, then ASCII letters. *)
Definition article_token (a : jsstring) : Prop :=
  exists ds ls, a = ds ++ ls /\ ds <> [] /\
    Forall (fun c => isDigit c = true) ds /\ Forall (fun c => isLetter c = true) ls.

(** What a match leaves in the captures: the article token in group 1 and
    the law in group 2, or the other way round. *)
Definition article_then_law : jsstring -> captures -> captures -> Prop :=
  fun _ cs cs' => exists a l, article_token a /\ cs' = (2, l) :: (1, a) :: cs.

Definition law_then_article : jsstring -> captures -> captures -> Prop :=
  fun _ cs cs' => exists l a, article_token a /\ cs' = (2, a) :: (1, l) :: cs.

Definition two_groups : jsstring -> captures -> captures -> Prop :=
  fun _ cs cs' => exists w1 w2, cs' = (2, w2) :: (1, w1) :: cs.

Definition one_group : jsstring -> captures -> captures -> Prop :=
  fun _ cs cs' => exists w, cs' = (1, w) :: cs.

Definition no_line_terminator (s : jsstring) : Prop :=
  Forall (fun c => isLineTerminator c = false) s.

(** A title that [trim] leaves alone: no white space at either end. *)
Definition trimmed (s : jsstring) : Prop := trim s = s.

Definition full (citation : jsstring) : FormatCitation.FormatCitationInput :=
  {| FormatCitation.input_citation := citation;
     FormatCitation.input_format := Some (lit "full") |}.

(** A bare title that is not itself of one of the two citation forms. *)
Definition plain_title (title : jsstring) : Prop :=
  trimmed title /\
  exec FormatCitation.artFirst_re title = None /\
  exec FormatCitation.artLast_re title = None.

(** ** Runs of the tools *)

(** The [freshness] field for a store. *)
Definition freshness_of (db : Store.database) : option jsstring :=
  match select_built_at db with
  | Ok (Some value) => Some value
  | _ => None
  end.

Definition metadata_of (db : Store.database) : ResponseMetadata :=
  {| data_source := DATA_SOURCE;
     jurisdiction := lit "CH";
     disclaimer := DISCLAIMER;
     freshness := freshness_of db |}.

Definition ask (citation : jsstring) : ValidateCitationInput :=
  {| input_citation := citation |}.

Definition answer (r : ValidateCitationResult) (db : Store.database)
    : outcome (ToolResponse ValidateCitationResult) * Store.database :=
  (Ok {| results := r; _metadata := metadata_of db |}, db).

(** What the resolver answers for the document reference of a citation. *)
Definition resolves_to (db : Store.database) (documentRef docId : jsstring) : Prop :=
  StatuteId.resolveDocumentId documentRef db = (Ok (Some docId), db) /\ docId <> [].

(** Provision [p] of document [docId] answers to the article reference: by
    its reference as it stands, by "art" followed by it, or by its section
    label. *)
Definition matching_provision (docId articleRef : jsstring) (p : Store.legal_provision)
    : Prop :=
  Store.document_id p = docId /\
  (Store.provision_ref p = articleRef \/
   Store.provision_ref p = lit "art" ++ articleRef \/
   Store.section p = Some articleRef).

Definition COULD_NOT_PARSE : jsstring := lit "Could not parse citation format".

(** ** Sample stores and requests *)

Module Sample.

Definition dsg : Store.legal_document :=
  {| Store.id := lit "sr-235-1";
     Store.title := lit "Datenschutzgesetz";
     Store.title_en := Some (lit "Federal Act on Data Protection");
     Store.short_name := Some (lit "DSG");
     Store.status := lit "amended" |}.

Definition art5_ordinance : Store.legal_document :=
  {| Store.id := lit "sr-172-010-1";
     Store.title := lit "Verordnung zu Art. 5";
     Store.title_en := None;
     Store.short_name := None;
     Store.status := lit "repealed" |}.

Definition dsg_art6 : Store.legal_provision :=
  {| Store.document_id := lit "sr-235-1";
     Store.provision_ref := lit "art6";
     Store.section := None |}.

(** A store without the [db_metadata] table. *)
Definition db : Store.database :=
  {| Store.legal_documents := [dsg; art5_ordinance];
     Store.legal_provisions := [dsg_art6];
     Store.db_metadata := None |}.

(** A store in which an id carries a leading blank. *)
Definition padded : Store.legal_document :=
  {| Store.id := lit " sr-235-1";
     Store.title := lit "Datenschutzgesetz";
     Store.title_en := None;
     Store.short_name := None;
     Store.status := lit "in_force" |}.

Definition dsv : Store.legal_document :=
  {| Store.id := lit "sr-235-11";
     Store.title := lit "Datenschutzverordnung";
     Store.title_en := None;
     Store.short_name := Some (lit "DSV");
     Store.status := lit "in_force" |}.

Definition padded_db : Store.database :=
  {| Store.legal_documents := [dsv; padded];
     Store.legal_provisions := [];
     Store.db_metadata := Some [(lit "built_at", lit "2026-02-22T00:00:00Z")] |}.

End Sample.

Module SampleCalls.

Import Registry.

(** A handler of another file that throws, as on a store without the
    full-text index. *)
Definition failing : external_tool -> unit -> M unit :=
  fun _ _ => throw (JsError (lit "no such table: provisions_fts")).

Definition about_nothing : unit -> M unit := fun _ => ret tt.

Definition unknown : request unit :=
  {| name := lit "delete_everything"; args := None; raw_args := tt |}.

Definition search : request unit :=
  {| name := lit "search_legislation"; args := None; raw_args := tt |}.

Definition validate : request unit :=
  {| name := lit "validate_citation";
     args := Some {| arg_citation := Str (lit "Art. 6 DSG"); arg_format := None |};
     raw_args := tt |}.

Definition run (req : request unit) (db : Store.database) :=
  callTool failing about_nothing None req db.

End SampleCalls.

(** ** More vocabulary *)

(** An id as the ingestion builds it: "sr-" and then the SR number with a
    dash for each period, the number holding no white space. *)
Definition ingested_id (id : jsstring) : Prop :=
  exists srNumber,
    Forall (fun c => isSpace c = false) srNumber /\
    id = Census.srNumberToId srNumber.

(** Plain text: units from U+0001 to U+D7FF and from U+E000 to U+FFFD, each
    of them a character of its own, in JavaScript as in the UTF-8 text that
    SQLite compares. *)
Definition plain_text (s : jsstring) : Prop :=
  Forall (fun c => (1 <=? c) && (c <=? 55295) || (57344 <=? c) && (c <=? 65533) = true)%N s.

(** A result with another [citation] field. *)
Definition with_citation (c : jsstring) (r : ValidateCitationResult)
    : ValidateCitationResult :=
  {| valid := valid r;
     citation := c;
     normalized := normalized r;
     document_id := document_id r;
     document_title := document_title r;
     provision_ref := provision_ref r;
     status := status r;
     warnings := warnings r |}.

(** The first three units read "art", in upper or lower case. *)
Definition starts_with_art (s : jsstring) : bool :=
  match s with
  | x :: y :: z :: _ =>
      N.eqb (toUpperAscii x) 65 && N.eqb (toUpperAscii y) 82
      && N.eqb (toUpperAscii z) 84
  | _ => false
  end.

(** "art" occurs somewhere, in upper or lower case. *)
Fixpoint mentions_art (s : jsstring) : bool :=
  match s with
  | [] => false
  | _ :: s' => starts_with_art s || mentions_art s'
  end.

(** A request to format [citation], with or without a [format]. *)
Definition format_as (f : option jsstring) (citation : jsstring)
    : FormatCitation.FormatCitationInput :=
  {| FormatCitation.input_citation := citation;
     FormatCitation.input_format := f |}.

(** "Art" in upper or lower case, a period or none, then white space, if
    any. *)
Definition art_word (w : jsstring) : Prop :=
  exists x y z pw sw,
    w = [x; y; z] ++ pw ++ sw /\
    toUpperAscii x = 65%N /\ toUpperAscii y = 82%N /\ toUpperAscii z = 84%N /\
    (pw = [] \/ pw = lit ".") /\
    Forall (fun c => isSpace c = true) sw.

(** White space, at least one unit. *)
Definition blank (sw : jsstring) : Prop :=
  sw <> [] /\ Forall (fun c => isSpace c = true) sw.

(** What follows the law in the two law-first expressions:
    [[,;]?\s*Art\.?\s*(article)$]. *)
Definition law_first_tail (article : regex) : regex :=
  seqs [opt comma_semicolon; star space; str_ci "Art"; opt period; star space;
        Group 2 article; Eol].

(** The last unit is neither white space, nor a comma, nor a semicolon. *)
Definition clean_end (law : jsstring) : bool :=
  match rev law with
  | c :: _ => negb (isSpace c || N.eqb c 44 || N.eqb c 59)
  | [] => false
  end.

(** Between a law and "Art.": an optional comma or semicolon, then white
    space, if any. *)
Definition separator (sep : jsstring) : Prop :=
  exists cw sw,
    sep = cw ++ sw /\ (cw = [] \/ cw = lit "," \/ cw = lit ";") /\
    Forall (fun c => isSpace c = true) sw.

(** Groups of digits, a period before each. *)
Definition dotted (groups : list jsstring) : jsstring :=
  List.concat (List.map (fun g : jsstring => (46%N : code_unit) :: g) groups).

(** An SR number: groups of digits with a period between them, as in 235.1
    and 0.101. *)
Definition sr_number (n : jsstring) : Prop :=
  exists ds groups,
    n = ds ++ dotted groups /\
    ds <> [] /\ Forall (fun c => isDigit c = true) ds /\
    Forall (fun g => g <> [] /\ Forall (fun c => isDigit c = true) g) groups.

(** What may stand before the number: nothing, or "SR" and white space. *)
Definition sr_prefix (pre : jsstring) : Prop :=
  pre = [] \/ exists sw, pre = lit "SR" ++ sw /\ Forall (fun c => isSpace c = true) sw.

(** Every unit is a digit, or a period with a digit after it. *)
Fixpoint plain_number (s : jsstring) : bool :=
  match s with
  | [] => true
  | c :: s' =>
      (isDigit c || (N.eqb c 46 && match s' with d :: _ => isDigit d | [] => false end))
      && plain_number s'
  end.

(** An SR number as the census meets it: digits and periods, the first
    digit from 1 to 9, or "0." and then a digit from 1 to 9. *)
Definition census_number (n : jsstring) : bool :=
  plain_number n
  && match n with
     | c :: rest =>
         (N.leb 49 c && N.leb c 57)
         || (N.eqb c 48
             && match rest with
                | p :: d :: _ => N.eqb p 46 && N.leb 49 d && N.leb d 57
                | _ => false
                end)
     | [] => false
     end.

Module SampleCensus.

(** An endpoint that counts 1000 acts in all and 3 under every prefix. *)
Definition endpoint (prefix : jsstring) (w : unit) : outcome Partition.number * unit :=
  (Ok (Some (if jseqb prefix [] then 1000%Z else 3%Z)), w).

End SampleCensus.

(** * Properties *)

(** ** Strings *)

Lemma jseqb_eq (a b : jsstring) : jseqb a b = true <-> a = b.
Proof.
  revert b; induction a as [|x a IH]; destruct b as [|y b]; simpl;
    split; try congruence; intros H.
  - apply andb_true_iff in H as [Hx Hab].
    apply N.eqb_eq in Hx. apply IH in Hab. congruence.
  - injection H as -> ->. rewrite N.eqb_refl. simpl. now apply IH.
Qed.

Lemma jseqb_refl (a : jsstring) : jseqb a a = true.
Proof. now apply jseqb_eq. Qed.

Lemma dropWhile_length p s : List.length (dropWhile p s) <= List.length s.
Proof.
  induction s as [|c s IH]; simpl; [lia|].
  destruct (p c); simpl; lia.
Qed.

Lemma dropWhile_fixed p s :
  dropWhile p s = s <-> s = [] \/ exists c s', s = c :: s' /\ p c = false.
Proof.
  split.
  - destruct s as [|c s]; [now left|]. simpl.
    destruct (p c) eqn:E; intros H.
    + pose proof (dropWhile_length p s) as L. rewrite H in L. simpl in L. lia.
    + right. now exists c, s.
  - intros [->|(c & s' & -> & E)]; simpl; [reflexivity|]. now rewrite E.
Qed.

(** A string is left alone by [trim] exactly when neither end is white. *)
Lemma trim_fixed s :
  trim s = s <-> dropWhile isSpace s = s /\ dropWhile isSpace (rev s) = rev s.
Proof.
  unfold trim, trimEnd, trimStart. split.
  - intros H.
    assert (L : List.length (dropWhile isSpace s) = List.length s).
    { apply Nat.le_antisymm; [apply dropWhile_length|].
      rewrite <- H at 1. rewrite length_rev.
      etransitivity; [apply dropWhile_length|]. now rewrite length_rev. }
    assert (E : dropWhile isSpace s = s).
    { destruct s as [|c s]; [reflexivity|]. simpl in *.
      destruct (isSpace c); [|reflexivity].
      pose proof (dropWhile_length isSpace s). lia. }
    split; [exact E|]. rewrite E in H.
    rewrite <- H at 2. now rewrite rev_involutive.
  - intros [E1 E2]. rewrite E1, E2. apply rev_involutive.
Qed.

(** ** The bound on the iterations of a quantifier is never reached *)

Lemma agree_here pos rest k1 k2 cs :
  agree pos rest k1 k2 -> k1 pos rest cs = k2 pos rest cs.
Proof.
  intros H. specialize (H 0 cs (Nat.le_0_l _)).
  now rewrite Nat.add_0_r in H.
Qed.

Lemma agree_later pos rest k1 k2 n :
  agree pos rest k1 k2 -> n <= List.length rest ->
  agree (pos + n) (skipn n rest) k1 k2.
Proof.
  intros H Hn m cs Hm. rewrite length_skipn in Hm.
  rewrite skipn_skipn, <- Nat.add_assoc, (Nat.add_comm n m).
  apply H. lia.
Qed.

Lemma local_repeat m greedy :
  local m -> forall fuel min max, local (repeatMatcher m greedy fuel min max).
Proof.
  intros Hm. induction fuel as [|fuel IH]; intros min max pos rest cs k1 k2 A;
    [reflexivity|]. cbn [repeatMatcher].
  rewrite (agree_here cs A).
  assert (D : m pos rest cs
                (fun pos' rest' cs' =>
                   if (min =? 0) && (pos' =? pos) then None
                   else repeatMatcher m greedy fuel (pred min) (dec_max max) pos' rest' cs' k1)
              = m pos rest cs
                (fun pos' rest' cs' =>
                   if (min =? 0) && (pos' =? pos) then None
                   else repeatMatcher m greedy fuel (pred min) (dec_max max) pos' rest' cs' k2)).
  { apply Hm. intros n cs' Hn. cbv beta.
    destruct ((min =? 0) && (pos + n =? pos)); [reflexivity|].
    apply IH. now apply agree_later. }
  rewrite D. reflexivity.
Qed.

Lemma local_matcher r : local (matcher r).
Proof.
  induction r as [|p|r1 IH1 r2 IH2|r1 IH1 r2 IH2|min max greedy r IH|i r IH| |];
    intros pos rest cs k1 k2 A; cbn [matcher].
  - apply agree_here, A.
  - destruct rest as [|c rest]; [reflexivity|]. destruct (p c); [|reflexivity].
    specialize (A 1 cs). simpl in A. rewrite Nat.add_1_r in A. apply A. lia.
  - apply IH1. intros n cs' Hn. cbv beta. apply IH2. now apply agree_later.
  - now rewrite (IH1 _ _ _ _ _ A), (IH2 _ _ _ _ _ A).
  - apply local_repeat; auto.
  - apply IH. intros n cs' Hn. cbv beta. apply A, Hn.
  - destruct (pos =? 0); [apply agree_here, A|reflexivity].
  - destruct rest; [apply (agree_here cs A)|reflexivity].
Qed.

Lemma repeat_fuel m greedy :
  local m ->
  forall fuel1 fuel2 min max pos rest cs k,
    min + List.length rest < fuel1 -> min + List.length rest < fuel2 ->
    repeatMatcher m greedy fuel1 min max pos rest cs k
    = repeatMatcher m greedy fuel2 min max pos rest cs k.
Proof.
  intros Hm. induction fuel1 as [|fuel1 IH]; intros fuel2 min max pos rest cs k L1 L2;
    [lia|]. destruct fuel2 as [|fuel2]; [lia|]. cbn [repeatMatcher].
  assert (D : m pos rest cs
                (fun pos' rest' cs' =>
                   if (min =? 0) && (pos' =? pos) then None
                   else repeatMatcher m greedy fuel1 (pred min) (dec_max max) pos' rest' cs' k)
              = m pos rest cs
                (fun pos' rest' cs' =>
                   if (min =? 0) && (pos' =? pos) then None
                   else repeatMatcher m greedy fuel2 (pred min) (dec_max max) pos' rest' cs' k)).
  { apply Hm. intros n cs' Hn. cbv beta.
    destruct ((min =? 0) && (pos + n =? pos)) eqn:E; [reflexivity|].
    assert (B : pred min + List.length (skipn n rest) < fuel1 /\
                pred min + List.length (skipn n rest) < fuel2).
    { rewrite length_skipn. apply andb_false_iff in E. destruct E as [E|E].
      - apply Nat.eqb_neq in E. lia.
      - apply Nat.eqb_neq in E. lia. }
    apply IH; tauto. }
  rewrite D. reflexivity.
Qed.

(** More fuel than [matcher] hands to a quantifier changes nothing. *)
Lemma quantifier_fuel min max greedy r pos rest cs k extra :
  matcher (Quant min max greedy r) pos rest cs k
  = repeatMatcher (matcher r) greedy (S (min + List.length rest) + extra) min max
      pos rest cs k.
Proof.
  cbn [matcher]. apply repeat_fuel; [apply local_matcher|lia|lia].
Qed.

(** ** The matcher: what a success tells *)

Lemma sound_weaken r (Q Q' : jsstring -> captures -> captures -> Prop) :
  sound r Q -> (forall w cs cs', Q w cs cs' -> Q' w cs cs') -> sound r Q'.
Proof.
  intros H HQ pos rest cs k res Hm.
  destruct (H _ _ _ _ _ Hm) as (w & rest' & cs' & ? & ? & ?).
  exists w, rest', cs'. auto.
Qed.

Lemma sound_Empty : sound Empty (keeps (fun w => w = [])).
Proof.
  intros pos rest cs k res Hm. simpl in Hm.
  exists [], rest, cs. rewrite Nat.add_0_r. repeat split; auto.
Qed.

Lemma sound_Bol : sound Bol (keeps (fun w => w = [])).
Proof.
  intros pos rest cs k res Hm. simpl in Hm.
  destruct (pos =? 0); [|discriminate].
  exists [], rest, cs. rewrite Nat.add_0_r. repeat split; auto.
Qed.

Lemma sound_Eol : sound Eol (keeps (fun w => w = [])).
Proof.
  intros pos rest cs k res Hm. simpl in Hm.
  destruct rest; [|discriminate].
  exists [], [], cs. rewrite Nat.add_0_r. repeat split; auto.
Qed.

Lemma sound_Class p :
  sound (Class p) (keeps (fun w => exists c, w = [c] /\ p c = true)).
Proof.
  intros pos rest cs k res Hm. simpl in Hm.
  destruct rest as [|c rest]; [discriminate|].
  destruct (p c) eqn:E; [|discriminate].
  exists [c], rest, cs. simpl. rewrite Nat.add_1_r. repeat split; eauto.
Qed.

Lemma sound_Seq r1 r2 Q1 Q2 :
  sound r1 Q1 -> sound r2 Q2 ->
  sound (Seq r1 r2)
    (fun w cs cs' => exists w1 w2 cs1, w = w1 ++ w2 /\ Q1 w1 cs cs1 /\ Q2 w2 cs1 cs').
Proof.
  intros H1 H2 pos rest cs k res Hm. simpl in Hm.
  destruct (H1 _ _ _ _ _ Hm) as (w1 & rest1 & cs1 & -> & HQ1 & Hm2).
  destruct (H2 _ _ _ _ _ Hm2) as (w2 & rest2 & cs2 & -> & HQ2 & Hk).
  exists (w1 ++ w2), rest2, cs2. rewrite <- app_assoc, length_app, Nat.add_assoc.
  repeat split; auto. now exists w1, w2, cs1.
Qed.

Lemma sound_Alt r1 r2 Q1 Q2 :
  sound r1 Q1 -> sound r2 Q2 ->
  sound (Alt r1 r2) (fun w cs cs' => Q1 w cs cs' \/ Q2 w cs cs').
Proof.
  intros H1 H2 pos rest cs k res Hm. simpl in Hm. unfold orelse in Hm.
  destruct (matcher r1 pos rest cs k) eqn:E1.
  - injection Hm as <-.
    destruct (H1 _ _ _ _ _ E1) as (w & rest' & cs' & ? & ? & ?).
    exists w, rest', cs'. auto.
  - destruct (H2 _ _ _ _ _ Hm) as (w & rest' & cs' & ? & ? & ?).
    exists w, rest', cs'. auto.
Qed.

Lemma sound_Group i r Q :
  sound r Q ->
  sound (Group i r) (fun w cs cs' => exists cs1, Q w cs cs1 /\ cs' = (i, w) :: cs1).
Proof.
  intros H pos rest cs k res Hm. simpl in Hm.
  destruct (H _ _ _ _ _ Hm) as (w & rest' & cs' & -> & HQ & Hk).
  exists w, rest', ((i, w) :: cs'). repeat split; eauto.
  replace (pos + List.length w - pos) with (List.length w + 0) in Hk by lia.
  now rewrite firstn_app_2, app_nil_r in Hk.
Qed.

Lemma sound_repeat r Q greedy (H : sound r Q) :
  forall fuel min pos rest cs k res,
    repeatMatcher (matcher r) greedy fuel min None pos rest cs k = Some res ->
    exists n w rest' cs',
      rest = w ++ rest' /\ min <= n /\ iterated Q n w cs cs' /\
      k (pos + List.length w) rest' cs' = Some res.
Proof.
  induction fuel as [|fuel IH]; intros min pos rest cs k res Hm; [discriminate|].
  cbn [repeatMatcher max_is_zero dec_max] in Hm.
  assert (Stop : min = 0 -> k pos rest cs = Some res ->
                 exists n w rest' cs', rest = w ++ rest' /\ min <= n /\
                   iterated Q n w cs cs' /\ k (pos + List.length w) rest' cs' = Some res).
  { intros -> Hk. exists 0, [], rest, cs. simpl. rewrite Nat.add_0_r.
    repeat split; auto. constructor. }
  assert (Step : forall d,
      d = (fun pos' rest' cs' =>
             if (min =? 0) && (pos' =? pos) then None
             else repeatMatcher (matcher r) greedy fuel (pred min) None pos' rest' cs' k) ->
      matcher r pos rest cs d = Some res ->
      exists n w rest' cs', rest = w ++ rest' /\ min <= n /\
        iterated Q n w cs cs' /\ k (pos + List.length w) rest' cs' = Some res).
  { intros d -> Hd.
    destruct (H _ _ _ _ _ Hd) as (w1 & rest1 & cs1 & -> & HQ & Hr).
    destruct ((min =? 0) && (pos + List.length w1 =? pos)); [discriminate|].
    destruct (IH _ _ _ _ _ _ Hr) as (n & w2 & rest2 & cs2 & -> & Hn & Hit & Hk).
    exists (S n), (w1 ++ w2), rest2, cs2.
    rewrite <- app_assoc, length_app, Nat.add_assoc. repeat split; auto; [lia|].
    econstructor; eauto. }
  destruct (0 <? min) eqn:Hmin.
  - eapply Step; [reflexivity|exact Hm].
  - apply Nat.ltb_ge in Hmin. assert (min = 0) by lia.
    destruct greedy; unfold orelse in Hm.
    + match type of Hm with match ?X with _ => _ end = _ => destruct X eqn:E end.
      * injection Hm as <-. eapply Step; [reflexivity|exact E].
      * apply Stop; auto.
    + destruct (k pos rest cs) eqn:E.
      * injection Hm as <-. apply Stop; auto.
      * eapply Step; [reflexivity|exact Hm].
Qed.

Lemma sound_Quant r Q min greedy :
  sound r Q ->
  sound (Quant min None greedy r)
    (fun w cs cs' => exists n, min <= n /\ iterated Q n w cs cs').
Proof.
  intros H pos rest cs k res Hm. cbn [matcher] in Hm.
  destruct (@sound_repeat r Q greedy H _ _ _ _ _ _ _ Hm) as (n & w & rest' & cs' & ? & ? & ? & ?).
  exists w, rest', cs'. eauto.
Qed.

Lemma sound_opt r Q :
  sound r Q ->
  sound (opt r) (fun w cs cs' => Q w cs cs' \/ (w = [] /\ cs' = cs)).
Proof.
  intros H pos rest cs k res Hm. unfold opt in Hm.
  cbn [matcher repeatMatcher max_is_zero dec_max Nat.ltb Nat.leb Nat.eqb andb pred] in Hm.
  unfold orelse in Hm.
  match type of Hm with match ?X with _ => _ end = _ => destruct X eqn:E end.
  - injection Hm as <-.
    destruct (H _ _ _ _ _ E) as (w & rest' & cs' & -> & HQ & Hk).
    destruct (pos + List.length w =? pos); [discriminate|].
    destruct (0 + List.length (w ++ rest')); [discriminate|].
    cbn [repeatMatcher max_is_zero] in Hk.
    exists w, rest', cs'. auto.
  - exists [], rest, cs. simpl. rewrite Nat.add_0_r. auto.
Qed.

(** Iterations of an expression whose matches are words over [q] and leave
    the captures alone. *)
Lemma iterated_keeps (Q : jsstring -> captures -> captures -> Prop) (q : code_unit -> bool) :
  (forall w cs cs', Q w cs cs' -> Forall (fun c => q c = true) w /\ cs' = cs) ->
  forall n w cs cs', iterated Q n w cs cs' -> Forall (fun c => q c = true) w /\ cs' = cs.
Proof.
  intros HQ n w cs cs' Hit. induction Hit as [|n w1 w2 cs cs1 cs2 H1 _ [IHw IHc]].
  - auto.
  - destruct (HQ _ _ _ H1) as [F1 ->]. split; [apply Forall_app; auto|auto].
Qed.

Lemma iterated_class_length p n w cs cs' :
  iterated (keeps (fun w => exists c, w = [c] /\ p c = true)) n w cs cs' ->
  List.length w = n.
Proof.
  induction 1 as [|n w1 w2 cs cs1 cs2 [(c & -> & _) _] _ IH]; simpl; auto.
Qed.

(** ** Expressions without groups *)

Lemma sound_repeat_any r Q greedy (H : sound r Q) :
  forall fuel min max pos rest cs k res,
    repeatMatcher (matcher r) greedy fuel min max pos rest cs k = Some res ->
    exists n w rest' cs',
      rest = w ++ rest' /\ iterated Q n w cs cs' /\
      k (pos + List.length w) rest' cs' = Some res.
Proof.
  induction fuel as [|fuel IH]; intros min max pos rest cs k res Hm; [discriminate|].
  cbn [repeatMatcher] in Hm.
  assert (Stop : k pos rest cs = Some res ->
                 exists n w rest' cs', rest = w ++ rest' /\
                   iterated Q n w cs cs' /\ k (pos + List.length w) rest' cs' = Some res).
  { intros Hk. exists 0, [], rest, cs. simpl. rewrite Nat.add_0_r.
    repeat split; auto. constructor. }
  assert (Step : forall d,
      d = (fun pos' rest' cs' =>
             if (min =? 0) && (pos' =? pos) then None
             else repeatMatcher (matcher r) greedy fuel (pred min) (dec_max max)
                    pos' rest' cs' k) ->
      matcher r pos rest cs d = Some res ->
      exists n w rest' cs', rest = w ++ rest' /\
        iterated Q n w cs cs' /\ k (pos + List.length w) rest' cs' = Some res).
  { intros d -> Hd.
    destruct (H _ _ _ _ _ Hd) as (w1 & rest1 & cs1 & -> & HQ & Hr).
    destruct ((min =? 0) && (pos + List.length w1 =? pos)); [discriminate|].
    destruct (IH _ _ _ _ _ _ _ Hr) as (n & w2 & rest2 & cs2 & -> & Hit & Hk).
    exists (S n), (w1 ++ w2), rest2, cs2.
    rewrite <- app_assoc, length_app, Nat.add_assoc. repeat split; auto.
    econstructor; eauto. }
  destruct (max_is_zero max); [now apply Stop|].
  destruct (0 <? min).
  - eapply Step; [reflexivity|exact Hm].
  - destruct greedy; unfold orelse in Hm.
    + match type of Hm with match ?X with _ => _ end = _ => destruct X eqn:E end.
      * injection Hm as <-. eapply Step; [reflexivity|exact E].
      * now apply Stop.
    + destruct (k pos rest cs) eqn:E.
      * injection Hm as <-. now apply Stop.
      * eapply Step; [reflexivity|exact Hm].
Qed.

Lemma sound_within q r : within q r -> sound r (over q).
Proof.
  induction r as [|p|r1 IH1 r2 IH2|r1 IH1 r2 IH2|min max greedy r IH|i r IH| |];
    cbn [within]; intros W.
  - eapply sound_weaken; [apply sound_Empty|]. intros w cs cs' [-> ->]. now split.
  - eapply sound_weaken; [apply sound_Class|].
    intros w cs cs' [(c & -> & Hc) ->]. split; auto.
  - destruct W as [W1 W2].
    eapply sound_weaken; [apply (sound_Seq (IH1 W1) (IH2 W2))|].
    intros w cs cs' (w1 & w2 & cs1 & -> & [F1 ->] & [F2 ->]).
    split; auto. now apply Forall_app.
  - destruct W as [W1 W2].
    eapply sound_weaken; [apply (sound_Alt (IH1 W1) (IH2 W2))|].
    intros w cs cs' [H|H]; exact H.
  - intros pos rest cs k res Hm. cbn [matcher] in Hm.
    destruct (@sound_repeat_any r _ greedy (IH W) _ _ _ _ _ _ _ _ Hm)
      as (n & w & rest' & cs' & -> & Hit & Hk).
    exists w, rest', cs'. repeat split; auto;
      eapply (@iterated_keeps (over q) q); eauto; intros ? ? ? [? ?]; auto.
  - destruct W.
  - eapply sound_weaken; [apply sound_Bol|]. intros w cs cs' [-> ->]. now split.
  - eapply sound_weaken; [apply sound_Eol|]. intros w cs cs' [-> ->]. now split.
Qed.

(** One or more units of a class. *)
Lemma sound_plus_class p greedy :
  sound (Quant 1 None greedy (Class p))
    (keeps (fun w => w <> [] /\ Forall (fun c => p c = true) w)).
Proof.
  eapply sound_weaken; [apply sound_Quant, sound_Class|].
  intros w cs cs' (n & Hn & Hit).
  pose proof (@iterated_class_length p _ _ _ _ Hit) as L.
  assert (K : Forall (fun c => p c = true) w /\ cs' = cs).
  { eapply iterated_keeps; [|exact Hit].
    intros w0 cs0 cs0' [(c & -> & Hc) ->]. auto. }
  destruct K as [F ->].
  repeat split; auto. intros ->. simpl in L. lia.
Qed.

Lemma execFrom_sound r Q :
  sound r Q ->
  forall rest pos cs, execFrom r pos rest = Some cs -> exists w, Q w [] cs.
Proof.
  intros H. induction rest as [|c rest IH]; intros pos cs He; simpl in He.
  - destruct (matcher r pos [] [] accept) eqn:E; [|discriminate].
    injection He as <-.
    destruct (H _ _ _ _ _ E) as (w & rest' & cs' & _ & HQ & Hk).
    injection Hk as <-. eauto.
  - destruct (matcher r pos (c :: rest) [] accept) eqn:E.
    + injection He as <-.
      destruct (H _ _ _ _ _ E) as (w & rest' & cs' & _ & HQ & Hk).
      injection Hk as <-. eauto.
    + eapply IH; eauto.
Qed.

Lemma exec_sound r Q s cs :
  sound r Q -> exec r s = Some cs -> exists w, Q w [] cs.
Proof. intros H. apply execFrom_sound; auto. Qed.

(** ** Character classes *)

Ltac to_arith H :=
  repeat rewrite ?orb_true_iff, ?andb_true_iff, ?N.eqb_eq, ?N.leb_le in H.

Lemma isDigit_spec c : isDigit c = true <-> (48 <= c <= 57)%N.
Proof. unfold isDigit. rewrite andb_true_iff, !N.leb_le. tauto. Qed.

Lemma isLetter_spec c :
  isLetter c = true <-> ((97 <= c <= 122) \/ (65 <= c <= 90))%N.
Proof.
  unfold isLetter, isLower, isUpper.
  rewrite orb_true_iff, !andb_true_iff, !N.leb_le. tauto.
Qed.

Lemma isSpace_range c : isSpace c = true -> (c <= 32 \/ 160 <= c)%N.
Proof.
  unfold isSpace, isWhiteSpace, isLineTerminator. intros H. to_arith H. lia.
Qed.

Lemma digit_not_space c : isDigit c = true -> isSpace c = false.
Proof.
  intros H. apply isDigit_spec in H.
  destruct (isSpace c) eqn:E; [apply isSpace_range in E; lia|reflexivity].
Qed.

Lemma letter_not_space c : isLetter c = true -> isSpace c = false.
Proof.
  intros H. apply isLetter_spec in H.
  destruct (isSpace c) eqn:E; [apply isSpace_range in E; lia|reflexivity].
Qed.

Lemma letter_not_digit c : isLetter c = true -> isDigit c = false.
Proof.
  intros H. apply isLetter_spec in H.
  destruct (isDigit c) eqn:E; [apply isDigit_spec in E; lia|reflexivity].
Qed.

(** A unit that matches a letter of the source under the [i] flag is an
    ASCII letter. *)
Lemma chr_ci_letter a c :
  isLetter a = true -> N.eqb (toUpperAscii c) (toUpperAscii a) = true ->
  isLetter c = true.
Proof.
  intros Ha H. apply N.eqb_eq in H. apply isLetter_spec in Ha. apply isLetter_spec.
  unfold toUpperAscii, isLower in H.
  destruct (N.leb_spec 97 c), (N.leb_spec c 122), (N.leb_spec 97 a), (N.leb_spec a 122);
    simpl in H; lia.
Qed.

(** ** The article token *)

Lemma within_word_ci w :
  Forall (fun a => isLetter a = true) w -> within isLetter (word_ci w).
Proof.
  induction w as [|a w IH]; intros F; [exact I|].
  inversion F as [|? ? Ha Fw]; subst.
  assert (Ca : within isLetter (chr_ci a)).
  { intros c Hc. eapply chr_ci_letter; eauto. }
  destruct w as [|b w]; [exact Ca|]. split; [exact Ca|]. apply IH, Fw.
Qed.

Lemma within_str_ci s :
  forallb isLetter (lit s) = true -> within isLetter (str_ci s).
Proof.
  intros H. apply within_word_ci. rewrite forallb_forall in H.
  apply Forall_forall. exact H.
Qed.

Lemma within_ordinal : within isLetter ValidateCitation.ordinal.
Proof.
  unfold ValidateCitation.ordinal. cbn [alts].
  repeat (split; [apply within_str_ci; reflexivity|]).
  apply within_str_ci; reflexivity.
Qed.

Lemma within_letter_ci : within isLetter letter_ci.
Proof. intros c H. exact H. Qed.

Lemma sound_parse_article : sound ValidateCitation.article (keeps article_token).
Proof.
  unfold ValidateCitation.article. cbn [seqs].
  eapply sound_weaken.
  - apply sound_Seq; [apply sound_plus_class|].
    apply sound_Seq; apply sound_within with (q := isLetter).
    + exact within_ordinal.
    + exact within_letter_ci.
  - cbv beta. intros w cs cs' (w1 & w23 & cs1 & -> & [[N1 F1] ->] & H).
    destruct H as (w2 & w3 & cs2 & -> & [F2 ->] & [F3 ->]).
    split; [|reflexivity]. exists w1, (w2 ++ w3). repeat split; auto.
    now apply Forall_app.
Qed.

Lemma sound_sr_article :
  sound (seqs [plus digit; star letter_ci]) (keeps article_token).
Proof.
  cbn [seqs]. eapply sound_weaken.
  - apply sound_Seq; [apply sound_plus_class|].
    apply sound_within with (q := isLetter). exact within_letter_ci.
  - cbv beta. intros w cs cs' (w1 & w2 & cs1 & -> & [[N1 F1] ->] & [F2 ->]).
    split; [|reflexivity]. exists w1, w2. auto.
Qed.

Ltac no_group :=
  apply sound_within with (q := anything);
  unfold FormatCitation.article;
  cbn [within seqs alts star plus opt plus_lazy str_ci word_ci lit List.map
       list_ascii_of_string chr_ci space period comma_semicolon digit_or_period dot
       digit letter_ci];
  repeat split; intros; reflexivity.

Ltac open_post H :=
  repeat match type of H with
  | exists _, _ => destruct H as (? & H)
  | _ /\ _ => let K := fresh in destruct H as [K H]
  end;
  repeat match goal with
  | K : keeps _ _ _ _ |- _ => destruct K as [? ?]
  | K : over _ _ _ _ |- _ => destruct K as [_ ?]
  | K : exists _, _ |- _ => destruct K as (? & K)
  | K : _ /\ _ |- _ => destruct K
  end; subst.

Lemma sound_parse_artFirst : sound ValidateCitation.artFirst_re article_then_law.
Proof.
  unfold ValidateCitation.artFirst_re. cbn [seqs].
  eapply sound_weaken.
  - apply sound_Seq; [apply sound_Bol|].
    apply sound_Seq; [no_group|].
    apply sound_Seq; [no_group|].
    apply sound_Seq; [no_group|].
    apply sound_Seq; [apply sound_Group, sound_parse_article|].
    apply sound_Seq; [no_group|].
    apply sound_Seq; [apply sound_Group; no_group|apply sound_Eol].
  - cbv beta. intros w cs cs' H. open_post H.
    do 2 eexists. split; [eassumption|reflexivity].
Qed.

Lemma sound_parse_artLast : sound ValidateCitation.artLast_re law_then_article.
Proof.
  unfold ValidateCitation.artLast_re. cbn [seqs].
  eapply sound_weaken.
  - apply sound_Seq; [apply sound_Bol|].
    apply sound_Seq; [apply sound_Group; no_group|].
    apply sound_Seq; [no_group|].
    apply sound_Seq; [no_group|].
    apply sound_Seq; [no_group|].
    apply sound_Seq; [no_group|].
    apply sound_Seq; [no_group|].
    apply sound_Seq; [apply sound_Group, sound_parse_article|apply sound_Eol].
  - cbv beta. intros w cs cs' H. open_post H.
    do 2 eexists. split; [eassumption|reflexivity].
Qed.

Lemma sound_parse_srWithArt : sound ValidateCitation.srWithArt_re law_then_article.
Proof.
  unfold ValidateCitation.srWithArt_re. cbn [seqs].
  eapply sound_weaken.
  - apply sound_Seq; [apply sound_Bol|].
    apply sound_Seq; [no_group|].
    apply sound_Seq; [no_group|].
    apply sound_Seq; [apply sound_Group; no_group|].
    apply sound_Seq; [no_group|].
    apply sound_Seq; [no_group|].
    apply sound_Seq; [no_group|].
    apply sound_Seq; [no_group|].
    apply sound_Seq; [no_group|].
    apply sound_Seq; [no_group|].
    apply sound_Seq; [apply sound_Group, sound_sr_article|apply sound_Eol].
  - cbv beta. intros w cs cs' H. open_post H.
    do 2 eexists. split; [eassumption|reflexivity].
Qed.

Lemma sound_format_artFirst : sound FormatCitation.artFirst_re two_groups.
Proof.
  unfold FormatCitation.artFirst_re. cbn [seqs].
  eapply sound_weaken.
  - apply sound_Seq; [apply sound_Bol|].
    apply sound_Seq; [no_group|].
    apply sound_Seq; [no_group|].
    apply sound_Seq; [no_group|].
    apply sound_Seq; [apply sound_Group; no_group|].
    apply sound_Seq; [no_group|].
    apply sound_Seq; [apply sound_Group; no_group|apply sound_Eol].
  - cbv beta. intros w cs cs' H. open_post H.
    do 2 eexists. reflexivity.
Qed.

Lemma sound_format_artLast : sound FormatCitation.artLast_re two_groups.
Proof.
  unfold FormatCitation.artLast_re. cbn [seqs].
  eapply sound_weaken.
  - apply sound_Seq; [apply sound_Bol|].
    apply sound_Seq; [apply sound_Group; no_group|].
    apply sound_Seq; [no_group|].
    apply sound_Seq; [no_group|].
    apply sound_Seq; [no_group|].
    apply sound_Seq; [no_group|].
    apply sound_Seq; [no_group|].
    apply sound_Seq; [apply sound_Group; no_group|apply sound_Eol].
  - cbv beta. intros w cs cs' H. open_post H.
    do 2 eexists. reflexivity.
Qed.

Lemma sound_srNumber : sound StatuteId.srNumber_re one_group.
Proof.
  unfold StatuteId.srNumber_re. cbn [seqs].
  eapply sound_weaken.
  - apply sound_Seq; [no_group|apply sound_Group; no_group].
  - cbv beta. intros w cs cs' H. open_post H. eexists. reflexivity.
Qed.

(** Every group read by the source after a match was bound by that match. *)
Lemma groups_bound s cs :
  (exec ValidateCitation.artFirst_re s = Some cs \/
   exec ValidateCitation.artLast_re s = Some cs \/
   exec ValidateCitation.srWithArt_re s = Some cs \/
   exec FormatCitation.artFirst_re s = Some cs \/
   exec FormatCitation.artLast_re s = Some cs ->
   exists w1 w2, cs = [(2, w2); (1, w1)]) /\
  (exec StatuteId.srNumber_re s = Some cs -> exists w, cs = [(1, w)]).
Proof.
  split.
  - intros [H|[H|[H|[H|H]]]].
    + destruct (exec_sound _ sound_parse_artFirst H) as [_ (a & l & _ & ->)]. eauto.
    + destruct (exec_sound _ sound_parse_artLast H) as [_ (l & a & _ & ->)]. eauto.
    + destruct (exec_sound _ sound_parse_srWithArt H) as [_ (l & a & _ & ->)]. eauto.
    + destruct (exec_sound _ sound_format_artFirst H) as [_ (w1 & w2 & ->)]. eauto.
    + destruct (exec_sound _ sound_format_artLast H) as [_ (w1 & w2 & ->)]. eauto.
  - intros H. destruct (exec_sound _ sound_srNumber H) as [_ (w & ->)]. eauto.
Qed.

(** The article reference of a parsed citation is an article token. *)
Lemma parseCitation_article citation parsed a :
  ValidateCitation.parseCitation citation = Some parsed ->
  ValidateCitation.articleRef parsed = Some a ->
  article_token a.
Proof.
  unfold ValidateCitation.parseCitation. intros Hp Ha.
  destruct (exec ValidateCitation.artFirst_re _) as [m|] eqn:E1.
  { injection Hp as <-. injection Ha as <-.
    destruct (exec_sound _ sound_parse_artFirst E1) as [_ (a & l & Tok & ->)].
    exact Tok. }
  destruct (exec ValidateCitation.artLast_re _) as [m|] eqn:E2.
  { injection Hp as <-. injection Ha as <-.
    destruct (exec_sound _ sound_parse_artLast E2) as [_ (l & a & Tok & ->)].
    exact Tok. }
  destruct (exec ValidateCitation.srWithArt_re _) as [m|] eqn:E3.
  { injection Hp as <-. injection Ha as <-.
    destruct (exec_sound _ sound_parse_srWithArt E3) as [_ (l & a & Tok & ->)].
    exact Tok. }
  injection Hp as <-. discriminate.
Qed.

(** ** The matcher: greedy matches that succeed at once *)

Lemma fwd_Seq r1 r2 pos rest cs k v :
  matcher r1 pos rest cs (fun pos' rest' cs' => matcher r2 pos' rest' cs' k) = Some v ->
  matcher (Seq r1 r2) pos rest cs k = Some v.
Proof. exact (fun H => H). Qed.

Lemma fwd_Bol rest cs k v :
  k 0 rest cs = Some v -> matcher Bol 0 rest cs k = Some v.
Proof. exact (fun H => H). Qed.

Lemma fwd_Eol pos cs k v :
  k pos [] cs = Some v -> matcher Eol pos [] cs k = Some v.
Proof. exact (fun H => H). Qed.

Lemma fwd_Class p c pos rest cs k v :
  p c = true -> k (S pos) rest cs = Some v ->
  matcher (Class p) pos (c :: rest) cs k = Some v.
Proof. intros Hc Hk. simpl. now rewrite Hc. Qed.

Lemma fwd_Group i r pos rest cs k v :
  matcher r pos rest cs
    (fun pos' rest' cs' => k pos' rest' ((i, firstn (pos' - pos) rest) :: cs')) = Some v ->
  matcher (Group i r) pos rest cs k = Some v.
Proof. exact (fun H => H). Qed.

Lemma fwd_repeat_class p k v :
  forall w fuel min pos rest' cs,
    Forall (fun c => p c = true) w -> stops p rest' ->
    List.length w < fuel -> min <= List.length w ->
    k (pos + List.length w) rest' cs = Some v ->
    repeatMatcher (matcher (Class p)) true fuel min None pos (w ++ rest') cs k = Some v.
Proof.
  induction w as [|c w IH]; intros fuel min pos rest' cs F St Lf Lm Hk;
    (destruct fuel as [|fuel]; [simpl in Lf; lia|]); cbn [repeatMatcher max_is_zero dec_max].
  - simpl in Lm. assert (min = 0) by lia. subst min.
    simpl in Hk. rewrite Nat.add_0_r in Hk. cbn [Nat.ltb Nat.leb app].
    assert (E : forall d, matcher (Class p) pos rest' cs d = None).
    { intros d. destruct rest' as [|x rest']; simpl; [reflexivity|].
      simpl in St. now rewrite St. }
    rewrite E. exact Hk.
  - inversion F as [|? ? Hc Fw]; subst.
    assert (E : matcher (Class p) pos ((c :: w) ++ rest') cs
                  (fun pos' rest'0 cs' =>
                     if (min =? 0) && (pos' =? pos) then None
                     else repeatMatcher (matcher (Class p)) true fuel (pred min) None
                            pos' rest'0 cs' k) = Some v).
    { cbn [matcher app]. rewrite Hc.
      replace (S pos =? pos) with false by (symmetry; apply Nat.eqb_neq; lia).
      rewrite andb_false_r. apply IH; auto.
      - simpl in Lf. lia.
      - simpl in Lm. lia.
      - simpl in Hk. now rewrite Nat.add_succ_r in Hk. }
    rewrite E. destruct (0 <? min); reflexivity.
Qed.

Lemma fwd_greedy p min w rest' pos cs k v :
  Forall (fun c => p c = true) w -> stops p rest' -> min <= List.length w ->
  k (pos + List.length w) rest' cs = Some v ->
  matcher (Quant min None true (Class p)) pos (w ++ rest') cs k = Some v.
Proof.
  intros F St Lm Hk. cbn [matcher]. apply fwd_repeat_class; auto.
  rewrite length_app. lia.
Qed.

Lemma fwd_greedy_all p min w pos cs k v :
  Forall (fun c => p c = true) w -> min <= List.length w ->
  k (pos + List.length w) [] cs = Some v ->
  matcher (Quant min None true (Class p)) pos w cs k = Some v.
Proof.
  intros F Lm Hk. rewrite <- (app_nil_r w) at 1. apply fwd_greedy; simpl; auto.
Qed.

Lemma fwd_opt_Class p c pos rest cs k v :
  p c = true -> k (S pos) rest cs = Some v ->
  matcher (opt (Class p)) pos (c :: rest) cs k = Some v.
Proof.
  intros Hc Hk. unfold opt.
  cbn [matcher repeatMatcher max_is_zero dec_max Nat.ltb Nat.leb pred List.length Nat.add].
  rewrite Hc.
  replace (S pos =? pos) with false by (symmetry; apply Nat.eqb_neq; lia).
  rewrite andb_false_r, Hk. reflexivity.
Qed.

Lemma fwd_opt_skip r pos rest cs k v :
  (forall d, matcher r pos rest cs d = None) -> k pos rest cs = Some v ->
  matcher (opt r) pos rest cs k = Some v.
Proof.
  intros Hn Hk. unfold opt.
  cbn [matcher repeatMatcher max_is_zero dec_max Nat.ltb Nat.leb].
  rewrite Hn. exact Hk.
Qed.

Lemma firstn_prefix n (w r : jsstring) :
  n = List.length w -> firstn n (w ++ r) = w.
Proof.
  intros ->. rewrite <- (Nat.add_0_r (List.length w)).
  now rewrite firstn_app_2, app_nil_r.
Qed.

Lemma firstn_whole n (w : jsstring) : n = List.length w -> firstn n w = w.
Proof. intros ->. apply firstn_all. Qed.

(** ** format_citation on a normalized citation *)

Lemma fwd_format_article ds ls rest pos cs k v :
  ds <> [] ->
  Forall (fun c => isDigit c = true) ds ->
  Forall (fun c => isLetter c = true) ls ->
  k (pos + List.length ds + List.length ls) (32%N :: rest) cs = Some v ->
  matcher FormatCitation.article pos (ds ++ ls ++ 32%N :: rest) cs k = Some v.
Proof.
  intros Nd Fd Fl Hk. unfold FormatCitation.article. cbn [seqs].
  apply fwd_Seq. unfold plus, digit. apply fwd_greedy; [exact Fd| | |].
  { destruct ls as [|l ls]; simpl; [reflexivity|].
    inversion Fl; subst. now apply letter_not_digit. }
  { destruct ds; [congruence|simpl; lia]. }
  apply fwd_Seq. unfold star, letter_ci. apply fwd_greedy; [exact Fl|reflexivity|lia|].
  apply fwd_opt_skip; [|exact Hk].
  intros d. reflexivity.
Qed.

Lemma fwd_format_artFirst ds ls c t :
  ds <> [] ->
  Forall (fun c => isDigit c = true) ds ->
  Forall (fun c => isLetter c = true) ls ->
  isSpace c = false ->
  no_line_terminator (c :: t) ->
  matcher FormatCitation.artFirst_re 0
    (lit "Art. " ++ (ds ++ ls) ++ lit " " ++ c :: t) [] accept
  = Some [(2, c :: t); (1, ds ++ ls)].
Proof.
  intros Nd Fd Fl Hc Ht.
  rewrite <- app_assoc.
  change (lit "Art. " ++ ds ++ ls ++ lit " " ++ c :: t)
    with (65 :: 114 :: 116 :: 46 :: 32 :: ds ++ ls ++ 32 :: c :: t)%N.
  change FormatCitation.artFirst_re
    with (Seq Bol
         (Seq (Seq (chr_ci 65) (Seq (chr_ci 114) (chr_ci 116)))
         (Seq (opt period)
         (Seq (star space)
         (Seq (Group 1 FormatCitation.article)
         (Seq (plus space)
         (Seq (Group 2 (plus dot)) Eol)))))))%N.
  apply fwd_Seq, fwd_Bol.
  apply fwd_Seq, fwd_Seq, fwd_Class; [reflexivity|].
  apply fwd_Seq, fwd_Class; [reflexivity|].
  apply fwd_Class; [reflexivity|].
  apply fwd_Seq, fwd_opt_Class; [reflexivity|].
  apply fwd_Seq.
  apply (@fwd_greedy isSpace 0 [32%N]); [repeat constructor| |simpl; lia|].
  { destruct ds as [|d ds]; [congruence|]. inversion Fd; subst.
    simpl. now apply digit_not_space. }
  apply fwd_Seq, fwd_Group, fwd_format_article; auto.
  apply fwd_Seq.
  apply (@fwd_greedy isSpace 1 [32%N]); [repeat constructor|exact Hc|simpl; lia|].
  apply fwd_Seq, fwd_Group.
  apply fwd_greedy_all; [|simpl; lia|].
  { eapply Forall_impl; [|exact Ht]. cbv beta. intros a Ha. now rewrite Ha. }
  apply fwd_Eol. unfold accept.
  rewrite (@firstn_whole _ (c :: t)) by lia.
  rewrite app_assoc, (@firstn_prefix _ (ds ++ ls)) by (rewrite length_app; simpl; lia).
  reflexivity.
Qed.

Lemma exec_at_start r s cs :
  matcher r 0 s [] accept = Some cs -> exec r s = Some cs.
Proof.
  intros H. unfold exec. destruct s; simpl; now rewrite H.
Qed.

Lemma trimmed_cons s :
  trimmed s -> s <> [] ->
  exists c t, s = c :: t /\ isSpace c = false /\ dropWhile isSpace (rev s) = rev s.
Proof.
  intros H N. apply trim_fixed in H. destruct H as [H1 H2].
  apply dropWhile_fixed in H1. destruct H1 as [->|(c & t & -> & Hc)]; [congruence|].
  exists c, t. auto.
Qed.

Lemma trim_normalized a c t :
  trimmed (c :: t) ->
  trim (lit "Art. " ++ a ++ lit " " ++ c :: t) = lit "Art. " ++ a ++ lit " " ++ c :: t.
Proof.
  intros H. apply trim_fixed. split.
  - reflexivity.
  - apply trim_fixed in H. destruct H as [_ H].
    apply dropWhile_fixed in H. apply dropWhile_fixed.
    destruct H as [H|(x & s' & E & Hx)].
    + exfalso. apply (f_equal (@List.length _)) in H.
      rewrite length_rev in H. discriminate.
    + right. rewrite !app_assoc, rev_app_distr, E. simpl. eauto.
Qed.

(** [format_citation] gives back a citation "Art. <token> <title>". *)
Lemma format_targeted a title :
  article_token a ->
  title <> [] -> trimmed title -> no_line_terminator title ->
  FormatCitation.formatted
    (FormatCitation.formatCitationTool (full (lit "Art. " ++ a ++ lit " " ++ title)))
  = lit "Art. " ++ a ++ lit " " ++ title.
Proof.
  intros (ds & ls & -> & Nd & Fd & Fl) Nt Tt Lt.
  destruct (trimmed_cons Tt Nt) as (c & t & -> & Hc & _).
  unfold FormatCitation.formatCitationTool, full.
  cbn [FormatCitation.input_citation FormatCitation.input_format FormatCitation.formatted].
  rewrite trim_normalized by exact Tt.
  rewrite (exec_at_start _ _ (fwd_format_artFirst Nd Fd Fl Hc Lt)).
  change (jseqb (lit "full") (lit "short")) with false.
  change (jseqb (lit "full") (lit "pinpoint")) with false.
  cbv iota.
  change (group 1 [(2, c :: t); (1, ds ++ ls)]) with (ds ++ ls).
  change (group 2 [(2, c :: t); (1, ds ++ ls)]) with (c :: t).
  destruct (ds ++ ls) eqn:E; [|reflexivity].
  apply app_eq_nil in E. destruct E; congruence.
Qed.

Lemma format_bare title :
  plain_title title ->
  FormatCitation.formatted (FormatCitation.formatCitationTool (full title)) = title.
Proof.
  intros (Tt & E1 & E2).
  unfold FormatCitation.formatCitationTool, full.
  cbn [FormatCitation.input_citation FormatCitation.input_format FormatCitation.formatted].
  rewrite Tt, E1, E2. reflexivity.
Qed.

(** ** Running the tools against a store *)

Lemma generateResponseMetadata_run db :
  generateResponseMetadata db = (Ok (metadata_of db), db).
Proof.
  unfold generateResponseMetadata, metadata_of, freshness_of, bind, try_catch, get, ret.
  destruct (select_built_at db) as [[v|]|e]; reflexivity.
Qed.

Lemma respond_run (T : Type) (r : T) db :
  respond r db = (Ok {| results := r; _metadata := metadata_of db |}, db).
Proof.
  unfold respond, bind. now rewrite generateResponseMetadata_run.
Qed.

Lemma bind_run (A B : Type) (m : M A) (f : A -> M B) db a db' :
  m db = (Ok a, db') -> bind m f db = f a db'.
Proof. intros H. unfold bind. now rewrite H. Qed.

Lemma find_first_id p db id :
  StatuteId.first_id p db = Ok (Some id) ->
  exists d, In d (Store.legal_documents db) /\ Store.id d = id.
Proof.
  unfold StatuteId.first_id. intros H. injection H as H.
  destruct (find p (Store.legal_documents db)) as [d|] eqn:E; [|discriminate].
  injection H as <-. apply find_some in E. exists d. tauto.
Qed.

(** With [LIKE] as above, a run of the resolver ends with an answer, on the
    store as it was, and an id it answers is that of a row of
    [legal_documents]. *)
Lemma resolveDocumentId_run input db :
  exists answer,
    StatuteId.resolveDocumentId input db = (Ok answer, db) /\
    forall id, answer = Some id ->
      exists d, In d (Store.legal_documents db) /\ Store.id d = id.
Proof.
  unfold StatuteId.resolveDocumentId.
  destruct (trim input) as [|c t]; [exists None; split; [reflexivity|discriminate]|].
  unfold bind, get, ret.
  destruct (StatuteId.select_by_id (c :: t) db) as [[id|]|e] eqn:E1;
    try discriminate.
  { exists (Some id). split; [reflexivity|]. intros ? [= <-]. eapply find_first_id; exact E1. }
  destruct (exec StatuteId.srNumber_re (c :: t)) as [srMatch|].
  - destruct (StatuteId.select_by_sr _ _ db) as [[id|]|e] eqn:E2; try discriminate.
    { exists (Some id). split; [reflexivity|]. intros ? [= <-]. eapply find_first_id; exact E2. }
    destruct (StatuteId.select_by_title _ _ _ db) as [[id|]|e] eqn:E3; try discriminate.
    { exists (Some id). split; [reflexivity|]. intros ? [= <-]. eapply find_first_id; exact E3. }
    destruct (StatuteId.select_by_title_lower _ _ _ db) as [[id|]|e] eqn:E4;
      try discriminate.
    { exists (Some id). split; [reflexivity|]. intros ? [= <-]. eapply find_first_id; exact E4. }
    exists None. split; [reflexivity|discriminate].
  - destruct (StatuteId.select_by_title _ _ _ db) as [[id|]|e] eqn:E3; try discriminate.
    { exists (Some id). split; [reflexivity|]. intros ? [= <-]. eapply find_first_id; exact E3. }
    destruct (StatuteId.select_by_title_lower _ _ _ db) as [[id|]|e] eqn:E4;
      try discriminate.
    { exists (Some id). split; [reflexivity|]. intros ? [= <-]. eapply find_first_id; exact E4. }
    exists None. split; [reflexivity|discriminate].
Qed.

Lemma select_document_found db d :
  In d (Store.legal_documents db) ->
  exists doc, select_document (Store.id d) db = Ok (Some doc) /\
              Store.id doc = Store.id d.
Proof.
  intros Hin. unfold select_document.
  destruct (find (fun d0 => jseqb (Store.id d0) (Store.id d)) (Store.legal_documents db))
    as [doc|] eqn:E.
  - exists doc. split; [reflexivity|]. apply find_some in E. now apply jseqb_eq.
  - exfalso. apply (find_none _ _ E) in Hin. simpl in Hin.
    now rewrite jseqb_refl in Hin.
Qed.

Lemma validate_unresolved db citation parsed docId :
  parseCitation citation = Some parsed ->
  StatuteId.resolveDocumentId (documentRef parsed) db = (Ok docId, db) ->
  truthy docId = false ->
  validateCitationTool (ask citation) db
  = answer (failure citation [document_not_found (documentRef parsed)]) db.
Proof.
  intros Hp Hr Ht. unfold validateCitationTool, ask. cbn [input_citation].
  rewrite Hp. rewrite (@bind_run _ _ _ _ _ _ _ Hr).
  destruct docId as [[|c t]|]; try discriminate; apply respond_run.
Qed.

Lemma validate_resolved db citation parsed docId doc :
  parseCitation citation = Some parsed ->
  StatuteId.resolveDocumentId (documentRef parsed) db = (Ok (Some docId), db) ->
  docId <> [] ->
  select_document docId db = Ok (Some doc) ->
  validateCitationTool (ask citation) db
  = let warnings := status_warnings (Store.status doc) in
    match articleRef parsed with
    | Some ((_ :: _) as articleRef) =>
        match select_provision docId articleRef (lit "art" ++ articleRef) articleRef db with
        | Ok None =>
            answer {| valid := false;
                      citation := citation;
                      normalized := None;
                      document_id := Some docId;
                      document_title := Some (Store.title doc);
                      provision_ref := None;
                      status := None;
                      warnings := warnings ++
                        [provision_not_found articleRef (Store.title doc)] |} db
        | Ok (Some ref) =>
            answer {| valid := true;
                      citation := citation;
                      normalized :=
                        Some (lit "Art. " ++ articleRef ++ lit " " ++ Store.title doc);
                      document_id := Some docId;
                      document_title := Some (Store.title doc);
                      provision_ref := Some ref;
                      status := Some (Store.status doc);
                      warnings := warnings |} db
        | Throw e => (Throw e, db)
        end
    | _ =>
        answer {| valid := true;
                  citation := citation;
                  normalized := Some (Store.title doc);
                  document_id := Some docId;
                  document_title := Some (Store.title doc);
                  provision_ref := None;
                  status := Some (Store.status doc);
                  warnings := warnings |} db
    end.
Proof.
  intros Hp Hr Hn Hd. unfold validateCitationTool, ask. cbn [input_citation].
  rewrite Hp. rewrite (@bind_run _ _ _ _ _ _ _ Hr).
  destruct docId as [|c t]; [congruence|].
  unfold bind at 1. unfold get at 1. rewrite Hd. cbv zeta.
  destruct (articleRef parsed) as [[|a0 a]|]; try apply respond_run.
  unfold bind at 1. unfold get at 1.
  destruct (select_provision _ _ _ _ db) as [[ref|]|e]; try apply respond_run.
  reflexivity.
Qed.

(** * The specified behaviour of the tools *)

(** ** The parser on the documented forms *)

(** C3. The parser maps the three documented surface syntaxes to the
    documented pairs: "Art. 6 DSG" and "DSG, Art. 6" both give document
    reference "DSG" with article reference "6", and "SR 235.1 Art. 6" gives
    document reference "SR 235.1" with article reference "6". *)
Theorem parse_documented_forms :
  parseCitation (lit "Art. 6 DSG")
    = Some {| documentRef := lit "DSG"; articleRef := Some (lit "6") |} /\
  parseCitation (lit "DSG, Art. 6")
    = Some {| documentRef := lit "DSG"; articleRef := Some (lit "6") |} /\
  parseCitation (lit "SR 235.1 Art. 6")
    = Some {| documentRef := lit "SR 235.1"; articleRef := Some (lit "6") |}.
Proof. repeat split; vm_compute; reflexivity. Qed.

(** ** The parser rejects nothing *)

Lemma parseCitation_total citation :
  exists parsed, parseCitation citation = Some parsed.
Proof.
  unfold parseCitation.
  destruct (exec artFirst_re (trim citation)); [eauto|].
  destruct (exec artLast_re (trim citation)); [eauto|].
  destruct (exec srWithArt_re (trim citation)); eauto.
Qed.

Lemma head_differs (a b : jsstring) : hd 0%N a <> hd 0%N b -> a <> b.
Proof. intros H E. apply H. now rewrite E. Qed.

Lemma status_warnings_not_parse status :
  ~ In COULD_NOT_PARSE (status_warnings status).
Proof.
  unfold status_warnings.
  destruct (jseqb status (lit "repealed")); [|destruct (jseqb status (lit "amended"))];
    simpl; intros H; try tauto;
    destruct H as [H|[]]; revert H; apply head_differs; vm_compute; discriminate.
Qed.

(** C1.  The parser has no Unparseable answer: its last statement returns
    the trimmed input as a bare document reference whatever that input is.  A
    citation of three blanks, empty after trimming, is therefore not rejected
    but read as the empty document reference without an article, and
    [validate_citation] answers valid=false with the one warning
    'Document not found: ' followed by two double quotes, not "Could not parse
    citation format".  That warning, which the source keeps for an Unparseable
    answer, is in no result that [validate_citation] returns. *)
Theorem blank_citation_is_not_rejected :
  trim (lit "   ") = [] /\
  parseCitation (lit "   ") = Some {| documentRef := []; articleRef := None |} /\
  (forall db,
     validateCitationTool (ask (lit "   ")) db
     = answer {| valid := false;
                 citation := lit "   ";
                 normalized := None;
                 document_id := None;
                 document_title := None;
                 provision_ref := None;
                 status := None;
                 warnings := [lit "Document not found: " ++ [34%N; 34%N]] |} db) /\
  lit "Document not found: " ++ [34%N; 34%N] <> lit "Could not parse citation format" /\
  (forall citation, parseCitation citation <> None) /\
  (forall citation db out db',
     validateCitationTool (ask citation) db = (Ok out, db') ->
     ~ In (lit "Could not parse citation format") (warnings (results out))).
Proof.
  split; [vm_compute; reflexivity|].
  split; [vm_compute; reflexivity|].
  split.
  { intros db.
    apply (@validate_unresolved db (lit "   ")
             {| documentRef := []; articleRef := None |} None);
      vm_compute; reflexivity. }
  split; [vm_compute; discriminate|].
  split.
  { intros citation. destruct (parseCitation_total citation) as (parsed & ->).
    discriminate. }
  intros citation db out db' Hr.
  change (lit "Could not parse citation format") with COULD_NOT_PARSE.
  destruct (parseCitation_total citation) as (parsed & Hp).
  destruct (resolveDocumentId_run (documentRef parsed) db) as (o & Ho & Hin).
  destruct (truthy o) eqn:Ht.
  - destruct o as [[|c t]|]; try discriminate.
    destruct (Hin _ eq_refl) as (d & Hd & Hid).
    destruct (select_document_found db d Hd) as (doc & Hs & _). rewrite Hid in Hs.
    erewrite validate_resolved in Hr; [|exact Hp|exact Ho|discriminate|exact Hs].
    cbv zeta in Hr.
    assert (NP : forall a title, provision_not_found a title <> COULD_NOT_PARSE).
    { intros a title. apply head_differs. vm_compute. discriminate. }
    destruct (articleRef parsed) as [[|a0 a]|];
      try (injection Hr as <- _; apply status_warnings_not_parse).
    unfold select_provision in Hr.
    destruct (option_map _ _); injection Hr as <- _; cbn [warnings results].
    + apply status_warnings_not_parse.
    + intros H. apply in_app_or in H. destruct H as [H|[H|[]]].
      * now apply status_warnings_not_parse in H.
      * now apply NP in H.
  - erewrite validate_unresolved in Hr; [|exact Hp|exact Ho|exact Ht].
    injection Hr as <- _.
    cbn [warnings failure results]. intros [H|[]]. revert H.
    apply head_differs. vm_compute. discriminate.
Qed.

(** ** Resolving the id of a document *)

Lemma dropWhile_stops p (s : jsstring) : stops p s -> dropWhile p s = s.
Proof. destruct s as [|c s]; [reflexivity|]. cbn. now intros ->. Qed.

Lemma ingested_id_trimmed id : ingested_id id -> id <> [] /\ trimmed id.
Proof.
  intros (n & Hn & ->). unfold Census.srNumberToId. split; [discriminate|].
  unfold trimmed, trim, trimStart, trimEnd.
  rewrite (@dropWhile_stops isSpace (lit "sr-" ++ StatuteId.dots_to_dashes n))
    by exact eq_refl.
  rewrite dropWhile_stops; [apply rev_involutive|].
  rewrite rev_app_distr.
  assert (F : Forall (fun c => isSpace c = false) (StatuteId.dots_to_dashes n)).
  { unfold StatuteId.dots_to_dashes. induction Hn as [|c n Hc Hn IH]; cbn [map].
    - constructor.
    - constructor; [|exact IH]. destruct (N.eqb c 46); [reflexivity|exact Hc]. }
  destruct (rev (StatuteId.dots_to_dashes n)) as [|c r] eqn:E; [reflexivity|].
  cbn [app stops]. apply (proj1 (Forall_forall _ _) F).
  apply in_rev. rewrite E. left. reflexivity.
Qed.

Lemma resolve_by_id db d :
  In d (Store.legal_documents db) ->
  Store.id d <> [] -> trimmed (Store.id d) ->
  StatuteId.resolveDocumentId (Store.id d) db = (Ok (Some (Store.id d)), db).
Proof.
  intros Hin Hne Ht. unfold StatuteId.resolveDocumentId. rewrite Ht.
  destruct (Store.id d) as [|c t] eqn:E; [congruence|].
  unfold bind at 1. unfold get at 1.
  unfold StatuteId.select_by_id, StatuteId.first_id.
  destruct (find (fun d0 => jseqb (Store.id d0) (c :: t)) (Store.legal_documents db))
    as [d'|] eqn:F.
  - apply find_some in F. destruct F as [_ F]. apply jseqb_eq in F.
    cbn [option_map]. now rewrite F.
  - exfalso. apply (find_none _ _ F) in Hin. cbv beta in Hin.
    now rewrite E, jseqb_refl in Hin.
Qed.

(** C5. For every document D of the store, resolve(D.id) returns D.id: the
    exact match on the canonical id is tried first and wins.  The documents of
    the store are those the ingestion writes, whose id is "sr-" followed by
    the SR number with a dash for each period. *)
Theorem resolve_own_id db d :
  In d (Store.legal_documents db) ->
  ingested_id (Store.id d) ->
  StatuteId.resolveDocumentId (Store.id d) db = (Ok (Some (Store.id d)), db).
Proof.
  intros Hin Hid. destruct (ingested_id_trimmed Hid) as [Hne Ht].
  now apply resolve_by_id.
Qed.

Lemma resolve_own_id_dsg :
  In Sample.dsg (Store.legal_documents Sample.db) /\
  ingested_id (Store.id Sample.dsg) /\
  StatuteId.resolveDocumentId (lit "sr-235-1") Sample.db
  = (Ok (Some (lit "sr-235-1")), Sample.db).
Proof.
  assert (Hin : In Sample.dsg (Store.legal_documents Sample.db))
    by (left; reflexivity).
  assert (Hid : ingested_id (Store.id Sample.dsg)).
  { exists (lit "235.1"). split; [repeat constructor|reflexivity]. }
  split; [exact Hin|]. split; [exact Hid|].
  exact (@resolve_own_id Sample.db Sample.dsg Hin Hid).
Defined.

(** ** Response metadata *)

(** C8. When the read of the build time fails (the table [db_metadata] is
    missing, the statement throws), [generateResponseMetadata] still returns
    the metadata block, with data source, jurisdiction and disclaimer filled
    in and without [freshness]; the failure does not reach the caller. *)
Theorem metadata_read_failure_swallowed db e :
  select_built_at db = Throw e ->
  generateResponseMetadata db
  = (Ok {| data_source := DATA_SOURCE;
           jurisdiction := lit "CH";
           disclaimer := DISCLAIMER;
           freshness := None |}, db)
  /\ DATA_SOURCE <> [] /\ DISCLAIMER <> [].
Proof.
  intros H. split; [|split; vm_compute; discriminate].
  rewrite generateResponseMetadata_run. unfold metadata_of, freshness_of.
  now rewrite H.
Qed.

Lemma metadata_without_table :
  generateResponseMetadata Sample.db
  = (Ok {| data_source := DATA_SOURCE;
           jurisdiction := lit "CH";
           disclaimer := DISCLAIMER;
           freshness := None |}, Sample.db).
Proof.
  apply (@metadata_read_failure_swallowed Sample.db
           (JsError (lit "no such table: db_metadata"))).
  reflexivity.
Defined.

(** ** The citation is echoed *)

(** C10. Every result that [validate_citation] returns (valid, document not
    found or provision not found) carries in [citation] the input string
    itself, neither trimmed nor changed; the list of warnings is a field of
    every result. *)
Theorem validate_echoes_citation db citation out db' :
  validateCitationTool (ask citation) db = (Ok out, db') ->
  ValidateCitation.citation (results out) = citation.
Proof.
  intros Hv.
  destruct (parseCitation_total citation) as (parsed & Hp).
  destruct (resolveDocumentId_run (documentRef parsed) db) as (o & Ho & Hin).
  destruct (truthy o) eqn:Ht.
  - destruct o as [[|c t]|]; try discriminate.
    destruct (Hin _ eq_refl) as (d & Hd & Hid).
    destruct (select_document_found db d Hd) as (doc & Hs & _). rewrite Hid in Hs.
    erewrite validate_resolved in Hv; [|exact Hp|exact Ho|discriminate|exact Hs].
    cbv zeta in Hv.
    destruct (articleRef parsed) as [[|a0 a]|];
      try (injection Hv as <- _; reflexivity).
    unfold select_provision in Hv.
    destruct (option_map _ _); injection Hv as <- _; reflexivity.
  - erewrite validate_unresolved in Hv; [|exact Hp|exact Ho|exact Ht].
    injection Hv as <- _. reflexivity.
Qed.

Lemma padded_citation_is_echoed :
  exists out,
    validateCitationTool (ask (lit "  Art. 6 DSG ")) Sample.db = (Ok out, Sample.db) /\
    ValidateCitation.citation (results out) = lit "  Art. 6 DSG ".
Proof.
  destruct (validateCitationTool (ask (lit "  Art. 6 DSG ")) Sample.db)
    as [[out|e] db'] eqn:E; [|vm_compute in E; discriminate E].
  assert (D : db' = Sample.db) by (vm_compute in E; now injection E as _ <-).
  subst db'. exists out. split; [reflexivity|].
  exact (@validate_echoes_citation Sample.db (lit "  Art. 6 DSG ") out Sample.db E).
Defined.


Lemma article_token_nonempty a : article_token a -> a <> [].
Proof.
  intros (ds & ls & -> & N & _) E. apply app_eq_nil in E. tauto.
Qed.

Lemma col_eq s v : Store.col (fun x => jseqb x s) v = true <-> v = Some s.
Proof.
  destruct v as [x|]; simpl.
  - rewrite jseqb_eq. split; [now intros ->|now intros [= ->]].
  - split; discriminate.
Qed.

(** The WHERE clause of the provision lookup. *)
Lemma select_provision_test docId articleRef p :
  jseqb (Store.document_id p) docId
  && (jseqb (Store.provision_ref p) articleRef
      || jseqb (Store.provision_ref p) (lit "art" ++ articleRef)
      || Store.col (fun s => jseqb s articleRef) (Store.section p)) = true
  <-> matching_provision docId articleRef p.
Proof.
  unfold matching_provision.
  rewrite andb_true_iff, !orb_true_iff, !jseqb_eq, col_eq. tauto.
Qed.



(** ** Provision not found *)



(** ** Warnings on the status *)



(** ** Formatting a normalized citation *)

(** The normalized string of a valid result, by cases. *)
Lemma normalized_cases db citation r s :
  validateCitationTool (ask citation) db = answer r db ->
  normalized r = Some s ->
  exists title,
    document_title r = Some title /\
    ((provision_ref r = None /\ s = title) \/
     (provision_ref r <> None /\
      exists a, article_token a /\ s = lit "Art. " ++ a ++ lit " " ++ title)).
Proof.
  intros Hv Hn.
  destruct (parseCitation_total citation) as (parsed & Hp).
  destruct (resolveDocumentId_run (documentRef parsed) db) as (o & Ho & Hin).
  destruct (truthy o) eqn:Ht.
  - destruct o as [[|c t]|]; try discriminate.
    destruct (Hin _ eq_refl) as (d & Hd & Hid).
    destruct (select_document_found db d Hd) as (doc & Hs & _). rewrite Hid in Hs.
    erewrite validate_resolved in Hv; [|exact Hp|exact Ho|discriminate|exact Hs].
    cbv zeta in Hv.
    destruct (articleRef parsed) as [article|] eqn:Ha.
    + pose proof (parseCitation_article _ Hp Ha) as Tok.
      destruct article as [|a0 a].
      * injection Hv as <-. injection Hn as <-. eexists. split; [reflexivity|].
        left. split; reflexivity.
      * unfold select_provision in Hv.
        destruct (option_map _ _) as [ref|]; injection Hv as <-; [|discriminate].
        injection Hn as <-. eexists. split; [reflexivity|]. right.
        split; [discriminate|]. exists (a0 :: a). split; [exact Tok|reflexivity].
    + injection Hv as <-. injection Hn as <-. eexists. split; [reflexivity|].
      left. split; reflexivity.
  - erewrite validate_unresolved in Hv; [|exact Hp|exact Ho|exact Ht].
    injection Hv as <-. discriminate.
Qed.

(** C4 (as stated, refuted): the bare title "Verordnung zu Art. 5", which
    [validate_citation] returns as [normalized] for a citation by id, is read
    by [format_citation] as a law-first citation and comes back as
    "Art. 5 Verordnung zu". *)
Lemma citation_shaped_title_is_rewritten :
  validateCitationTool (ask (lit "sr-172-010-1")) Sample.db
    = answer {| valid := true;
                citation := lit "sr-172-010-1";
                normalized := Some (lit "Verordnung zu Art. 5");
                document_id := Some (lit "sr-172-010-1");
                document_title := Some (lit "Verordnung zu Art. 5");
                provision_ref := None;
                status := Some (lit "repealed");
                warnings := [REPEALED_WARNING] |} Sample.db /\
  FormatCitation.formatted
    (FormatCitation.formatCitationTool (full (lit "Verordnung zu Art. 5")))
    = lit "Art. 5 Verordnung zu" /\
  lit "Art. 5 Verordnung zu" <> lit "Verordnung zu Art. 5".
Proof.
  split; [vm_compute; reflexivity|]. split; [vm_compute; reflexivity|].
  vm_compute. discriminate.
Qed.

(** C4 (amended). Let s be the [normalized] field of a result of
    [validate_citation].  If a provision was targeted and the document title
    is not empty, has no white space at either end and holds no line
    terminator, or if no provision was targeted and the title has no white
    space at either end and is not itself of the article-first or law-first
    citation form, then format_citation(s, "full") returns s as its formatted
    string. *)
Theorem format_reproduces_normalized db citation r s title :
  validateCitationTool (ask citation) db = answer r db ->
  normalized r = Some s ->
  document_title r = Some title ->
  (provision_ref r <> None ->
     title <> [] /\ trimmed title /\ no_line_terminator title) ->
  (provision_ref r = None -> plain_title title) ->
  FormatCitation.formatted (FormatCitation.formatCitationTool (full s)) = s.
Proof.
  intros Hv Hn Ht Htarget Hbare.
  destruct (normalized_cases _ Hv Hn) as (title' & Ht' & Hc).
  rewrite Ht in Ht'. injection Ht' as <-.
  destruct Hc as [[Hp ->]|(Hp & a & Tok & ->)].
  - apply format_bare. auto.
  - destruct (Htarget Hp) as (N & T & L). now apply format_targeted.
Qed.

Lemma format_reproduces_art6_dsg :
  FormatCitation.formatted
    (FormatCitation.formatCitationTool (full (lit "Art. 6 Datenschutzgesetz")))
  = lit "Art. 6 Datenschutzgesetz".
Proof.
  apply (@format_reproduces_normalized Sample.db (lit "Art. 6 DSG")
           {| valid := true;
              citation := lit "Art. 6 DSG";
              normalized := Some (lit "Art. 6 Datenschutzgesetz");
              document_id := Some (lit "sr-235-1");
              document_title := Some (lit "Datenschutzgesetz");
              provision_ref := Some (lit "art6");
              status := Some (lit "amended");
              warnings := [AMENDED_WARNING] |}
           (lit "Art. 6 Datenschutzgesetz") (lit "Datenschutzgesetz")).
  - vm_compute. reflexivity.
  - reflexivity.
  - reflexivity.
  - intros _. split; [vm_compute; discriminate|].
    split; [vm_compute; reflexivity|].
    unfold no_line_terminator. repeat constructor.
  - intros H. discriminate H.
Defined.

(** ** The request handler *)

Lemma switch_cases n t :
  Registry.switch n = Some t ->
  In (n, t) (map (fun c => (lit (fst c), snd c)) Registry.cases).
Proof.
  unfold Registry.switch. intros H.
  destruct (find _ Registry.cases) as [[k t']|] eqn:F; [|discriminate].
  apply find_some in F. destruct F as [Hin Heq]. apply jseqb_eq in Heq.
  cbn in H, Heq. injection H as <-. subst n.
  apply in_map_iff. exists (k, t'). split; [reflexivity|exact Hin].
Qed.

Lemma switch_none n :
  Registry.switch n = None ->
  ~ In n (map (fun c => lit (fst c)) Registry.cases).
Proof.
  unfold Registry.switch. intros H Hin.
  destruct (find _ Registry.cases) as [c|] eqn:F; [discriminate|].
  apply in_map_iff in Hin. destruct Hin as (c & <- & Hc).
  apply (find_none _ _ F) in Hc. now rewrite jseqb_refl in Hc.
Qed.

Section CallTool.

Import Registry.

Variables (raw result context : Type).
Variable handler : external_tool -> raw -> M result.
Variable getAbout : context -> M result.

Let callTool := callTool handler getAbout.
Let call := call handler getAbout.

Lemma callTool_of_call ctx (req : request raw) db :
  callTool ctx req db
  = match call ctx req db with
    | (Ok resp, db') => (Ok resp, db')
    | (Throw e, db') => (Ok (error_response result (lit "Error: " ++ message e)), db')
    end.
Proof. reflexivity. Qed.

Lemma caught e (db' : Store.database) :
  exists resp : response result,
    (Ok (error_response result (lit "Error: " ++ message e)), db') = (Ok resp, db') /\
    isError resp = true /\
    response_content resp
    = Text result (lit "Error: " ++ match e with JsError m => m | JsValue t => t end).
Proof. eexists. split; [reflexivity|]. destruct e; split; reflexivity. Qed.

(** C7. The handler of tool calls answers every request with a response
    and throws nothing.  A request whose name is none of the thirteen labels
    of the [switch] gets the response flagged isError whose text is
    'Error: Unknown tool "<name>".'; and whatever is thrown while the tool
    runs, by a handler of a tool in particular, is caught and becomes the
    response flagged isError whose text is "Error: " followed by the message
    of the error, or by the thrown value as a string. *)
Theorem callTool_never_throws ctx (req : request raw) db :
  (exists resp db', callTool ctx req db = (Ok resp, db')) /\
  (~ In (name req)
        (map lit ["search_legislation"; "get_provision"; "validate_citation";
                  "build_legal_stance"; "format_citation"; "check_currency";
                  "get_eu_basis"; "get_swiss_implementations";
                  "search_eu_implementations"; "get_provision_eu_basis";
                  "validate_eu_compliance"; "list_sources"; "about"]%string) ->
   exists resp,
     callTool ctx req db = (Ok resp, db) /\
     isError resp = true /\
     response_content resp
     = Text result (lit "Error: Unknown tool " ++ [34%N] ++ name req ++ [34%N] ++ lit ".")) /\
  (forall e db',
     call ctx req db = (Throw e, db') ->
     exists resp,
       callTool ctx req db = (Ok resp, db') /\
       isError resp = true /\
       response_content resp
       = Text result (lit "Error: " ++ match e with JsError m => m | JsValue t => t end)) /\
  (forall t e db',
     switch (name req) = Some (external t) ->
     handler t (raw_args req) db = (Throw e, db') ->
     exists resp,
       callTool ctx req db = (Ok resp, db') /\
       isError resp = true /\
       response_content resp
       = Text result (lit "Error: " ++ match e with JsError m => m | JsValue t => t end)).
Proof.
  rewrite callTool_of_call. repeat split.
  - destruct (call ctx req db) as [[resp|e] db']; eauto.
  - intros H.
    assert (Hs : switch (name req) = None).
    { destruct (switch (name req)) as [t|] eqn:E; [|reflexivity].
      apply switch_cases in E. apply (in_map fst) in E.
      rewrite map_map in E. cbn [fst] in E. contradiction. }
    unfold call, Registry.call. rewrite Hs.
    eexists. split; [reflexivity|]. split; reflexivity.
  - intros e db' H. rewrite H. apply caught.
  - intros t e db' Hs Hh. unfold call, Registry.call. rewrite Hs.
    unfold bind. rewrite Hh. apply caught.
Qed.

End CallTool.

Lemma unknown_and_failing_calls_answered :
  (exists resp,
     SampleCalls.run SampleCalls.unknown Sample.db = (Ok resp, Sample.db) /\
     Registry.isError resp = true /\
     Registry.response_content resp
     = Registry.Text unit
         (lit "Error: Unknown tool " ++ [34%N] ++ lit "delete_everything" ++ [34%N]
          ++ lit ".")) /\
  (exists resp,
     SampleCalls.run SampleCalls.search Sample.db = (Ok resp, Sample.db) /\
     Registry.isError resp = true /\
     Registry.response_content resp
     = Registry.Text unit (lit "Error: " ++ lit "no such table: provisions_fts")).
Proof.
  destruct (@callTool_never_throws unit unit unit SampleCalls.failing
              SampleCalls.about_nothing None SampleCalls.unknown Sample.db)
    as (_ & U & _ & _).
  destruct (@callTool_never_throws unit unit unit SampleCalls.failing
              SampleCalls.about_nothing None SampleCalls.search Sample.db)
    as (_ & _ & _ & F).
  split.
  - apply U. cbn [map SampleCalls.unknown Registry.name In]. intros H.
    repeat (destruct H as [H|H]; [discriminate H|]). exact H.
  - apply (F Registry.search_legislation
             (JsError (lit "no such table: provisions_fts")) Sample.db);
      reflexivity.
Defined.

(** * Further properties of the code *)

(** ** Strings *)

Lemma dropWhile_idempotent p s : dropWhile p (dropWhile p s) = dropWhile p s.
Proof.
  induction s as [|c s IH]; simpl; [reflexivity|].
  destruct (p c) eqn:E; [exact IH|]. simpl. now rewrite E.
Qed.

Lemma dropWhile_suffix p s : exists pre, s = pre ++ dropWhile p s.
Proof.
  induction s as [|c s [pre IH]]; simpl; [now exists []|].
  destruct (p c).
  - exists (c :: pre). simpl. now rewrite <- IH.
  - now exists [].
Qed.

Lemma trim_idempotent s : trim (trim s) = trim s.
Proof.
  apply trim_fixed. unfold trim, trimEnd, trimStart. split.
  - apply dropWhile_fixed.
    destruct (dropWhile_suffix isSpace (rev (dropWhile isSpace s))) as [pre E].
    set (u := dropWhile isSpace s) in *.
    set (v := dropWhile isSpace (rev u)) in *.
    destruct (rev v) as [|c t] eqn:Ev; [now left|]. right. exists c, t. split; auto.
    apply (f_equal (@rev _)) in E. rewrite rev_involutive, rev_app_distr, Ev in E.
    assert (F : dropWhile isSpace u = u) by apply dropWhile_idempotent.
    apply dropWhile_fixed in F. destruct F as [F|(c' & t' & F & Hc)].
    + rewrite F in E. discriminate.
    + rewrite F in E. simpl in E. injection E as <- _. exact Hc.
  - rewrite rev_involutive. apply dropWhile_idempotent.
Qed.

(** ** Response metadata: the freshness field *)

(** X1. With the table [db_metadata] in place, [generateResponseMetadata]
    reports as [freshness] the value of the first row whose key is
    "built_at", and no [freshness] when there is no such row; the other three
    fields are the same constants in both cases. *)
Theorem metadata_freshness_is_first_built_at db rows :
  Store.db_metadata db = Some rows ->
  exists md,
    generateResponseMetadata db = (Ok md, db) /\
    data_source md = DATA_SOURCE /\ jurisdiction md = lit "CH" /\
    disclaimer md = DISCLAIMER /\
    (forall value,
       freshness md = Some value <->
       exists before after,
         rows = before ++ (lit "built_at", value) :: after /\
         forall row, In row before -> fst row <> lit "built_at") /\
    (freshness md = None <-> forall row, In row rows -> fst row <> lit "built_at").
Proof.
  intros Hrows. exists (metadata_of db).
  split; [apply generateResponseMetadata_run|]. repeat (split; [reflexivity|]).
  unfold metadata_of, freshness_of, select_built_at. cbn [freshness].
  rewrite Hrows. clear Hrows.
  induction rows as [|[k v] rows [IHs IHn]]; cbn [find option_map fst snd].
  - split.
    + intros value. split; [discriminate|].
      intros (before & after & E & _). now destruct before.
    + split; [intros _ row []|reflexivity].
  - destruct (jseqb k (lit "built_at")) eqn:Ek.
    + apply jseqb_eq in Ek. subst k. cbn [option_map snd]. split.
      * intros value. split.
        -- intros [= <-]. exists [], rows. split; [reflexivity|intros row []].
        -- intros (before & after & E & Hb). destruct before as [|b before].
           ++ simpl in E. now inversion E.
           ++ simpl in E. inversion E; subst. exfalso.
              apply (Hb _ (or_introl eq_refl)). reflexivity.
      * split; [discriminate|].
        intros H. exfalso. apply (H _ (or_introl eq_refl)). reflexivity.
    + assert (Nk : k <> lit "built_at").
      { intros E. apply jseqb_eq in E. congruence. }
      split.
      * intros value. rewrite (IHs value). split.
        -- intros (before & after & -> & Hb). exists ((k, v) :: before), after.
           split; [reflexivity|]. intros row [<-|Hr]; [exact Nk|now apply Hb].
        -- intros (before & after & E & Hb). destruct before as [|b before].
           ++ simpl in E. inversion E; subst. congruence.
           ++ simpl in E. inversion E; subst. exists before, after.
              split; [reflexivity|]. intros row Hr. apply Hb. now right.
      * rewrite IHn. split.
        -- intros H row [<-|Hr]; [exact Nk|now apply H].
        -- intros H row Hr. apply H. now right.
Qed.

Lemma metadata_freshness_sample :
  exists md,
    generateResponseMetadata Sample.padded_db = (Ok md, Sample.padded_db) /\
    freshness md = Some (lit "2026-02-22T00:00:00Z").
Proof.
  destruct (@metadata_freshness_is_first_built_at Sample.padded_db
              [(lit "built_at", lit "2026-02-22T00:00:00Z")] eq_refl)
    as (md & Hrun & _ & _ & _ & Hs & _).
  exists md. split; [exact Hrun|].
  apply Hs. exists [], []. split; [reflexivity|intros row []].
Defined.

(** ** The shapes of a validation result *)

(** The cases of a run of [validate_citation], by what the resolver and the
    provision lookup answer. *)
Lemma validate_cases db citation :
  exists parsed,
    parseCitation citation = Some parsed /\
    ((exists docId,
        StatuteId.resolveDocumentId (documentRef parsed) db = (Ok docId, db) /\
        truthy docId = false /\
        validateCitationTool (ask citation) db
        = answer (failure citation [document_not_found (documentRef parsed)]) db)
     \/
     (exists docId doc,
        resolves_to db (documentRef parsed) docId /\
        In doc (Store.legal_documents db) /\ Store.id doc = docId /\
        select_document docId db = Ok (Some doc) /\
        ((truthy (articleRef parsed) = false /\
          validateCitationTool (ask citation) db
          = answer {| valid := true;
                      citation := citation;
                      normalized := Some (Store.title doc);
                      document_id := Some docId;
                      document_title := Some (Store.title doc);
                      provision_ref := None;
                      status := Some (Store.status doc);
                      warnings := status_warnings (Store.status doc) |} db)
         \/
         (exists a,
            articleRef parsed = Some a /\ a <> [] /\
            ((select_provision docId a (lit "art" ++ a) a db = Ok None /\
              validateCitationTool (ask citation) db
              = answer {| valid := false;
                          citation := citation;
                          normalized := None;
                          document_id := Some docId;
                          document_title := Some (Store.title doc);
                          provision_ref := None;
                          status := None;
                          warnings := status_warnings (Store.status doc) ++
                                      [provision_not_found a (Store.title doc)] |} db)
             \/
             (exists ref,
                select_provision docId a (lit "art" ++ a) a db = Ok (Some ref) /\
                validateCitationTool (ask citation) db
                = answer {| valid := true;
                            citation := citation;
                            normalized :=
                              Some (lit "Art. " ++ a ++ lit " " ++ Store.title doc);
                            document_id := Some docId;
                            document_title := Some (Store.title doc);
                            provision_ref := Some ref;
                            status := Some (Store.status doc);
                            warnings := status_warnings (Store.status doc) |} db)))))).
Proof.
  destruct (parseCitation_total citation) as (parsed & Hp).
  exists parsed. split; [exact Hp|].
  destruct (resolveDocumentId_run (documentRef parsed) db) as (o & Ho & Hin).
  destruct (truthy o) eqn:Ht.
  2:{ left. exists o. split; [exact Ho|]. split; [exact Ht|].
      eapply validate_unresolved; eauto. }
  right. destruct o as [[|c t]|]; try discriminate.
  destruct (Hin _ eq_refl) as (d & Hd & Hid).
  destruct (select_document_found db d Hd) as (doc & Hs & Hdoc). rewrite Hid in Hs.
  assert (Hdin : In doc (Store.legal_documents db)).
  { unfold select_document in Hs. injection Hs as Hs. now apply find_some in Hs. }
  exists (c :: t), doc. split; [split; [exact Ho|discriminate]|].
  split; [exact Hdin|]. split; [congruence|]. split; [exact Hs|].
  erewrite validate_resolved; [|exact Hp|exact Ho|discriminate|exact Hs].
  cbv zeta.
  destruct (articleRef parsed) as [[|a0 a]|] eqn:Ha.
  - left. split; reflexivity.
  - right. exists (a0 :: a). split; [reflexivity|]. split; [discriminate|].
    destruct (select_provision (c :: t) (a0 :: a) (lit "art" ++ a0 :: a) (a0 :: a) db)
      as [[ref|]|e] eqn:Ep.
    + right. exists ref. split; reflexivity.
    + left. split; reflexivity.
    + discriminate Ep.
  - left. split; reflexivity.
Qed.

Lemma status_warnings_length st : List.length (status_warnings st) <= 1.
Proof.
  unfold status_warnings.
  destruct (jseqb st (lit "repealed")); [simpl; lia|].
  destruct (jseqb st (lit "amended")); simpl; lia.
Qed.

(** X2. A result with valid=true names a document of the store by id, title
    and status, carries a normalized citation, and its warnings are only those
    on the status of that document; a result with valid=false has neither a
    normalized citation nor a status nor a provision reference, and carries at
    least one warning that says why. *)
Theorem validation_result_shapes db citation r :
  validateCitationTool (ask citation) db = answer r db ->
  (valid r = true ->
     exists doc,
       In doc (Store.legal_documents db) /\
       document_id r = Some (Store.id doc) /\ Store.id doc <> [] /\
       document_title r = Some (Store.title doc) /\
       status r = Some (Store.status doc) /\
       normalized r <> None /\
       warnings r = status_warnings (Store.status doc)) /\
  (valid r = false ->
     normalized r = None /\ status r = None /\ provision_ref r = None /\
     warnings r <> [] /\
     (document_id r = None <-> document_title r = None)).
Proof.
  intros Hv.
  destruct (validate_cases db citation) as (parsed & Hp & Hc).
  destruct Hc as [(docId & _ & _ & E)
                 |(docId & doc & [_ Hne] & Hin & Hid & _ & Hc)].
  - rewrite E in Hv. injection Hv as <-. split; [discriminate|]. intros _.
    cbn. repeat split; auto; discriminate.
  - subst docId.
    destruct Hc as [[_ E]|(a & _ & _ & [[_ E]|(ref & _ & E)])];
      rewrite E in Hv; injection Hv as <-; cbn.
    + split; [|discriminate]. intros _. exists doc. repeat split; auto; discriminate.
    + split; [discriminate|]. intros _. repeat split; try discriminate.
      intros H. apply (f_equal (@List.length _)) in H.
      rewrite length_app in H. simpl in H. lia.
    + split; [|discriminate]. intros _. exists doc. repeat split; auto; discriminate.
Qed.

(** X3. The provision reference of a result is the stored reference of a
    provision of the resolved document that answers to the parsed article
    reference: as it stands, with "art" before it, or as its section label. *)
Theorem provision_ref_is_stored db citation r ref :
  validateCitationTool (ask citation) db = answer r db ->
  provision_ref r = Some ref ->
  exists parsed a docId p,
    parseCitation citation = Some parsed /\ articleRef parsed = Some a /\
    document_id r = Some docId /\
    In p (Store.legal_provisions db) /\
    matching_provision docId a p /\ Store.provision_ref p = ref.
Proof.
  intros Hv Hr.
  destruct (validate_cases db citation) as (parsed & Hp & Hc).
  destruct Hc as [(docId & _ & _ & E)
                 |(docId & doc & _ & _ & _ & _ & Hc)].
  { rewrite E in Hv. injection Hv as <-. discriminate. }
  destruct Hc as [[_ E]|(a & Ha & _ & [[_ E]|(ref' & Hsel & E)])];
    rewrite E in Hv; injection Hv as <-; cbn in Hr; try discriminate.
  injection Hr as ->. exists parsed, a, docId.
  unfold select_provision in Hsel. injection Hsel as Hsel.
  destruct (find _ (Store.legal_provisions db)) as [p|] eqn:F; [|discriminate].
  injection Hsel as <-. apply find_some in F. destruct F as [Hin Ht].
  apply select_provision_test in Ht.
  exists p. repeat split; auto; apply Ht.
Qed.

Lemma provision_ref_is_stored_sample :
  exists parsed a docId p,
    parseCitation (lit "Art. 6 DSG") = Some parsed /\ articleRef parsed = Some a /\
    Some (lit "sr-235-1") = Some docId /\
    In p (Store.legal_provisions Sample.db) /\
    matching_provision docId a p /\ Store.provision_ref p = lit "art6".
Proof.
  apply (@provision_ref_is_stored Sample.db (lit "Art. 6 DSG")
           {| valid := true;
              citation := lit "Art. 6 DSG";
              normalized := Some (lit "Art. 6 Datenschutzgesetz");
              document_id := Some (lit "sr-235-1");
              document_title := Some (lit "Datenschutzgesetz");
              provision_ref := Some (lit "art6");
              status := Some (lit "amended");
              warnings := [AMENDED_WARNING] |} (lit "art6")).
  - vm_compute. reflexivity.
  - reflexivity.
Defined.

(** X4. White space around a citation changes nothing but the echoed
    [citation] field: the result for a citation is the result for the trimmed
    citation with the citation as given put back. *)
Theorem validation_ignores_outer_space db citation r :
  validateCitationTool (ask (trim citation)) db = answer r db ->
  validateCitationTool (ask citation) db = answer (with_citation citation r) db.
Proof.
  intros Hv.
  assert (P : parseCitation (trim citation) = parseCitation citation).
  { unfold parseCitation. now rewrite trim_idempotent. }
  destruct (validate_cases db citation) as (parsed & Hp & Hc).
  destruct (validate_cases db (trim citation)) as (parsed' & Hp' & Hc').
  rewrite P, Hp in Hp'. injection Hp' as <-.
  destruct Hc as [(docId & Hr & Ht & E)
                 |(docId & doc & [Hr Hne] & _ & _ & Hs & Hc)];
  destruct Hc' as [(docId' & Hr' & Ht' & E')
                  |(docId' & doc' & [Hr' Hne'] & _ & _ & Hs' & Hc')];
    rewrite Hr in Hr'; injection Hr' as Hr'; subst.
  - rewrite E' in Hv. injection Hv as <-. exact E.
  - destruct docId' as [|x y]; [congruence|]. discriminate Ht.
  - destruct docId as [|x y]; [congruence|]. discriminate Ht'.
  - rewrite Hs in Hs'. injection Hs' as <-.
    destruct Hc as [[Ha E]|(a & Ha & Na & [[Hn E]|(ref & Hf & E)])];
    destruct Hc' as [[Ha' E']|(a' & Ha' & Na' & [[Hn' E']|(ref' & Hf' & E')])];
      rewrite E' in Hv; injection Hv as <-; rewrite E; unfold with_citation; cbn;
      try reflexivity;
      try (rewrite Ha' in Ha; destruct a' as [|? ?]; [congruence|discriminate Ha]);
      try (rewrite Ha in Ha'; destruct a as [|? ?]; [congruence|discriminate Ha']);
      rewrite Ha in Ha'; injection Ha' as <-; congruence.
Qed.

Lemma validation_ignores_outer_space_sample :
  validateCitationTool (ask (lit "  Art. 6 DSG ")) Sample.db
  = answer (with_citation (lit "  Art. 6 DSG ")
              {| valid := true;
                 citation := lit "Art. 6 DSG";
                 normalized := Some (lit "Art. 6 Datenschutzgesetz");
                 document_id := Some (lit "sr-235-1");
                 document_title := Some (lit "Datenschutzgesetz");
                 provision_ref := Some (lit "art6");
                 status := Some (lit "amended");
                 warnings := [AMENDED_WARNING] |}) Sample.db.
Proof.
  apply (@validation_ignores_outer_space Sample.db (lit "  Art. 6 DSG ")).
  vm_compute. reflexivity.
Defined.

Lemma validation_result_shapes_sample :
  let r := failure (lit "Art. 1 NoSuchLawXYZ") [document_not_found (lit "NoSuchLawXYZ")] in
  validateCitationTool (ask (lit "Art. 1 NoSuchLawXYZ")) Sample.db = answer r Sample.db /\
  normalized r = None /\ status r = None /\ provision_ref r = None /\
  warnings r <> [] /\
  (document_id r = None <-> document_title r = None).
Proof.
  split; [vm_compute; reflexivity|].
  apply (@validation_result_shapes Sample.db (lit "Art. 1 NoSuchLawXYZ")
           (failure (lit "Art. 1 NoSuchLawXYZ")
              [document_not_found (lit "NoSuchLawXYZ")])).
  - vm_compute. reflexivity.
  - reflexivity.
Defined.

(** ** The resolver *)

(** X5. Whenever the resolver returns, the store is as it was and an id it
    answers is the id of a document of the store; for a blank reference and
    on an empty store it returns NotFound. *)
Theorem resolver_answers_from_store db input :
  (forall answer db',
     StatuteId.resolveDocumentId input db = (Ok answer, db') ->
     db' = db /\
     forall id, answer = Some id ->
       exists d, In d (Store.legal_documents db) /\ Store.id d = id) /\
  (trim input = [] -> StatuteId.resolveDocumentId input db = (Ok None, db)) /\
  (Store.legal_documents db = [] ->
   StatuteId.resolveDocumentId input db = (Ok None, db)).
Proof.
  destruct (resolveDocumentId_run input db) as (o & Ho & Hin).
  split; [|split].
  - intros answer db' H. rewrite Ho in H. injection H as <- <-. auto.
  - intros Hb. unfold StatuteId.resolveDocumentId. now rewrite Hb.
  - intros He. rewrite Ho. destruct o as [id|]; [|reflexivity].
    destruct (Hin _ eq_refl) as (d & Hd & _). rewrite He in Hd. destruct Hd.
Qed.

(** X6. The resolver looks at its input without the white space around it:
    a reference and the trimmed reference resolve alike. *)
Theorem resolver_ignores_outer_space db input :
  StatuteId.resolveDocumentId (trim input) db = StatuteId.resolveDocumentId input db.
Proof.
  unfold StatuteId.resolveDocumentId. now rewrite trim_idempotent.
Qed.

Lemma like_percent_nil (pattern : jsstring) :
  Store.like ((37%N : code_unit) :: pattern) [] = Store.like pattern [].
Proof. cbn [Store.like N.eqb Pos.eqb]. apply orb_false_r. Qed.

Lemma like_percent_cons (pattern : jsstring) (x : code_unit) (s : jsstring) :
  Store.like ((37%N : code_unit) :: pattern) (x :: s)
  = Store.like pattern (x :: s) || Store.like ((37%N : code_unit) :: pattern) s.
Proof. reflexivity. Qed.

Lemma like_char (c : code_unit) (pattern s : jsstring) :
  N.eqb c 37 = false ->
  Store.like (c :: pattern) s
  = match s with
    | [] => false
    | x :: s' =>
        (N.eqb c 95 || N.eqb (toUpperAscii c) (toUpperAscii x)) && Store.like pattern s'
    end.
Proof. intros H. cbn [Store.like]. now rewrite H. Qed.

Lemma upper_of_lower c : toUpperAscii (toLowerAscii c) = toUpperAscii c.
Proof.
  unfold toUpperAscii, toLowerAscii, isLower, isUpper.
  destruct (N.leb_spec 65 c), (N.leb_spec c 90); cbn [andb];
    repeat match goal with
    | |- context [N.leb ?a ?b] => destruct (N.leb_spec a b)
    end; cbn [andb]; lia.
Qed.

Lemma lower_eqb_wildcard c k :
  (k = 37 \/ k = 95)%N -> N.eqb (toLowerAscii c) k = N.eqb c k.
Proof.
  intros Hk. unfold toLowerAscii, isUpper.
  destruct (N.leb_spec 65 c), (N.leb_spec c 90); cbn [andb]; try reflexivity.
  transitivity false; [apply N.eqb_neq; lia|symmetry; apply N.eqb_neq; lia].
Qed.

(** [LIKE] does not see ASCII case, so [LOWER] on both sides changes nothing. *)
Lemma like_lower pattern :
  forall s, Store.like (Store.lower pattern) (Store.lower s) = Store.like pattern s.
Proof.
  induction pattern as [|c pattern IH]; intros s.
  - destruct s; reflexivity.
  - change (Store.lower (c :: pattern)) with (toLowerAscii c :: Store.lower pattern).
    destruct (N.eqb c 37) eqn:Ec.
    + apply N.eqb_eq in Ec. subst c. change (toLowerAscii 37%N) with 37%N.
      induction s as [|x s IHs].
      * change (Store.lower []) with (@nil code_unit).
        rewrite !like_percent_nil. apply (IH []).
      * change (Store.lower (x :: s)) with (toLowerAscii x :: Store.lower s).
        rewrite !like_percent_cons. f_equal; [apply (IH (x :: s))|exact IHs].
    + rewrite like_char by (rewrite lower_eqb_wildcard by auto; exact Ec).
      rewrite (@like_char c pattern s Ec).
      destruct s as [|x s]; [reflexivity|].
      change (Store.lower (x :: s)) with (toLowerAscii x :: Store.lower s).
      rewrite lower_eqb_wildcard by auto. rewrite !upper_of_lower. now rewrite IH.
Qed.

Lemma find_ext_in (A : Type) (p q : A -> bool) l :
  (forall x, In x l -> p x = q x) -> find p l = find q l.
Proof.
  induction l as [|x l IH]; intros H; [reflexivity|]. simpl.
  rewrite (H x (or_introl eq_refl)). destruct (q x); [reflexivity|].
  apply IH. intros y Hy. apply H. now right.
Qed.

Lemma select_by_title_lower_eq p1 p2 p3 db :
  StatuteId.select_by_title_lower p1 p2 p3 db = StatuteId.select_by_title p1 p2 p3 db.
Proof.
  unfold StatuteId.select_by_title_lower, StatuteId.select_by_title, StatuteId.first_id.
  do 2 f_equal. apply find_ext_in. intros d _.
  rewrite like_lower. f_equal; [f_equal|].
  - destruct (Store.short_name d); [apply like_lower|reflexivity].
  - destruct (Store.title_en d); [apply like_lower|reflexivity].
Qed.

(** X7. With the [LIKE] and [LOWER] of SQLite, which fold ASCII case only,
    the case-insensitive fallback selects what the title query before it
    selects; so every id the resolver answers comes from one of the first
    three steps: the exact id, the SR number, or the title query. *)
Theorem resolver_fallback_adds_nothing db input id :
  StatuteId.resolveDocumentId input db = (Ok (Some id), db) ->
  let t := trim input in
  StatuteId.select_by_id t db = Ok (Some id) \/
  (exists srMatch,
     exec StatuteId.srNumber_re t = Some srMatch /\
     StatuteId.select_by_sr
       (StatuteId.percent (lit "sr-" ++ StatuteId.dots_to_dashes (group 1 srMatch)))
       (StatuteId.percent (group 1 srMatch)) db = Ok (Some id)) \/
  StatuteId.select_by_title (StatuteId.percent t) (StatuteId.percent t)
    (StatuteId.percent t) db = Ok (Some id).
Proof.
  unfold StatuteId.resolveDocumentId. cbv zeta.
  destruct (trim input) as [|c t]; [discriminate|].
  unfold bind, get, ret.
  destruct (StatuteId.select_by_id (c :: t) db) as [[i|]|e] eqn:E1; try discriminate.
  { intros [= <-]. now left. }
  destruct (exec StatuteId.srNumber_re (c :: t)) as [srMatch|].
  - destruct (StatuteId.select_by_sr _ _ db) as [[i|]|e] eqn:E2; try discriminate.
    { intros [= <-]. right. left. exists srMatch. split; [reflexivity|exact E2]. }
    destruct (StatuteId.select_by_title _ _ _ db) as [[i|]|e] eqn:E3; try discriminate.
    { intros [= <-]. now right; right. }
    destruct (StatuteId.select_by_title_lower _ _ _ db) as [[i|]|e] eqn:E4;
      try discriminate.
    rewrite select_by_title_lower_eq in E4. congruence.
  - destruct (StatuteId.select_by_title _ _ _ db) as [[i|]|e] eqn:E3; try discriminate.
    { intros [= <-]. now right; right. }
    destruct (StatuteId.select_by_title_lower _ _ _ db) as [[i|]|e] eqn:E4;
      try discriminate.
    rewrite select_by_title_lower_eq in E4. congruence.
Qed.

Lemma resolver_fallback_adds_nothing_sample :
  StatuteId.select_by_id (lit "dsg") Sample.db = Ok (Some (lit "sr-235-1")) \/
  (exists srMatch,
     exec StatuteId.srNumber_re (lit "dsg") = Some srMatch /\
     StatuteId.select_by_sr
       (StatuteId.percent (lit "sr-" ++ StatuteId.dots_to_dashes (group 1 srMatch)))
       (StatuteId.percent (group 1 srMatch)) Sample.db = Ok (Some (lit "sr-235-1"))) \/
  StatuteId.select_by_title (StatuteId.percent (lit "dsg")) (StatuteId.percent (lit "dsg"))
    (StatuteId.percent (lit "dsg")) Sample.db = Ok (Some (lit "sr-235-1")).
Proof.
  apply (@resolver_fallback_adds_nothing Sample.db (lit " dsg ") (lit "sr-235-1")).
  vm_compute. reflexivity.
Defined.

(** ** The tool list and the dispatch *)

Section ToolListFacts.

Variable context : Type.
Variable select_definitions : Store.database -> outcome (option unit).

Lemma buildTools_run with_db (ctx : option context) db :
  ToolList.buildTools select_definitions with_db ctx db
  = (Ok (ToolList.TOOLS ++ [ToolList.LIST_SOURCES_TOOL]
         ++ match ctx with Some _ => [ToolList.ABOUT_TOOL] | None => [] end), db).
Proof.
  unfold ToolList.buildTools, bind, try_catch, get, ret.
  destruct with_db; [destruct (select_definitions db) as [o|e]|];
    destruct ctx; reflexivity.
Qed.

Lemma listed_no_dup (ctx : option context) :
  NoDup (map ToolList.tool_name
           (ToolList.TOOLS ++ [ToolList.LIST_SOURCES_TOOL]
            ++ match ctx with Some _ => [ToolList.ABOUT_TOOL] | None => [] end)).
Proof.
  destruct ctx; cbn [app map ToolList.TOOLS ToolList.tool_name
                     ToolList.LIST_SOURCES_TOOL ToolList.ABOUT_TOOL];
    repeat (constructor;
            [cbn [In]; intros H; repeat (destruct H as [H|H]; [discriminate H|]);
             exact H|]);
    constructor.
Qed.

Lemma listed_iff_dispatched (ctx : option context) n :
  In n (map ToolList.tool_name
          (ToolList.TOOLS ++ [ToolList.LIST_SOURCES_TOOL]
           ++ match ctx with Some _ => [ToolList.ABOUT_TOOL] | None => [] end)) <->
  exists t, Registry.switch n = Some t /\ (t = Registry.about -> ctx <> None).
Proof.
  split.
  - intros H.
    destruct ctx;
      cbn [app map ToolList.TOOLS ToolList.tool_name
           ToolList.LIST_SOURCES_TOOL ToolList.ABOUT_TOOL In] in H;
      repeat (destruct H as [H|H];
              [subst n; eexists; split; [vm_compute; reflexivity|congruence]|]);
      destruct H.
  - intros (t & Hs & Ha). apply switch_cases in Hs.
    cbn [map Registry.cases fst snd In] in Hs.
    destruct ctx;
      cbn [app map ToolList.TOOLS ToolList.tool_name
           ToolList.LIST_SOURCES_TOOL ToolList.ABOUT_TOOL In];
      repeat (destruct Hs as [Hs|Hs];
              [injection Hs as <- <-; try tauto; exfalso; now apply Ha|]);
      destruct Hs.
Qed.

(** X8. Whatever the probe of the table [definitions] does, building the tool
    list succeeds and leaves the store alone; no name is listed twice; and the
    names listed are those the request handler dispatches on, "about" being
    among them only when an about context was given. *)
Theorem tool_list_matches_dispatch with_db (ctx : option context) db :
  exists tools,
    ToolList.buildTools select_definitions with_db ctx db = (Ok tools, db) /\
    NoDup (map ToolList.tool_name tools) /\
    forall n,
      In n (map ToolList.tool_name tools) <->
      exists t, Registry.switch n = Some t /\ (t = Registry.about -> ctx <> None).
Proof.
  eexists. split; [apply buildTools_run|]. split.
  - apply listed_no_dup.
  - apply listed_iff_dispatched.
Qed.

End ToolListFacts.

Section Unlisted.

Variables (raw result context : Type).
Variable handler : Registry.external_tool -> raw -> M result.
Variable getAbout : context -> M result.
Variable select_definitions : Store.database -> outcome (option unit).

(** X9. A call to a tool that the list does not name reaches no handler: it
    is answered with a response flagged isError, whose text is "About tool not
    configured." for "about" and 'Error: Unknown tool "<name>".' for any other
    name, and the store is left as it was. *)
Theorem unlisted_tool_is_refused with_db (ctx : option context)
    (req : Registry.request raw) db tools :
  ToolList.buildTools select_definitions with_db ctx db = (Ok tools, db) ->
  ~ In (Registry.name req) (map ToolList.tool_name tools) ->
  exists resp,
    Registry.callTool handler getAbout ctx req db = (Ok resp, db) /\
    Registry.isError resp = true /\
    Registry.response_content resp
    = Registry.Text result
        (if jseqb (Registry.name req) (lit "about")
         then lit "About tool not configured."
         else lit "Error: Unknown tool " ++ [34%N] ++ Registry.name req ++ [34%N]
              ++ lit ".").
Proof.
  intros Hb Hn.
  rewrite buildTools_run in Hb. injection Hb as <-.
  pose proof (listed_iff_dispatched ctx) as Hl.
  unfold Registry.callTool, Registry.call, try_catch.
  destruct (Registry.switch (Registry.name req)) as [t|] eqn:Hs.
  - assert (Ht : t = Registry.about /\ ctx = None).
    { destruct ctx as [c|].
      - exfalso. apply Hn, Hl. exists t. split; [exact Hs|discriminate].
      - split; [|reflexivity].
        destruct t as [e| | |]; try reflexivity;
          exfalso; apply Hn, Hl; eexists; (split; [exact Hs|discriminate]). }
    destruct Ht as [-> ->].
    apply switch_cases in Hs. cbn [map Registry.cases fst snd In] in Hs.
    repeat (destruct Hs as [Hs|Hs]; [try discriminate Hs|]); [|destruct Hs].
    injection Hs as <-.
    eexists. split; [reflexivity|]. split; reflexivity.
  - apply switch_none in Hs.
    destruct (jseqb (Registry.name req) (lit "about")) eqn:E.
    + apply jseqb_eq in E. exfalso. apply Hs. rewrite E. cbn. tauto.
    + eexists. split; [reflexivity|]. split; reflexivity.
Qed.

End Unlisted.

Lemma unlisted_tool_is_refused_sample :
  exists resp,
    Registry.callTool SampleCalls.failing SampleCalls.about_nothing None
      SampleCalls.unknown Sample.db = (Ok resp, Sample.db) /\
    Registry.isError resp = true /\
    Registry.response_content resp
    = Registry.Text unit
        (if jseqb (Registry.name SampleCalls.unknown) (lit "about")
         then lit "About tool not configured."
         else lit "Error: Unknown tool " ++ [34%N] ++ Registry.name SampleCalls.unknown
              ++ [34%N] ++ lit ".").
Proof.
  apply (@unlisted_tool_is_refused unit unit unit SampleCalls.failing
           SampleCalls.about_nothing (fun _ => Ok None) true None SampleCalls.unknown
           Sample.db
           (ToolList.TOOLS ++ [ToolList.LIST_SOURCES_TOOL])).
  - reflexivity.
  - vm_compute. intros H.
    repeat (destruct H as [H|H]; [discriminate H|]). exact H.
Defined.

(** ** Anchored expressions and the word "Art" *)

Lemma execFrom_Bol_later r :
  forall rest pos, execFrom (Seq Bol r) (S pos) rest = None.
Proof.
  induction rest as [|c rest IH]; intros pos; simpl; [reflexivity|apply IH].
Qed.

(** An expression that begins with [^] matches at index 0 or not at all. *)
Lemma exec_anchored r s : exec (Seq Bol r) s = matcher r 0 s [] accept.
Proof.
  unfold exec. destruct s as [|c s]; simpl.
  - now destruct (matcher r 0 [] [] accept).
  - rewrite execFrom_Bol_later. now destruct (matcher r 0 (c :: s) [] accept).
Qed.

Lemma match_word_art r pos s cs k res :
  matcher (Seq (str_ci "Art") r) pos s cs k = Some res -> starts_with_art s = true.
Proof.
  intros H. destruct s as [|x [|y [|z s]]]; cbn in H; try discriminate.
  - destruct (N.eqb (toUpperAscii x) 65); discriminate.
  - destruct (N.eqb (toUpperAscii x) 65); [|discriminate].
    destruct (N.eqb (toUpperAscii y) 82); discriminate.
  - unfold starts_with_art.
    destruct (N.eqb (toUpperAscii x) 65); [|discriminate].
    destruct (N.eqb (toUpperAscii y) 82); [|discriminate].
    destruct (N.eqb (toUpperAscii z) 84); [reflexivity|discriminate].
Qed.

Lemma mentions_art_app u s : starts_with_art s = true -> mentions_art (u ++ s) = true.
Proof.
  intros H. induction u as [|c u IH]; cbn [app mentions_art].
  - destruct s as [|x s]; [discriminate|]. cbn [mentions_art]. now rewrite H.
  - rewrite IH. apply orb_true_r.
Qed.

(** Every expression consumes a prefix of its input before it goes on. *)
Lemma sound_prefix r : sound r (fun _ _ _ => True).
Proof.
  induction r as [|p|r1 IH1 r2 IH2|r1 IH1 r2 IH2|min max greedy r IH|i r IH| |].
  - eapply sound_weaken; [apply sound_Empty|auto].
  - eapply sound_weaken; [apply sound_Class|auto].
  - eapply sound_weaken; [apply (sound_Seq IH1 IH2)|auto].
  - eapply sound_weaken; [apply (sound_Alt IH1 IH2)|auto].
  - intros pos rest cs k res Hm. cbn [matcher] in Hm.
    destruct (@sound_repeat_any r _ greedy IH _ _ _ _ _ _ _ _ Hm)
      as (n & w & rest' & cs' & -> & _ & Hk).
    exists w, rest', cs'. auto.
  - eapply sound_weaken; [apply (sound_Group i IH)|auto].
  - eapply sound_weaken; [apply sound_Bol|auto].
  - eapply sound_weaken; [apply sound_Eol|auto].
Qed.

(** What [r1] leaves of the input when [Seq r1 r2] matches. *)
Lemma match_Seq r1 r2 pos s cs k res :
  matcher (Seq r1 r2) pos s cs k = Some res ->
  exists w s' pos' cs', s = w ++ s' /\ matcher r2 pos' s' cs' k = Some res.
Proof.
  intros H. cbn [matcher] in H.
  destruct (@sound_prefix r1 _ _ _ _ _ H) as (w & s' & cs' & -> & _ & Hk).
  exists w, s', (pos + List.length w), cs'. split; [reflexivity|exact Hk].
Qed.

Lemma mentions_art_later w s : mentions_art s = true -> mentions_art (w ++ s) = true.
Proof.
  intros H. induction w as [|c w IH]; cbn [app mentions_art]; [exact H|].
  rewrite IH. apply orb_true_r.
Qed.

Lemma format_artFirst_mentions_art s m :
  exec FormatCitation.artFirst_re s = Some m -> mentions_art s = true.
Proof.
  unfold FormatCitation.artFirst_re. cbn [seqs]. rewrite exec_anchored.
  intros H. apply (mentions_art_app []). eapply match_word_art; exact H.
Qed.

Lemma format_artLast_mentions_art s m :
  exec FormatCitation.artLast_re s = Some m -> mentions_art s = true.
Proof.
  unfold FormatCitation.artLast_re. cbn [seqs]. rewrite exec_anchored.
  intros H.
  do 3 (apply match_Seq in H; destruct H as (? & ? & ? & ? & -> & H);
        apply mentions_art_later).
  apply (mentions_art_app []). eapply match_word_art; exact H.
Qed.

Lemma parse_artFirst_mentions_art s m :
  exec ValidateCitation.artFirst_re s = Some m -> mentions_art s = true.
Proof.
  unfold ValidateCitation.artFirst_re. cbn [seqs]. rewrite exec_anchored.
  intros H. apply (mentions_art_app []). eapply match_word_art; exact H.
Qed.

Lemma parse_artLast_mentions_art s m :
  exec ValidateCitation.artLast_re s = Some m -> mentions_art s = true.
Proof.
  unfold ValidateCitation.artLast_re. cbn [seqs]. rewrite exec_anchored.
  intros H.
  do 3 (apply match_Seq in H; destruct H as (? & ? & ? & ? & -> & H);
        apply mentions_art_later).
  apply (mentions_art_app []). eapply match_word_art; exact H.
Qed.

Lemma parse_srWithArt_mentions_art s m :
  exec ValidateCitation.srWithArt_re s = Some m -> mentions_art s = true.
Proof.
  unfold ValidateCitation.srWithArt_re. cbn [seqs]. rewrite exec_anchored.
  intros H.
  do 6 (apply match_Seq in H; destruct H as (? & ? & ? & ? & -> & H);
        apply mentions_art_later).
  apply (mentions_art_app []). eapply match_word_art; exact H.
Qed.

Lemma not_mentioned (o : option captures) s :
  (forall m, o = Some m -> mentions_art s = true) ->
  mentions_art s = false -> o = None.
Proof.
  intros H N. destruct o as [m|]; [|reflexivity].
  rewrite (H m eq_refl) in N. discriminate.
Qed.

(** ** format_citation *)

(** X10. A citation in which "art" does not occur, in upper or lower case, is
    not taken apart: in every format, and with an unknown format or none, the
    formatted citation is the citation without the white space around it. *)
Theorem format_without_art_is_trim f citation :
  mentions_art (trim citation) = false ->
  FormatCitation.formatted (FormatCitation.formatCitationTool (format_as f citation))
  = trim citation.
Proof.
  intros N. unfold FormatCitation.formatCitationTool, format_as.
  cbn [FormatCitation.input_citation FormatCitation.input_format FormatCitation.formatted].
  rewrite (@not_mentioned _ _ (@format_artFirst_mentions_art (trim citation)) N).
  rewrite (@not_mentioned _ _ (@format_artLast_mentions_art (trim citation)) N).
  cbn [option_map].
  destruct (jseqb _ (lit "short")); [reflexivity|].
  destruct (jseqb _ (lit "pinpoint")); reflexivity.
Qed.

Lemma format_without_art_is_trim_sample :
  FormatCitation.formatted
    (FormatCitation.formatCitationTool (format_as (Some (lit "short")) (lit "  DSG (SR 235.1) ")))
  = lit "DSG (SR 235.1)".
Proof.
  apply (@format_without_art_is_trim (Some (lit "short")) (lit "  DSG (SR 235.1) ")).
  reflexivity.
Defined.

(** ** The parser *)

(** None of the three expressions of the parser matches without "art". *)
Lemma parse_without_art s :
  mentions_art s = false ->
  exec ValidateCitation.artFirst_re s = None /\
  exec ValidateCitation.artLast_re s = None /\
  exec ValidateCitation.srWithArt_re s = None.
Proof.
  intros N. repeat split.
  - exact (@not_mentioned _ _ (@parse_artFirst_mentions_art s) N).
  - exact (@not_mentioned _ _ (@parse_artLast_mentions_art s) N).
  - exact (@not_mentioned _ _ (@parse_srWithArt_mentions_art s) N).
Qed.

(** X11. A citation in which "art" does not occur names a document and no
    article: the parser hands the whole citation, without the white space
    around it, to the resolver. *)
Theorem citation_without_art_is_document_ref citation :
  mentions_art (trim citation) = false ->
  parseCitation citation
  = Some {| documentRef := trim citation; articleRef := None |}.
Proof.
  intros N. destruct (parse_without_art _ N) as (E1 & E2 & E3).
  unfold parseCitation. now rewrite E1, E2, E3.
Qed.

Lemma citation_without_art_is_document_ref_sample :
  parseCitation (lit " SR 235.1 ")
  = Some {| documentRef := lit "SR 235.1"; articleRef := None |}.
Proof.
  apply (@citation_without_art_is_document_ref (lit " SR 235.1 ")).
  reflexivity.
Defined.

Lemma format_article_first_run f citation a law :
  article_token a ->
  law <> [] -> trimmed law -> no_line_terminator law ->
  trim citation = lit "Art. " ++ a ++ lit " " ++ law ->
  let r := FormatCitation.formatCitationTool (format_as f citation) in
  (f = Some (lit "pinpoint") -> FormatCitation.formatted r = lit "Art. " ++ a) /\
  (f = Some (lit "short") ->
     FormatCitation.formatted r
     = lit "Art. " ++ a ++ lit " " ++ trim (FormatCitation.before_paren law)) /\
  (f <> Some (lit "pinpoint") -> f <> Some (lit "short") ->
     FormatCitation.formatted r = trim citation).
Proof.
  intros (ds & ls & -> & Nd & Fd & Fl) Nt Tt Lt Hc.
  destruct (trimmed_cons Tt Nt) as (c & t & -> & Hs & _).
  unfold FormatCitation.formatCitationTool, format_as.
  cbn [FormatCitation.input_citation FormatCitation.input_format FormatCitation.formatted].
  rewrite Hc.
  rewrite (exec_at_start _ _ (fwd_format_artFirst Nd Fd Fl Hs Lt)).
  change (group 1 [(2, c :: t); (1, ds ++ ls)]) with (ds ++ ls).
  change (group 2 [(2, c :: t); (1, ds ++ ls)]) with (c :: t).
  assert (E : exists x y, ds ++ ls = x :: y).
  { destruct ds as [|x y]; [congruence|]. simpl. eauto. }
  destruct E as (x & y & E). rewrite E.
  repeat split.
  - intros ->. reflexivity.
  - intros ->. reflexivity.
  - intros N1 N2.
    destruct f as [f|]; [|reflexivity].
    destruct (jseqb f (lit "short")) eqn:E1.
    { apply jseqb_eq in E1. congruence. }
    destruct (jseqb f (lit "pinpoint")) eqn:E2.
    { apply jseqb_eq in E2. congruence. }
    reflexivity.
Qed.

(** ** More forward lemmas *)

Lemma prefix_within (q : code_unit -> bool) :
  forall (ls w rest' rest'' : jsstring),
    Forall (fun c => q c = true) w -> stops q rest' ->
    ls ++ rest' = w ++ rest'' ->
    List.length w <= List.length ls /\ rest'' = skipn (List.length w) ls ++ rest'.
Proof.
  induction ls as [|c ls IH]; intros w rest' rest'' Fw St E.
  - destruct w as [|x w]; [simpl in *; auto|].
    exfalso. simpl in E. subst rest'. inversion Fw; subst. simpl in St. congruence.
  - destruct w as [|x w]; [simpl in *; split; [lia|auto]|].
    simpl in E. injection E as <- E. inversion Fw; subst.
    destruct (IH _ _ _ H2 St E) as [L ->]. simpl. split; [lia|reflexivity].
Qed.

(** An optional expression over a class, before a continuation that succeeds
    wherever the expression may stop. *)
Lemma fwd_opt_within q r ls rest' pos cs k v :
  within q r -> stops q rest' ->
  (forall i, i <= List.length ls -> k (pos + i) (skipn i ls ++ rest') cs = Some v) ->
  matcher (opt r) pos (ls ++ rest') cs k = Some v.
Proof.
  intros W St Hk. unfold opt.
  cbn [matcher repeatMatcher max_is_zero dec_max Nat.ltb Nat.leb Nat.eqb andb pred].
  unfold orelse.
  match goal with |- match ?X with _ => _ end = _ => destruct X as [res|] eqn:E end.
  - destruct (@sound_within q r W _ _ _ _ _ E) as (w & rest'' & cs' & Hs & [Fw ->] & Hd).
    destruct (@prefix_within q ls w rest' rest'' Fw St Hs) as [L ->].
    destruct (pos + List.length w =? pos); [discriminate|].
    destruct (0 + List.length (ls ++ rest')); [discriminate|].
    cbn [repeatMatcher max_is_zero] in Hd.
    rewrite <- Hd. exact (Hk _ L).
  - specialize (Hk 0 (Nat.le_0_l _)). rewrite Nat.add_0_r in Hk. exact Hk.
Qed.

Lemma Forall_skipn (A : Type) (P : A -> Prop) n (l : list A) :
  Forall P l -> Forall P (skipn n l).
Proof.
  intros F. rewrite <- (firstn_skipn n l) in F. now apply Forall_app in F.
Qed.

Lemma fwd_parse_article ds ls rest pos cs k v :
  ds <> [] ->
  Forall (fun c => isDigit c = true) ds ->
  Forall (fun c => isLetter c = true) ls ->
  stops isDigit rest -> stops isLetter rest ->
  k (pos + List.length ds + List.length ls) rest cs = Some v ->
  matcher ValidateCitation.article pos (ds ++ ls ++ rest) cs k = Some v.
Proof.
  intros Nd Fd Fl Sd Sl Hk. unfold ValidateCitation.article. cbn [seqs].
  apply fwd_Seq. unfold plus, digit. apply fwd_greedy; [exact Fd| | |].
  { destruct ls as [|l ls]; simpl; [exact Sd|].
    inversion Fl; subst. now apply letter_not_digit. }
  { destruct ds; [congruence|simpl; lia]. }
  apply fwd_Seq. apply fwd_opt_within with (q := isLetter);
    [exact within_ordinal|exact Sl|].
  intros i Hi. unfold star, letter_ci.
  apply fwd_greedy; [now apply Forall_skipn|exact Sl|lia|].
  rewrite length_skipn.
  replace (pos + List.length ds + i + (List.length ls - i))
    with (pos + List.length ds + List.length ls) by lia.
  exact Hk.
Qed.

Lemma fwd_parse_artFirst ds ls c t :
  ds <> [] ->
  Forall (fun c => isDigit c = true) ds ->
  Forall (fun c => isLetter c = true) ls ->
  isSpace c = false ->
  no_line_terminator (c :: t) ->
  matcher ValidateCitation.artFirst_re 0
    (lit "Art. " ++ (ds ++ ls) ++ lit " " ++ c :: t) [] accept
  = Some [(2, c :: t); (1, ds ++ ls)].
Proof.
  intros Nd Fd Fl Hc Ht.
  rewrite <- app_assoc.
  change (lit "Art. " ++ ds ++ ls ++ lit " " ++ c :: t)
    with (65 :: 114 :: 116 :: 46 :: 32 :: ds ++ ls ++ 32 :: c :: t)%N.
  change ValidateCitation.artFirst_re
    with (Seq Bol
         (Seq (Seq (chr_ci 65) (Seq (chr_ci 114) (chr_ci 116)))
         (Seq (opt period)
         (Seq (star space)
         (Seq (Group 1 ValidateCitation.article)
         (Seq (plus space)
         (Seq (Group 2 (plus dot)) Eol)))))))%N.
  apply fwd_Seq, fwd_Bol.
  apply fwd_Seq, fwd_Seq, fwd_Class; [reflexivity|].
  apply fwd_Seq, fwd_Class; [reflexivity|].
  apply fwd_Class; [reflexivity|].
  apply fwd_Seq, fwd_opt_Class; [reflexivity|].
  apply fwd_Seq.
  apply (@fwd_greedy isSpace 0 [32%N]); [repeat constructor| |simpl; lia|].
  { destruct ds as [|d ds]; [congruence|]. inversion Fd; subst.
    simpl. now apply digit_not_space. }
  apply fwd_Seq, fwd_Group, fwd_parse_article; auto; [reflexivity|reflexivity|].
  apply fwd_Seq.
  apply (@fwd_greedy isSpace 1 [32%N]); [repeat constructor|exact Hc|simpl; lia|].
  apply fwd_Seq, fwd_Group.
  apply fwd_greedy_all; [|simpl; lia|].
  { eapply Forall_impl; [|exact Ht]. cbv beta. intros a Ha. now rewrite Ha. }
  apply fwd_Eol. unfold accept.
  rewrite (@firstn_whole _ (c :: t)) by lia.
  rewrite app_assoc, (@firstn_prefix _ (ds ++ ls)) by (rewrite length_app; simpl; lia).
  reflexivity.
Qed.

Lemma parse_article_first_run citation a law :
  article_token a ->
  law <> [] -> trimmed law -> no_line_terminator law ->
  trim citation = lit "Art. " ++ a ++ lit " " ++ law ->
  parseCitation citation = Some {| documentRef := law; articleRef := Some a |}.
Proof.
  intros (ds & ls & -> & Nd & Fd & Fl) Nt Tt Lt Hc.
  destruct (trimmed_cons Tt Nt) as (c & t & -> & Hs & _).
  unfold parseCitation. rewrite Hc.
  rewrite (exec_at_start _ _ (fwd_parse_artFirst Nd Fd Fl Hs Lt)).
  change (group 1 [(2, c :: t); (1, ds ++ ls)]) with (ds ++ ls).
  change (group 2 [(2, c :: t); (1, ds ++ ls)]) with (c :: t).
  now rewrite Tt.
Qed.

(** ** The lazy quantifier *)

Lemma fwd_lazy_rest p k v rest' cs :
  forall w fuel pos,
    Forall (fun c => p c = true) w -> List.length w < fuel ->
    (forall i, i < List.length w -> k (pos + i) (skipn i w ++ rest') cs = None) ->
    k (pos + List.length w) rest' cs = Some v ->
    repeatMatcher (matcher (Class p)) false fuel 0 None pos (w ++ rest') cs k = Some v.
Proof.
  induction w as [|c w IH]; intros fuel pos F Lf Hn Hk;
    (destruct fuel as [|fuel]; [simpl in Lf; lia|]);
    cbn [repeatMatcher max_is_zero dec_max Nat.ltb Nat.leb app].
  - simpl in Hk. rewrite Nat.add_0_r in Hk. now rewrite Hk.
  - pose proof (Hn 0 ltac:(simpl; lia)) as H0.
    rewrite Nat.add_0_r in H0. cbn [skipn app] in H0. rewrite H0.
    cbn [orelse matcher]. inversion F as [|? ? Hc Fw]; subst. rewrite Hc.
    replace (S pos =? pos) with false by (symmetry; apply Nat.eqb_neq; lia).
    rewrite andb_false_r. cbn [pred]. apply IH.
    + exact Fw.
    + simpl in Lf. lia.
    + intros i Hi. specialize (Hn (S i) ltac:(simpl; lia)).
      rewrite Nat.add_succ_r in Hn. exact Hn.
    + simpl in Hk. rewrite Nat.add_succ_r in Hk. exact Hk.
Qed.

(** [.+?] and the like stop at the first index from which what follows
    matches. *)
Lemma fwd_lazy_plus p c w rest' pos cs k v :
  p c = true -> Forall (fun c => p c = true) w ->
  (forall i, i < List.length w -> k (S pos + i) (skipn i w ++ rest') cs = None) ->
  k (S pos + List.length w) rest' cs = Some v ->
  matcher (Quant 1 None false (Class p)) pos (c :: w ++ rest') cs k = Some v.
Proof.
  intros Hc F Hn Hk.
  cbn [matcher]. set (fuel := 1 + List.length (c :: w ++ rest')).
  cbn [repeatMatcher max_is_zero dec_max Nat.ltb Nat.leb matcher].
  rewrite Hc. change (1 =? 0) with false. cbn [andb pred].
  apply fwd_lazy_rest; auto. unfold fuel. simpl. rewrite length_app. lia.
Qed.

(** ** Runs of a class *)

Lemma run_unique (p : code_unit -> bool) :
  forall (u u' x x' : jsstring),
    Forall (fun c => p c = true) u -> Forall (fun c => p c = true) u' ->
    stops p x -> stops p x' ->
    u ++ x = u' ++ x' -> u = u' /\ x = x'.
Proof.
  induction u as [|c u IH]; intros u' x x' F F' S S' E.
  - destruct u' as [|c' u']; [auto|].
    exfalso. simpl in E. subst x. inversion F'; subst. simpl in S. congruence.
  - destruct u' as [|c' u'].
    + exfalso. simpl in E. subst x'. inversion F; subst. simpl in S'. congruence.
    + simpl in E. injection E as <- E. inversion F; inversion F'; subst.
      destruct (IH u' x x') as [-> ->]; auto.
Qed.

Lemma stops_app (p q : code_unit -> bool) (u x : jsstring) :
  Forall (fun c => q c = true) u -> (forall c, q c = true -> p c = false) ->
  stops p x -> stops p (u ++ x).
Proof.
  intros F H S. destruct u as [|c u]; [exact S|].
  inversion F; subst. simpl. auto.
Qed.

Lemma stops_nonempty (p q : code_unit -> bool) (u x : jsstring) :
  u <> [] -> Forall (fun c => q c = true) u -> (forall c, q c = true -> p c = false) ->
  stops p (u ++ x).
Proof.
  intros N F H. destruct u as [|c u]; [congruence|].
  inversion F; subst. simpl. auto.
Qed.

Lemma Forall_rev_class (p : code_unit -> bool) (u : jsstring) :
  Forall (fun c => p c = true) u -> Forall (fun c => p c = true) (rev u).
Proof. apply Forall_rev. Qed.

Lemma rev_nonempty (u : jsstring) : u <> [] -> rev u <> [].
Proof.
  intros N E. apply N. rewrite <- (rev_involutive u), E. reflexivity.
Qed.

Lemma digit_not_letter c : isDigit c = true -> isLetter c = false.
Proof.
  intros H. destruct (isLetter c) eqn:E; [|reflexivity].
  apply letter_not_digit in E. congruence.
Qed.

Lemma space_not_digit c : isSpace c = true -> isDigit c = false.
Proof.
  intros H. destruct (isDigit c) eqn:E; [|reflexivity].
  apply digit_not_space in E. congruence.
Qed.

Lemma upper_t z : toUpperAscii z = 84%N -> z = 84%N \/ z = 116%N.
Proof.
  unfold toUpperAscii, isLower.
  destruct (N.leb_spec 97 z), (N.leb_spec z 122); simpl; lia.
Qed.

(** ** What follows the law in a law-first citation *)

Lemma sound_word_art :
  sound (str_ci "Art")
    (keeps (fun w => exists x y z, w = [x; y; z] /\ toUpperAscii z = 84%N)).
Proof.
  change (str_ci "Art") with (Seq (chr_ci 65) (Seq (chr_ci 114) (chr_ci 116)))%N.
  eapply sound_weaken.
  - apply sound_Seq; [apply sound_Class|apply sound_Seq; apply sound_Class].
  - cbv beta. intros w cs cs' (w1 & w23 & cs1 & -> & [(x & -> & Hx) ->] & H).
    destruct H as (w2 & w3 & cs2 & -> & [(y & -> & Hy) ->] & [(z & -> & Hz) ->]).
    split; [|reflexivity]. exists x, y, z. split; [reflexivity|].
    apply N.eqb_eq in Hz. exact Hz.
Qed.

Lemma sound_spaces :
  sound (star space) (keeps (Forall (fun c => isSpace c = true))).
Proof. apply sound_within with (q := isSpace). intros c H. exact H. Qed.

(** The parts of a match of the tail, up to the end of the input. *)
Lemma tail_parts art pos s cs k res :
  sound art (keeps article_token) ->
  matcher (law_first_tail art) pos s cs k = Some res ->
  exists cw sw x y z pw sw2 a,
    s = cw ++ sw ++ [x; y; z] ++ pw ++ sw2 ++ a /\
    (cw = [] \/ cw = lit "," \/ cw = lit ";") /\
    Forall (fun c => isSpace c = true) sw /\
    toUpperAscii z = 84%N /\
    (pw = [] \/ pw = lit ".") /\
    Forall (fun c => isSpace c = true) sw2 /\
    article_token a.
Proof.
  intros Ha H.
  change (matcher (law_first_tail art) pos s cs k)
    with (matcher (Seq (seqs [opt comma_semicolon; star space; str_ci "Art";
                              opt period; star space; Group 2 art]) Eol) pos s cs k) in H.
  cbn [matcher] in H.
  assert (S : sound (seqs [opt comma_semicolon; star space; str_ci "Art";
                           opt period; star space; Group 2 art])
                (fun w _ _ => exists cw sw x y z pw sw2 a,
                   w = cw ++ sw ++ [x; y; z] ++ pw ++ sw2 ++ a /\
                   (cw = [] \/ cw = lit "," \/ cw = lit ";") /\
                   Forall (fun c => isSpace c = true) sw /\
                   toUpperAscii z = 84%N /\
                   (pw = [] \/ pw = lit ".") /\
                   Forall (fun c => isSpace c = true) sw2 /\
                   article_token a)).
  { cbn [seqs]. eapply sound_weaken.
    - apply sound_Seq; [apply sound_opt, sound_Class|].
      apply sound_Seq; [apply sound_spaces|].
      apply sound_Seq; [apply sound_word_art|].
      apply sound_Seq; [apply sound_opt, sound_Class|].
      apply sound_Seq; [apply sound_spaces|].
      apply sound_Group, Ha.
    - cbv beta. intros w c0 c6 (cw & w1 & c1 & -> & Hcw & H1).
      destruct H1 as (sw & w2 & c2 & -> & [Fsw _] & H2).
      destruct H2 as (aw & w3 & c3 & -> & [(x & y & z & -> & Hz) _] & H3).
      destruct H3 as (pw & w4 & c4 & -> & Hpw & H4).
      destruct H4 as (sw2 & a & c5 & -> & [Fsw2 _] & (c5' & [Tok _] & _)).
      exists cw, sw, x, y, z, pw, sw2, a. repeat split; auto.
      + destruct Hcw as [[(c & -> & Hc) _]|[-> _]]; [|auto].
        apply orb_true_iff in Hc. rewrite !N.eqb_eq in Hc.
        destruct Hc as [->| ->]; auto.
      + destruct Hpw as [[(c & -> & Hc) _]|[-> _]]; [|auto].
        apply N.eqb_eq in Hc. subst c. auto. }
  destruct (S _ _ _ _ _ H) as (w & rest' & cs' & -> & HQ & Hk).
  destruct rest' as [|c rest']; [|discriminate Hk].
  rewrite app_nil_r. exact HQ.
Qed.

Lemma upper_a x : toUpperAscii x = 65%N -> x = 65%N \/ x = 97%N.
Proof.
  unfold toUpperAscii, isLower.
  destruct (N.leb_spec 97 x), (N.leb_spec x 122); simpl; lia.
Qed.

(** What [q] does not match stands first after the white space that may
    follow "Art.", read from the right. *)
Lemma stops_after_period (q : code_unit -> bool) (pw : jsstring) z t :
  (pw = [] \/ pw = lit ".") -> toUpperAscii z = 84%N ->
  q 46%N = false -> q 84%N = false -> q 116%N = false ->
  stops q (rev pw ++ z :: t).
Proof.
  intros Hp Hz H1 H2 H3. destruct Hp as [-> | ->]; simpl; [|exact H1].
  destruct (upper_t _ Hz) as [-> | ->]; assumption.
Qed.

(** Where "Art" stands when both sides end in the same article token. *)
Lemma tail_alignment (l' cw sw pw0 sw0 ds ls cw' sw' pw sw2 ds' ls' : jsstring)
    (x0 y0 z0 x y z : code_unit) :
  l' ++ cw ++ sw ++ [x0; y0; z0] ++ pw0 ++ sw0 ++ ds ++ ls
  = cw' ++ sw' ++ [x; y; z] ++ pw ++ sw2 ++ ds' ++ ls' ->
  ds <> [] -> Forall (fun c => isDigit c = true) ds ->
  Forall (fun c => isLetter c = true) ls ->
  ds' <> [] -> Forall (fun c => isDigit c = true) ds' ->
  Forall (fun c => isLetter c = true) ls' ->
  toUpperAscii z0 = 84%N -> (pw0 = [] \/ pw0 = lit ".") ->
  Forall (fun c => isSpace c = true) sw0 ->
  toUpperAscii z = 84%N -> (pw = [] \/ pw = lit ".") ->
  Forall (fun c => isSpace c = true) sw2 ->
  rev sw ++ rev cw ++ rev l' = rev sw' ++ rev cw'.
Proof.
  intros E Nd Fd Fl Nd' Fd' Fl' Hz0 Hp0 Fs0 Hz Hp Fs2.
  apply (f_equal (@rev code_unit)) in E.
  rewrite !rev_app_distr in E. rewrite <- !app_assoc in E.
  change (rev [x0; y0; z0]) with [z0; y0; x0] in E.
  change (rev [x; y; z]) with [z; y; x] in E.
  cbn [app] in E.
  (* the letters *)
  apply run_unique with (p := isLetter) in E;
    [|now apply Forall_rev|now apply Forall_rev
     |apply stops_nonempty with (q := isDigit);
        [now apply rev_nonempty|now apply Forall_rev|exact digit_not_letter]
     |apply stops_nonempty with (q := isDigit);
        [now apply rev_nonempty|now apply Forall_rev|exact digit_not_letter]].
  destruct E as [_ E].
  (* the digits *)
  apply run_unique with (p := isDigit) in E;
    [|now apply Forall_rev|now apply Forall_rev
     |apply stops_app with (q := isSpace);
        [now apply Forall_rev|exact space_not_digit
        |now apply stops_after_period]
     |apply stops_app with (q := isSpace);
        [now apply Forall_rev|exact space_not_digit
        |now apply stops_after_period]].
  destruct E as [_ E].
  (* the white space after "Art." *)
  apply run_unique with (p := isSpace) in E;
    [|now apply Forall_rev|now apply Forall_rev
     |now apply stops_after_period|now apply stops_after_period].
  destruct E as [_ E].
  destruct Hp0 as [-> | ->], Hp as [-> | ->];
    cbn [rev app lit List.map list_ascii_of_string] in E.
  - injection E as _ _ _ E. exact E.
  - injection E as -> _. vm_compute in Hz0. discriminate Hz0.
  - injection E as <- _. vm_compute in Hz. discriminate Hz.
  - injection E as _ _ _ E. exact E.
Qed.

Lemma clean_end_head l' :
  clean_end l' = true ->
  exists c t, rev l' = c :: t /\ isSpace c = false /\ c <> 44%N /\ c <> 59%N.
Proof.
  unfold clean_end. destruct (rev l') as [|c t]; [discriminate|].
  intros H. apply negb_true_iff in H. rewrite !orb_false_iff, !N.eqb_neq in H.
  exists c, t. tauto.
Qed.

Lemma clean_end_suffix u l' : l' <> [] -> clean_end (u ++ l') = clean_end l'.
Proof.
  intros N. unfold clean_end. rewrite rev_app_distr.
  destruct (rev l') as [|c t] eqn:E; [|reflexivity].
  now apply rev_nonempty in N.
Qed.

(** After a clean end in the law, the tail does not match: the law goes on
    to its last unit. *)
Lemma tail_fails art l' cw sw x y z pw sw0 ds ls pos cs k :
  sound art (keeps article_token) ->
  clean_end l' = true ->
  (cw = [] \/ cw = lit "," \/ cw = lit ";") ->
  Forall (fun c => isSpace c = true) sw ->
  toUpperAscii z = 84%N -> (pw = [] \/ pw = lit ".") ->
  Forall (fun c => isSpace c = true) sw0 ->
  ds <> [] -> Forall (fun c => isDigit c = true) ds ->
  Forall (fun c => isLetter c = true) ls ->
  matcher (law_first_tail art) pos
    (l' ++ cw ++ sw ++ [x; y; z] ++ pw ++ sw0 ++ ds ++ ls) cs k = None.
Proof.
  intros Ha Hl Hcw Fsw Hz0 Hp0 Fs0 Nd Fd Fl.
  destruct (matcher _ pos _ cs k) as [res|] eqn:E; [exfalso|reflexivity].
  apply tail_parts in E; [|exact Ha].
  destruct E as (cw' & sw' & x' & y' & z' & pw' & sw2 & a & E & Hcw' & Fsw' & Hz & Hp & Fs2 & Tok).
  destruct Tok as (ds' & ls' & -> & Nd' & Fd' & Fl').
  apply tail_alignment in E; auto.
  destruct (clean_end_head _ Hl) as (c & t & Er & Hs & N1 & N2). rewrite Er in E.
  apply run_unique with (p := isSpace) in E;
    [|now apply Forall_rev|now apply Forall_rev
     |destruct Hcw as [-> |[-> | ->]]; [exact Hs|reflexivity|reflexivity]
     |destruct Hcw' as [-> |[-> | ->]]; reflexivity].
  destruct E as [_ E].
  destruct Hcw as [-> |[-> | ->]], Hcw' as [-> |[-> | ->]];
    cbn in E; try discriminate E; injection E as E _; congruence.
Qed.

Lemma space_not_separator c :
  isSpace c = true -> (N.eqb c 44 || N.eqb c 59)%N = false.
Proof.
  intros H. apply isSpace_range in H.
  apply orb_false_iff. rewrite !N.eqb_neq. lia.
Qed.

Lemma space_not_period c : isSpace c = true -> N.eqb c 46 = false.
Proof. intros H. apply isSpace_range in H. apply N.eqb_neq. lia. Qed.

Lemma digit_not_period c : isDigit c = true -> N.eqb c 46 = false.
Proof. intros H. apply isDigit_spec in H. apply N.eqb_neq. lia. Qed.

(** The tail on a separator, "Art" and an article token. *)
Lemma fwd_tail art cw sw x y z pw sw0 ds ls pos cs :
  (forall pos cs k v,
     k (pos + List.length ds + List.length ls) [] cs = Some v ->
     matcher art pos (ds ++ ls) cs k = Some v) ->
  (cw = [] \/ cw = lit "," \/ cw = lit ";") ->
  Forall (fun c => isSpace c = true) sw ->
  toUpperAscii x = 65%N -> toUpperAscii y = 82%N -> toUpperAscii z = 84%N ->
  (pw = [] \/ pw = lit ".") ->
  Forall (fun c => isSpace c = true) sw0 ->
  ds <> [] -> Forall (fun c => isDigit c = true) ds ->
  matcher (law_first_tail art) pos
    (cw ++ sw ++ [x; y; z] ++ pw ++ sw0 ++ ds ++ ls) cs accept
  = Some ((2, ds ++ ls) :: cs).
Proof.
  intros Hart Hcw Fsw Hx Hy Hz Hp Fs0 Nd Fd.
  change (law_first_tail art)
    with (Seq (opt comma_semicolon)
         (Seq (star space)
         (Seq (Seq (chr_ci 65) (Seq (chr_ci 114) (chr_ci 116)))
         (Seq (opt period)
         (Seq (star space)
         (Seq (Group 2 art) Eol))))))%N.
  assert (Hd0 : exists d0 ds', ds = d0 :: ds' /\ isDigit d0 = true).
  { destruct ds as [|d0 ds']; [congruence|]. inversion Fd; subst. eauto. }
  destruct Hd0 as (d0 & ds' & Eds & Hd0).
  assert (T2 : forall pos cs,
            matcher (Seq (star space) (Seq (Group 2 art) Eol)) pos
              (sw0 ++ ds ++ ls) cs accept
            = Some ((2, ds ++ ls) :: cs)).
  { clear pos cs. intros pos cs. apply fwd_Seq. unfold star, space.
    apply fwd_greedy; [exact Fs0| |lia|].
    { rewrite Eds. simpl. now apply digit_not_space. }
    apply fwd_Seq, fwd_Group, Hart. apply fwd_Eol. unfold accept.
    rewrite firstn_whole by (rewrite length_app; lia). reflexivity. }
  assert (Sx : isSpace x = false /\ (N.eqb x 44 || N.eqb x 59)%N = false).
  { destruct (upper_a _ Hx) as [-> | ->]; split; reflexivity. }
  destruct Sx as [Sx Cx].
  assert (T1 : forall pos cs,
            matcher (Seq (star space)
                    (Seq (Seq (chr_ci 65) (Seq (chr_ci 114) (chr_ci 116)))
                    (Seq (opt period)
                    (Seq (star space)
                    (Seq (Group 2 art) Eol)))))%N pos
              (sw ++ x :: y :: z :: pw ++ sw0 ++ ds ++ ls) cs accept
            = Some ((2, ds ++ ls) :: cs)).
  { clear pos cs. intros pos cs. apply fwd_Seq. unfold star, space.
    apply fwd_greedy; [exact Fsw|exact Sx|lia|].
    apply fwd_Seq, fwd_Seq, fwd_Class; [rewrite Hx; reflexivity|].
    apply fwd_Seq, fwd_Class; [rewrite Hy; reflexivity|].
    apply fwd_Class; [rewrite Hz; reflexivity|].
    apply fwd_Seq. destruct Hp as [-> | ->].
    - cbn [app]. apply fwd_opt_skip; [|apply T2].
      intros d. cbn [matcher period]. destruct sw0 as [|s sw0'].
      + cbn [app]. rewrite Eds. cbn [app]. now rewrite (digit_not_period _ Hd0).
      + cbn [app]. inversion Fs0; subst. now rewrite space_not_period.
    - apply fwd_opt_Class; [reflexivity|apply T2]. }
  cbn [app]. apply fwd_Seq. destruct Hcw as [-> |[-> | ->]].
  - apply fwd_opt_skip; [|apply T1].
    intros d. cbn [app matcher comma_semicolon]. destruct sw as [|s sw'].
    + cbn [app]. now rewrite Cx.
    + cbn [app]. inversion Fsw; subst. now rewrite space_not_separator.
  - apply fwd_opt_Class; [reflexivity|apply T1].
  - apply fwd_opt_Class; [reflexivity|apply T1].
Qed.

(** A law-first citation: the law with a clean end, a separator, "Art" and
    an article token. *)
Lemma fwd_law_first art law cw sw x y z pw sw0 ds ls :
  sound art (keeps article_token) ->
  (forall pos cs k v,
     k (pos + List.length ds + List.length ls) [] cs = Some v ->
     matcher art pos (ds ++ ls) cs k = Some v) ->
  no_line_terminator law -> clean_end law = true ->
  (cw = [] \/ cw = lit "," \/ cw = lit ";") ->
  Forall (fun c => isSpace c = true) sw ->
  toUpperAscii x = 65%N -> toUpperAscii y = 82%N -> toUpperAscii z = 84%N ->
  (pw = [] \/ pw = lit ".") ->
  Forall (fun c => isSpace c = true) sw0 ->
  ds <> [] -> Forall (fun c => isDigit c = true) ds ->
  Forall (fun c => isLetter c = true) ls ->
  matcher (Seq Bol (Seq (Group 1 (plus_lazy dot)) (law_first_tail art))) 0
    (law ++ cw ++ sw ++ [x; y; z] ++ pw ++ sw0 ++ ds ++ ls) [] accept
  = Some [(2, ds ++ ls); (1, law)].
Proof.
  intros Ha Hart Lt Hl Hcw Fsw Hx Hy Hz Hp Fs0 Nd Fd Fl.
  destruct law as [|c w]; [discriminate Hl|].
  inversion Lt as [|? ? Hc Lw]; subst.
  apply fwd_Seq, fwd_Bol, fwd_Seq, fwd_Group. unfold plus_lazy, dot.
  change ((c :: w) ++ cw ++ sw ++ [x; y; z] ++ pw ++ sw0 ++ ds ++ ls)
    with (c :: w ++ cw ++ sw ++ [x; y; z] ++ pw ++ sw0 ++ ds ++ ls).
  apply fwd_lazy_plus.
  - now rewrite Hc.
  - eapply Forall_impl; [|exact Lw]. cbv beta. intros a Ha'. now rewrite Ha'.
  - intros i Hi. cbv beta. apply tail_fails; auto.
    assert (Ns : skipn i w <> []).
    { intros E. apply (f_equal (@List.length _)) in E.
      rewrite length_skipn in E. simpl in E. lia. }
    rewrite <- (clean_end_suffix (c :: firstn i w) Ns).
    cbn [app]. now rewrite firstn_skipn.
  - cbv beta. rewrite fwd_tail by auto. do 3 f_equal.
    change (c :: w ++ cw ++ sw ++ [x; y; z] ++ pw ++ sw0 ++ ds ++ ls)
      with ((c :: w) ++ cw ++ sw ++ [x; y; z] ++ pw ++ sw0 ++ ds ++ ls).
    f_equal. apply firstn_prefix. simpl. lia.
Qed.

(** ** Article-first citations, however "Art." is written *)

Lemma space_not_letter c : isSpace c = true -> isLetter c = false.
Proof.
  intros H. destruct (isLetter c) eqn:E; [|reflexivity].
  apply letter_not_space in E. congruence.
Qed.

Lemma fwd_format_article_before ds ls rest pos cs k v :
  ds <> [] ->
  Forall (fun c => isDigit c = true) ds ->
  Forall (fun c => isLetter c = true) ls ->
  stops isDigit rest -> stops isLetter rest ->
  k (pos + List.length ds + List.length ls) rest cs = Some v ->
  matcher FormatCitation.article pos (ds ++ ls ++ rest) cs k = Some v.
Proof.
  intros Nd Fd Fl Sd Sl Hk. unfold FormatCitation.article. cbn [seqs].
  apply fwd_Seq. unfold plus, digit. apply fwd_greedy; [exact Fd| | |].
  { destruct ls as [|l ls]; simpl; [exact Sd|].
    inversion Fl; subst. now apply letter_not_digit. }
  { destruct ds; [congruence|simpl; lia]. }
  apply fwd_Seq. unfold star, letter_ci. apply fwd_greedy; [exact Fl|exact Sl|lia|].
  apply fwd_opt_skip; [|exact Hk].
  intros d. destruct rest as [|s rest]; [reflexivity|]. simpl in Sl.
  assert (B : forall a, isLetter a = true ->
                N.eqb (toUpperAscii s) (toUpperAscii a) = false).
  { intros a Ha. destruct (N.eqb (toUpperAscii s) (toUpperAscii a)) eqn:E; [|reflexivity].
    apply (chr_ci_letter _ _ Ha) in E. congruence. }
  cbn [alts str_ci word_ci lit List.map list_ascii_of_string matcher chr_ci orelse].
  rewrite !B by reflexivity. reflexivity.
Qed.

(** The article-first expressions on "Art", a token, white space and a
    law. *)
Lemma fwd_article_first art x y z pw sw ds ls sw1 c t :
  (forall pos rest cs k v,
     stops isDigit rest -> stops isLetter rest ->
     k (pos + List.length ds + List.length ls) rest cs = Some v ->
     matcher art pos (ds ++ ls ++ rest) cs k = Some v) ->
  toUpperAscii x = 65%N -> toUpperAscii y = 82%N -> toUpperAscii z = 84%N ->
  (pw = [] \/ pw = lit ".") ->
  Forall (fun c => isSpace c = true) sw ->
  ds <> [] -> Forall (fun c => isDigit c = true) ds ->
  Forall (fun c => isLetter c = true) ls ->
  blank sw1 ->
  isSpace c = false -> no_line_terminator (c :: t) ->
  matcher (seqs [Bol; str_ci "Art"; opt period; star space; Group 1 art;
                 plus space; Group 2 (plus dot); Eol]) 0
    ([x; y; z] ++ pw ++ sw ++ (ds ++ ls) ++ sw1 ++ c :: t) [] accept
  = Some [(2, c :: t); (1, ds ++ ls)].
Proof.
  intros Hart Hx Hy Hz Hp Fsw Nd Fd Fl [Ns1 Fs1] Hc Lt.
  change (seqs [Bol; str_ci "Art"; opt period; star space; Group 1 art;
                plus space; Group 2 (plus dot); Eol])
    with (Seq Bol
         (Seq (Seq (chr_ci 65) (Seq (chr_ci 114) (chr_ci 116)))
         (Seq (opt period)
         (Seq (star space)
         (Seq (Group 1 art)
         (Seq (plus space)
         (Seq (Group 2 (plus dot)) Eol)))))))%N.
  assert (Hd0 : exists d0 ds', ds = d0 :: ds' /\ isDigit d0 = true).
  { destruct ds as [|d0 ds']; [congruence|]. inversion Fd; subst. eauto. }
  destruct Hd0 as (d0 & ds' & Eds & Hd0).
  assert (Hs1 : exists s1 sw1', sw1 = s1 :: sw1' /\ isSpace s1 = true).
  { destruct sw1 as [|s1 sw1']; [congruence|]. inversion Fs1; subst. eauto. }
  destruct Hs1 as (s1 & sw1' & Es1 & Hs1).
  assert (T : forall pos,
            matcher (Seq (star space)
                    (Seq (Group 1 art)
                    (Seq (plus space)
                    (Seq (Group 2 (plus dot)) Eol)))) pos
              (sw ++ (ds ++ ls) ++ sw1 ++ c :: t) [] accept
            = Some [(2, c :: t); (1, ds ++ ls)]).
  { intros pos. apply fwd_Seq. unfold star, space.
    apply fwd_greedy; [exact Fsw| |lia|].
    { rewrite Eds. simpl. now apply digit_not_space. }
    apply fwd_Seq, fwd_Group. rewrite <- app_assoc. apply Hart.
    { rewrite Es1. simpl. now apply space_not_digit. }
    { rewrite Es1. simpl. now apply space_not_letter. }
    apply fwd_Seq. unfold plus.
    apply fwd_greedy; [exact Fs1|exact Hc|rewrite Es1; simpl; lia|].
    apply fwd_Seq, fwd_Group. unfold dot.
    apply fwd_greedy_all; [|simpl; lia|].
    { eapply Forall_impl; [|exact Lt]. cbv beta. intros a Ha. now rewrite Ha. }
    apply fwd_Eol. unfold accept.
    rewrite (@firstn_whole _ (c :: t)) by lia.
    rewrite app_assoc, (@firstn_prefix _ (ds ++ ls)) by (rewrite length_app; lia).
    reflexivity. }
  apply fwd_Seq, fwd_Bol. cbn [app].
  apply fwd_Seq, fwd_Seq, fwd_Class; [rewrite Hx; reflexivity|].
  apply fwd_Seq, fwd_Class; [rewrite Hy; reflexivity|].
  apply fwd_Class; [rewrite Hz; reflexivity|].
  apply fwd_Seq. destruct Hp as [-> | ->].
  - cbn [app]. apply fwd_opt_skip; [|apply T].
    intros d. cbn [matcher period].
    destruct sw as [|s sw'].
    + cbn [app]. rewrite Eds. cbn [app]. now rewrite (digit_not_period _ Hd0).
    + cbn [app]. inversion Fsw; subst. now rewrite space_not_period.
  - apply fwd_opt_Class; [reflexivity|apply T].
Qed.

(** X12. [format_citation] puts an article-first citation into one spelling:
    however "Art" is written (upper or lower case, with or without the period
    and the white space after it) and whatever white space stands before the
    law, the pinpoint format gives "Art. <token>", the short format adds the
    law cut at its first opening parenthesis, and every other format, unknown
    or missing, gives "Art. <token> <law>". *)
Theorem format_article_first f citation w a sw1 law :
  art_word w -> article_token a -> blank sw1 ->
  law <> [] -> trimmed law -> no_line_terminator law ->
  trim citation = w ++ a ++ sw1 ++ law ->
  let r := FormatCitation.formatCitationTool (format_as f citation) in
  (f = Some (lit "pinpoint") -> FormatCitation.formatted r = lit "Art. " ++ a) /\
  (f = Some (lit "short") ->
     FormatCitation.formatted r
     = lit "Art. " ++ a ++ lit " " ++ trim (FormatCitation.before_paren law)) /\
  (f <> Some (lit "pinpoint") -> f <> Some (lit "short") ->
     FormatCitation.formatted r = lit "Art. " ++ a ++ lit " " ++ law).
Proof.
  intros (x & y & z & pw & sw & -> & Hx & Hy & Hz & Hp & Fsw)
         (ds & ls & -> & Nd & Fd & Fl) Hb Nt Tt Lt Hc.
  destruct (trimmed_cons Tt Nt) as (c & t & -> & Hs & _).
  unfold FormatCitation.formatCitationTool, format_as.
  cbn [FormatCitation.input_citation FormatCitation.input_format FormatCitation.formatted].
  rewrite Hc.
  replace (([x; y; z] ++ pw ++ sw) ++ (ds ++ ls) ++ sw1 ++ c :: t)
    with ([x; y; z] ++ pw ++ sw ++ (ds ++ ls) ++ sw1 ++ c :: t)
    by (now rewrite <- !app_assoc).
  change FormatCitation.artFirst_re
    with (seqs [Bol; str_ci "Art"; opt period; star space;
                Group 1 FormatCitation.article; plus space; Group 2 (plus dot); Eol]).
  rewrite (exec_at_start _ _
             (@fwd_article_first FormatCitation.article x y z pw sw ds ls sw1 c t
                (fun pos rest cs k v => @fwd_format_article_before ds ls rest pos cs k v Nd Fd Fl)
                Hx Hy Hz Hp Fsw Nd Fd Fl Hb Hs Lt)).
  change (group 1 [(2, c :: t); (1, ds ++ ls)]) with (ds ++ ls).
  change (group 2 [(2, c :: t); (1, ds ++ ls)]) with (c :: t).
  assert (E : exists x y, ds ++ ls = x :: y).
  { destruct ds as [|d0 ds']; [congruence|]. simpl. eauto. }
  destruct E as (x0 & y0 & E). rewrite E.
  repeat split.
  - intros ->. reflexivity.
  - intros ->. reflexivity.
  - intros N1 N2.
    destruct f as [f|]; [|reflexivity].
    destruct (jseqb f (lit "short")) eqn:E1.
    { apply jseqb_eq in E1. congruence. }
    destruct (jseqb f (lit "pinpoint")) eqn:E2.
    { apply jseqb_eq in E2. congruence. }
    reflexivity.
Qed.

Lemma format_article_first_sample :
  let r := FormatCitation.formatCitationTool
             (format_as (Some (lit "short")) (lit " ART 6   Datenschutzgesetz (DSG)")) in
  (Some (lit "short") = Some (lit "pinpoint") ->
     FormatCitation.formatted r = lit "Art. " ++ lit "6") /\
  (Some (lit "short") = Some (lit "short") ->
     FormatCitation.formatted r
     = lit "Art. " ++ lit "6" ++ lit " "
       ++ trim (FormatCitation.before_paren (lit "Datenschutzgesetz (DSG)"))) /\
  (Some (lit "short") <> Some (lit "pinpoint") ->
   Some (lit "short") <> Some (lit "short") ->
     FormatCitation.formatted r
     = lit "Art. " ++ lit "6" ++ lit " " ++ lit "Datenschutzgesetz (DSG)").
Proof.
  apply (@format_article_first (Some (lit "short"))
           (lit " ART 6   Datenschutzgesetz (DSG)") (lit "ART ") (lit "6") (lit "   ")
           (lit "Datenschutzgesetz (DSG)")).
  - exists 65%N, 82%N, 84%N, [], (lit " ").
    repeat split; auto. repeat constructor.
  - exists (lit "6"), []. repeat split; [discriminate|repeat constructor|constructor].
  - split; [discriminate|repeat constructor].
  - discriminate.
  - reflexivity.
  - repeat constructor.
  - reflexivity.
Defined.

(** X13. The parser reads an article-first citation however "Art" is
    written (upper or lower case, with or without the period and the white
    space after it): the token, digits and then letters of whatever kind, is
    the article reference, and the law after the white space is the document
    reference. *)
Theorem parse_article_first citation w a sw1 law :
  art_word w -> article_token a -> blank sw1 ->
  law <> [] -> trimmed law -> no_line_terminator law ->
  trim citation = w ++ a ++ sw1 ++ law ->
  parseCitation citation = Some {| documentRef := law; articleRef := Some a |}.
Proof.
  intros (x & y & z & pw & sw & -> & Hx & Hy & Hz & Hp & Fsw)
         (ds & ls & -> & Nd & Fd & Fl) Hb Nt Tt Lt Hc.
  destruct (trimmed_cons Tt Nt) as (c & t & -> & Hs & _).
  unfold parseCitation. rewrite Hc.
  replace (([x; y; z] ++ pw ++ sw) ++ (ds ++ ls) ++ sw1 ++ c :: t)
    with ([x; y; z] ++ pw ++ sw ++ (ds ++ ls) ++ sw1 ++ c :: t)
    by (now rewrite <- !app_assoc).
  change ValidateCitation.artFirst_re
    with (seqs [Bol; str_ci "Art"; opt period; star space;
                Group 1 ValidateCitation.article; plus space; Group 2 (plus dot); Eol]).
  rewrite (exec_at_start _ _
             (@fwd_article_first ValidateCitation.article x y z pw sw ds ls sw1 c t
                (fun pos rest cs k v Sd Sl =>
                   @fwd_parse_article ds ls rest pos cs k v Nd Fd Fl Sd Sl)
                Hx Hy Hz Hp Fsw Nd Fd Fl Hb Hs Lt)).
  change (group 1 [(2, c :: t); (1, ds ++ ls)]) with (ds ++ ls).
  change (group 2 [(2, c :: t); (1, ds ++ ls)]) with (c :: t).
  now rewrite Tt.
Qed.

Lemma parse_article_first_sample :
  parseCitation (lit " art.6quaterb  OR ")
  = Some {| documentRef := lit "OR"; articleRef := Some (lit "6quaterb") |}.
Proof.
  apply (@parse_article_first (lit " art.6quaterb  OR ") (lit "art.") (lit "6quaterb")
           (lit "  ") (lit "OR")).
  - exists 97%N, 114%N, 116%N, (lit "."), [].
    repeat split; auto.
  - exists (lit "6"), (lit "quaterb").
    repeat split; [discriminate|repeat constructor|repeat constructor].
  - split; [discriminate|repeat constructor].
  - discriminate.
  - reflexivity.
  - repeat constructor.
  - reflexivity.
Defined.

(** ** Law-first citations *)

Lemma sound_format_article : sound FormatCitation.article (keeps article_token).
Proof.
  unfold FormatCitation.article. cbn [seqs].
  eapply sound_weaken.
  - apply sound_Seq; [apply sound_plus_class|].
    apply sound_Seq; apply sound_within with (q := isLetter).
    + exact within_letter_ci.
    + cbn [within opt alts]. split; apply within_str_ci; reflexivity.
  - cbv beta. intros w cs cs' (w1 & w23 & cs1 & -> & [[N1 F1] ->] & H).
    destruct H as (w2 & w3 & cs2 & -> & [F2 ->] & [F3 ->]).
    split; [|reflexivity]. exists w1, (w2 ++ w3). repeat split; auto.
    now apply Forall_app.
Qed.

Lemma fwd_format_article_end ds ls pos cs k v :
  ds <> [] ->
  Forall (fun c => isDigit c = true) ds ->
  Forall (fun c => isLetter c = true) ls ->
  k (pos + List.length ds + List.length ls) [] cs = Some v ->
  matcher FormatCitation.article pos (ds ++ ls) cs k = Some v.
Proof.
  intros Nd Fd Fl Hk. unfold FormatCitation.article. cbn [seqs].
  apply fwd_Seq. unfold plus, digit. apply fwd_greedy; [exact Fd| | |].
  { destruct ls as [|l ls]; simpl; [reflexivity|].
    inversion Fl; subst. now apply letter_not_digit. }
  { destruct ds; [congruence|simpl; lia]. }
  apply fwd_Seq. unfold star, letter_ci. apply fwd_greedy_all; [exact Fl|lia|].
  apply fwd_opt_skip; [|exact Hk].
  intros d. reflexivity.
Qed.

Lemma fwd_parse_article_end ds ls pos cs k v :
  ds <> [] ->
  Forall (fun c => isDigit c = true) ds ->
  Forall (fun c => isLetter c = true) ls ->
  k (pos + List.length ds + List.length ls) [] cs = Some v ->
  matcher ValidateCitation.article pos (ds ++ ls) cs k = Some v.
Proof.
  intros Nd Fd Fl Hk. rewrite <- (app_nil_r ls).
  apply fwd_parse_article; auto; reflexivity.
Qed.

Lemma parse_artFirst_starts_with_art s m :
  exec ValidateCitation.artFirst_re s = Some m -> starts_with_art s = true.
Proof.
  unfold ValidateCitation.artFirst_re. cbn [seqs]. rewrite exec_anchored.
  apply match_word_art.
Qed.

Lemma format_artFirst_starts_with_art s m :
  exec FormatCitation.artFirst_re s = Some m -> starts_with_art s = true.
Proof.
  unfold FormatCitation.artFirst_re. cbn [seqs]. rewrite exec_anchored.
  apply match_word_art.
Qed.

Lemma not_started (o : option captures) s :
  (forall m, o = Some m -> starts_with_art s = true) ->
  starts_with_art s = false -> o = None.
Proof.
  intros H N. destruct o as [m|]; [|reflexivity].
  rewrite (H m eq_refl) in N. discriminate.
Qed.

(** The law of a trimmed law-first citation is itself trimmed when its end
    is clean. *)
Lemma law_trimmed citation law rest :
  trim citation = law ++ rest -> clean_end law = true -> trimmed law.
Proof.
  intros Hc Hl.
  destruct (clean_end_head _ Hl) as (c & t & Er & Hs & _).
  apply trim_fixed. split.
  - pose proof (trim_idempotent citation) as T. apply trim_fixed in T.
    destruct T as [T _]. rewrite Hc in T. apply dropWhile_fixed in T.
    apply dropWhile_fixed.
    destruct law as [|x law]; [now left|]. right.
    destruct T as [T|(c' & s' & E & Hc')]; [discriminate T|].
    simpl in E. injection E as <- _. eauto.
  - apply dropWhile_fixed. right. eauto.
Qed.

(** What the two expressions of the parser find in a law-first citation. *)
Lemma parse_law_first_match citation law sep w a :
  art_word w -> article_token a ->
  no_line_terminator law -> clean_end law = true -> separator sep ->
  trim citation = law ++ sep ++ w ++ a ->
  starts_with_art (trim citation) = false ->
  exec ValidateCitation.artFirst_re (trim citation) = None /\
  exec ValidateCitation.artLast_re (trim citation) = Some [(2, a); (1, law)].
Proof.
  intros (x & y & z & pw & sw0 & -> & Hx & Hy & Hz & Hp & Fs0)
         (ds & ls & -> & Nd & Fd & Fl) Lt Hl (cw & sw & -> & Hcw & Fsw) Hc Hs.
  split.
  { exact (@not_started _ _ (@parse_artFirst_starts_with_art (trim citation)) Hs). }
  rewrite Hc.
  replace (law ++ (cw ++ sw) ++ ([x; y; z] ++ pw ++ sw0) ++ ds ++ ls)
    with (law ++ cw ++ sw ++ [x; y; z] ++ pw ++ sw0 ++ ds ++ ls)
    by (now rewrite <- !app_assoc).
  change ValidateCitation.artLast_re
    with (Seq Bol (Seq (Group 1 (plus_lazy dot))
                       (law_first_tail ValidateCitation.article))).
  apply exec_at_start.
  exact (@fwd_law_first ValidateCitation.article law cw sw x y z pw sw0 ds ls
           sound_parse_article
           (fun pos cs k v => @fwd_parse_article_end ds ls pos cs k v Nd Fd Fl)
           Lt Hl Hcw Fsw Hx Hy Hz Hp Fs0 Nd Fd Fl).
Qed.

(** What the two expressions of the formatter find in it. *)
Lemma format_law_first_match citation law sep w a :
  art_word w -> article_token a ->
  no_line_terminator law -> clean_end law = true -> separator sep ->
  trim citation = law ++ sep ++ w ++ a ->
  starts_with_art (trim citation) = false ->
  exec FormatCitation.artFirst_re (trim citation) = None /\
  exec FormatCitation.artLast_re (trim citation) = Some [(2, a); (1, law)].
Proof.
  intros (x & y & z & pw & sw0 & -> & Hx & Hy & Hz & Hp & Fs0)
         (ds & ls & -> & Nd & Fd & Fl) Lt Hl (cw & sw & -> & Hcw & Fsw) Hc Hs.
  split.
  { exact (@not_started _ _ (@format_artFirst_starts_with_art (trim citation)) Hs). }
  rewrite Hc.
  replace (law ++ (cw ++ sw) ++ ([x; y; z] ++ pw ++ sw0) ++ ds ++ ls)
    with (law ++ cw ++ sw ++ [x; y; z] ++ pw ++ sw0 ++ ds ++ ls)
    by (now rewrite <- !app_assoc).
  change FormatCitation.artLast_re
    with (Seq Bol (Seq (Group 1 (plus_lazy dot))
                       (law_first_tail FormatCitation.article))).
  apply exec_at_start.
  exact (@fwd_law_first FormatCitation.article law cw sw x y z pw sw0 ds ls
           sound_format_article
           (fun pos cs k v => @fwd_format_article_end ds ls pos cs k v Nd Fd Fl)
           Lt Hl Hcw Fsw Hx Hy Hz Hp Fs0 Nd Fd Fl).
Qed.

(** X14. A law-first citation, "<law>, Art. <token>" with a comma, a
    semicolon or nothing before the white space and with "Art" written in
    whatever way, is parsed into the law as document reference and the token
    as article reference, when the law has no line break, ends in no white
    space, comma or semicolon, and the citation does not itself begin with
    "art": the lazy group of the expression stops at the end of the law. *)
Theorem parse_law_first citation law sep w a :
  art_word w -> article_token a ->
  no_line_terminator law -> clean_end law = true -> separator sep ->
  trim citation = law ++ sep ++ w ++ a ->
  starts_with_art (trim citation) = false ->
  parseCitation citation = Some {| documentRef := law; articleRef := Some a |}.
Proof.
  intros Hw Tok Lt Hl Hsep Hc Hs.
  destruct (@parse_law_first_match citation law sep w a Hw Tok Lt Hl Hsep Hc Hs) as [E1 E2].
  unfold parseCitation. rewrite E1, E2.
  change (group 1 [(2, a); (1, law)]) with law.
  change (group 2 [(2, a); (1, law)]) with a.
  now rewrite (law_trimmed _ _ _ Hc Hl).
Qed.

Lemma parse_law_first_sample :
  parseCitation (lit "Bundesgesetz zum Datenschutz (DSG); art 12bis ")
  = Some {| documentRef := lit "Bundesgesetz zum Datenschutz (DSG)";
            articleRef := Some (lit "12bis") |}.
Proof.
  apply (@parse_law_first _ (lit "Bundesgesetz zum Datenschutz (DSG)")
           (lit "; ") (lit "art ") (lit "12bis")).
  - exists 97%N, 114%N, 116%N, [], (lit " "). repeat split; auto. repeat constructor.
  - exists (lit "12"), (lit "bis").
    repeat split; [discriminate|repeat constructor|repeat constructor].
  - repeat constructor.
  - reflexivity.
  - exists (lit ";"), (lit " "). repeat split; [auto|repeat constructor].
  - reflexivity.
  - reflexivity.
Defined.

(** X15. [format_citation] turns a law-first citation round: on
    "<law>, Art. <token>", under the conditions of X14, the full format (or an
    unknown or missing one) gives "Art. <token> <law>", the pinpoint format
    "Art. <token>", and the short format cuts the law at its first opening
    parenthesis. *)
Theorem format_law_first f citation law sep w a :
  art_word w -> article_token a ->
  no_line_terminator law -> clean_end law = true -> separator sep ->
  trim citation = law ++ sep ++ w ++ a ->
  starts_with_art (trim citation) = false ->
  let r := FormatCitation.formatCitationTool (format_as f citation) in
  (f = Some (lit "pinpoint") -> FormatCitation.formatted r = lit "Art. " ++ a) /\
  (f = Some (lit "short") ->
     FormatCitation.formatted r
     = lit "Art. " ++ a ++ lit " " ++ trim (FormatCitation.before_paren law)) /\
  (f <> Some (lit "pinpoint") -> f <> Some (lit "short") ->
     FormatCitation.formatted r = lit "Art. " ++ a ++ lit " " ++ law).
Proof.
  intros Hw Tok Lt Hl Hsep Hc Hs.
  destruct (@format_law_first_match citation law sep w a Hw Tok Lt Hl Hsep Hc Hs) as [E1 E2].
  unfold FormatCitation.formatCitationTool, format_as.
  cbn [FormatCitation.input_citation FormatCitation.input_format FormatCitation.formatted].
  rewrite E1, E2. cbn [option_map].
  change (group 1 [(2, a); (1, law)]) with law.
  change (group 2 [(2, a); (1, law)]) with a.
  pose proof (article_token_nonempty Tok) as Na.
  destruct a as [|a0 a']; [congruence|].
  repeat split.
  - intros ->. reflexivity.
  - intros ->. reflexivity.
  - intros N1 N2.
    destruct f as [f|]; [|reflexivity].
    destruct (jseqb f (lit "short")) eqn:F1.
    { apply jseqb_eq in F1. congruence. }
    destruct (jseqb f (lit "pinpoint")) eqn:F2.
    { apply jseqb_eq in F2. congruence. }
    reflexivity.
Qed.

Lemma format_law_first_sample :
  let r := FormatCitation.formatCitationTool (format_as None (lit " DSG, ART.6 ")) in
  (None = Some (lit "pinpoint") -> FormatCitation.formatted r = lit "Art. " ++ lit "6") /\
  (None = Some (lit "short") ->
     FormatCitation.formatted r
     = lit "Art. " ++ lit "6" ++ lit " " ++ trim (FormatCitation.before_paren (lit "DSG"))) /\
  (None <> Some (lit "pinpoint") -> None <> Some (lit "short") ->
     FormatCitation.formatted r = lit "Art. " ++ lit "6" ++ lit " " ++ lit "DSG").
Proof.
  apply (@format_law_first None (lit " DSG, ART.6 ") (lit "DSG") (lit ", ") (lit "ART.")
           (lit "6")).
  - exists 65%N, 82%N, 84%N, (lit "."), []. repeat split; auto.
  - exists (lit "6"), []. repeat split; [discriminate|repeat constructor|constructor].
  - repeat constructor.
  - reflexivity.
  - exists (lit ","), (lit " "). repeat split; [auto|repeat constructor].
  - reflexivity.
  - reflexivity.
Defined.

(** ** Citations by the id of a document *)

Lemma select_provision_stored db docId articleRef p :
  In p (Store.legal_provisions db) -> matching_provision docId articleRef p ->
  exists q,
    In q (Store.legal_provisions db) /\ matching_provision docId articleRef q /\
    select_provision docId articleRef (lit "art" ++ articleRef) articleRef db
    = Ok (Some (Store.provision_ref q)).
Proof.
  intros Hin Hp. unfold select_provision.
  destruct (find _ (Store.legal_provisions db)) as [q|] eqn:E.
  - apply find_some in E. destruct E as [Hq Ht]. apply select_provision_test in Ht.
    exists q. repeat split; auto; apply Ht.
  - apply (find_none _ _ E) in Hin. apply select_provision_test in Hp.
    cbv beta in Hin. congruence.
Qed.

(** X16. From the citation to the verdict: "Art. <token> <id>", white space
    around it apart, is valid whenever the store has a document with that id
    and a provision of it that answers to the token; the result names the
    document by id, title and status, gives "Art. <token> <title>" as the
    normalized citation, carries the stored reference of a provision of the
    document that answers to the token, and warns about the status only. *)
Theorem citation_by_id_is_valid db d p a citation :
  In d (Store.legal_documents db) ->
  Store.id d <> [] -> trimmed (Store.id d) -> no_line_terminator (Store.id d) ->
  article_token a ->
  In p (Store.legal_provisions db) -> matching_provision (Store.id d) a p ->
  trim citation = lit "Art. " ++ a ++ lit " " ++ Store.id d ->
  exists doc q,
    In doc (Store.legal_documents db) /\ Store.id doc = Store.id d /\
    In q (Store.legal_provisions db) /\ matching_provision (Store.id d) a q /\
    validateCitationTool (ask citation) db
    = answer {| valid := true;
                citation := citation;
                normalized := Some (lit "Art. " ++ a ++ lit " " ++ Store.title doc);
                document_id := Some (Store.id d);
                document_title := Some (Store.title doc);
                provision_ref := Some (Store.provision_ref q);
                status := Some (Store.status doc);
                warnings := status_warnings (Store.status doc) |} db.
Proof.
  intros Hd Ne Tt Lt Tok Hp Hm Hc.
  pose proof (@parse_article_first_run citation a (Store.id d) Tok Ne Tt Lt Hc) as P.
  pose proof (resolve_by_id db d Hd Ne Tt) as R.
  destruct (select_document_found db d Hd) as (doc & Hs & Hid).
  destruct (select_provision_stored db Hp Hm) as (q & Hq & Hmq & Hr).
  exists doc, q.
  split.
  { unfold select_document in Hs. injection Hs as Hs. apply find_some in Hs. tauto. }
  split; [exact Hid|]. split; [exact Hq|]. split; [exact Hmq|].
  erewrite validate_resolved; [|exact P|exact R|exact Ne|exact Hs].
  cbv zeta. cbn [articleRef].
  pose proof (article_token_nonempty Tok) as Na.
  destruct a as [|a0 a]; [congruence|]. now rewrite Hr.
Qed.

Lemma citation_by_id_is_valid_sample :
  exists doc q,
    In doc (Store.legal_documents Sample.db) /\
    Store.id doc = Store.id Sample.dsg /\
    In q (Store.legal_provisions Sample.db) /\
    matching_provision (Store.id Sample.dsg) (lit "6") q /\
    validateCitationTool (ask (lit " Art. 6 sr-235-1")) Sample.db
    = answer {| valid := true;
                citation := lit " Art. 6 sr-235-1";
                normalized := Some (lit "Art. " ++ lit "6" ++ lit " " ++ Store.title doc);
                document_id := Some (Store.id Sample.dsg);
                document_title := Some (Store.title doc);
                provision_ref := Some (Store.provision_ref q);
                status := Some (Store.status doc);
                warnings := status_warnings (Store.status doc) |} Sample.db.
Proof.
  apply (@citation_by_id_is_valid Sample.db Sample.dsg Sample.dsg_art6 (lit "6")
           (lit " Art. 6 sr-235-1")).
  - simpl. auto.
  - discriminate.
  - reflexivity.
  - repeat constructor.
  - exists (lit "6"), []. repeat split; [discriminate|repeat constructor|constructor].
  - simpl. auto.
  - vm_compute. auto.
  - reflexivity.
Defined.

(** X17. A citation that is the id of a document of the store, and in which
    "art" does not occur, is valid: it is normalized to the title of the
    document, names no provision, and warns about the status only. *)
Theorem bare_id_is_valid db d citation :
  In d (Store.legal_documents db) ->
  Store.id d <> [] ->
  trim citation = Store.id d ->
  mentions_art (Store.id d) = false ->
  exists doc,
    In doc (Store.legal_documents db) /\ Store.id doc = Store.id d /\
    validateCitationTool (ask citation) db
    = answer {| valid := true;
                citation := citation;
                normalized := Some (Store.title doc);
                document_id := Some (Store.id d);
                document_title := Some (Store.title doc);
                provision_ref := None;
                status := Some (Store.status doc);
                warnings := status_warnings (Store.status doc) |} db.
Proof.
  intros Hd Ne Hc Hn.
  assert (Tt : trimmed (Store.id d)).
  { unfold trimmed. rewrite <- Hc. apply trim_idempotent. }
  assert (P : parseCitation citation
              = Some {| documentRef := Store.id d; articleRef := None |}).
  { rewrite <- Hc in Hn. destruct (parse_without_art _ Hn) as (E1 & E2 & E3).
    unfold parseCitation. now rewrite E1, E2, E3, Hc. }
  pose proof (resolve_by_id db d Hd Ne Tt) as R.
  destruct (select_document_found db d Hd) as (doc & Hs & Hid).
  exists doc. split.
  { unfold select_document in Hs. injection Hs as Hs. apply find_some in Hs. tauto. }
  split; [exact Hid|].
  erewrite validate_resolved; [|exact P|exact R|exact Ne|exact Hs].
  reflexivity.
Qed.

Lemma bare_id_is_valid_sample :
  exists doc,
    In doc (Store.legal_documents Sample.db) /\
    Store.id doc = Store.id Sample.dsg /\
    validateCitationTool (ask (lit "sr-235-1 ")) Sample.db
    = answer {| valid := true;
                citation := lit "sr-235-1 ";
                normalized := Some (Store.title doc);
                document_id := Some (Store.id Sample.dsg);
                document_title := Some (Store.title doc);
                provision_ref := None;
                status := Some (Store.status doc);
                warnings := status_warnings (Store.status doc) |} Sample.db.
Proof.
  apply (@bare_id_is_valid Sample.db Sample.dsg (lit "sr-235-1 ")).
  - simpl. auto.
  - discriminate.
  - reflexivity.
  - reflexivity.
Defined.

(** ** LIKE with a pattern between two [%] *)

Lemma like_any (y : jsstring) : Store.like [(37%N : code_unit)] y = true.
Proof.
  induction y as [|c y IH]; [reflexivity|].
  rewrite like_percent_cons, IH. apply orb_true_r.
Qed.

Lemma like_percent_skip (p x s : jsstring) :
  Store.like p s = true -> Store.like ((37%N : code_unit) :: p) (x ++ s) = true.
Proof.
  intros H. induction x as [|c x IH]; cbn [app].
  - destruct s as [|c s].
    + now rewrite like_percent_nil.
    + rewrite like_percent_cons, H. reflexivity.
  - rewrite like_percent_cons, IH. apply orb_true_r.
Qed.

Lemma like_percent_inv (p : jsstring) :
  forall s : jsstring,
    Store.like ((37%N : code_unit) :: p) s = true ->
    exists x s', s = x ++ s' /\ Store.like p s' = true.
Proof.
  induction s as [|c s IH]; intros H.
  - rewrite like_percent_nil in H. exists [], []. auto.
  - rewrite like_percent_cons in H. apply orb_true_iff in H. destruct H as [H|H].
    + exists [], (c :: s). auto.
    + destruct (IH H) as (x & s' & -> & Hs). exists (c :: x), s'. auto.
Qed.

Lemma like_nil_inv (s : jsstring) : Store.like [] s = true -> s = [].
Proof. destruct s; [reflexivity|discriminate]. Qed.

Lemma like_app (q t : jsstring) :
  Store.like q t = true ->
  forall p s : jsstring,
    Store.like p s = true -> Store.like (p ++ q) (s ++ t) = true.
Proof.
  intros Hq. induction p as [|c p IH]; intros s H.
  - apply like_nil_inv in H. subst s. exact Hq.
  - destruct (N.eqb c 37) eqn:Ec.
    + apply N.eqb_eq in Ec. subst c.
      apply like_percent_inv in H. destruct H as (x & s' & -> & Hs).
      rewrite <- app_assoc. cbn [app]. apply like_percent_skip. now apply IH.
    + rewrite (@like_char c p s Ec) in H. cbn [app]. rewrite (@like_char c (p ++ q) (s ++ t) Ec).
      destruct s as [|a s]; [discriminate|]. cbn [app].
      apply andb_true_iff in H. destruct H as [H1 H2].
      rewrite H1. now apply IH.
Qed.

Lemma like_refl (p : jsstring) : Store.like p p = true.
Proof.
  induction p as [|c p IH]; [reflexivity|].
  destruct (N.eqb c 37) eqn:Ec.
  - apply N.eqb_eq in Ec. subst c. now apply (like_percent_skip p [37%N] p).
  - rewrite (@like_char c p (c :: p) Ec), N.eqb_refl, IH, orb_true_r. reflexivity.
Qed.

(** A pattern between two [%] matches every string that contains it, in
    whatever ASCII case. *)
Lemma like_contains (t t' x y : jsstring) :
  Store.lower t' = Store.lower t ->
  Store.like (StatuteId.percent t) (x ++ t' ++ y) = true.
Proof.
  intros E. unfold StatuteId.percent.
  change (lit "%" ++ t ++ lit "%") with ((37%N : code_unit) :: (t ++ [(37%N : code_unit)])).
  apply like_percent_skip. apply like_app; [apply like_any|].
  rewrite <- like_lower, E. apply like_refl.
Qed.

(** ** The resolver on a part of a title *)

Lemma select_by_title_hit (p : jsstring) db d :
  In d (Store.legal_documents db) ->
  Store.like p (Store.title d) = true \/
  Store.col (Store.like p) (Store.short_name d) = true \/
  Store.col (Store.like p) (Store.title_en d) = true ->
  StatuteId.select_by_title p p p db <> Ok None.
Proof.
  intros Hd H. unfold StatuteId.select_by_title, StatuteId.first_id. intros F.
  destruct (find _ (Store.legal_documents db)) as [d'|] eqn:Ef; [discriminate|].
  apply (find_none _ _ Ef) in Hd.
  apply orb_false_iff in Hd. destruct Hd as [Hd H3].
  apply orb_false_iff in Hd. destruct Hd as [H1 H2].
  destruct H as [H|[H|H]]; congruence.
Qed.

(** X18. The resolver finds a document by a part of its name: when the
    reference, white space around it apart, occurs in the title, the short
    name or the English title of a document, in whatever ASCII case, the
    answer is never NotFound, and it is the id of a document of the store.
    This is stated for a reference and a name of plain text, which SQLite and
    JavaScript cut into the same characters, and for a reference short enough
    for its pattern, at three bytes a character at most and two [%], to stay
    within the 50,000 bytes that SQLite accepts in a LIKE pattern. *)
Theorem resolver_finds_by_title db input d x y t' :
  trim input <> [] ->
  plain_text (trim input) ->
  (3 * N.of_nat (List.length (trim input)) + 2 <= 50000)%N ->
  In d (Store.legal_documents db) ->
  Store.title d = x ++ t' ++ y \/
  Store.short_name d = Some (x ++ t' ++ y) \/
  Store.title_en d = Some (x ++ t' ++ y) ->
  plain_text (x ++ t' ++ y) ->
  Store.lower t' = Store.lower (trim input) ->
  exists id d',
    StatuteId.resolveDocumentId input db = (Ok (Some id), db) /\
    In d' (Store.legal_documents db) /\ Store.id d' = id.
Proof.
  intros Ne _ _ Hd Ht _ El.
  destruct (resolveDocumentId_run input db) as (o & Ho & Hin).
  destruct o as [id|].
  { destruct (Hin id eq_refl) as (d' & Hd' & Hid). exists id, d'. auto. }
  exfalso. revert Ho. unfold StatuteId.resolveDocumentId.
  destruct (trim input) as [|c t] eqn:Et; [congruence|].
  assert (F : StatuteId.select_by_title (StatuteId.percent (c :: t))
                (StatuteId.percent (c :: t)) (StatuteId.percent (c :: t)) db
              <> Ok None).
  { apply select_by_title_hit with (d := d); [exact Hd|].
    pose proof (like_contains (c :: t) t' x y El) as L.
    destruct Ht as [E|[E|E]]; rewrite E; cbn [Store.col]; auto. }
  unfold bind, get, ret.
  destruct (StatuteId.select_by_id (c :: t) db) as [[i|]|e]; try discriminate.
  destruct (exec StatuteId.srNumber_re (c :: t)) as [srMatch|].
  - destruct (StatuteId.select_by_sr _ _ db) as [[i|]|e]; try discriminate.
    destruct (StatuteId.select_by_title _ _ _ db) as [[i|]|e]; try discriminate.
    congruence.
  - destruct (StatuteId.select_by_title _ _ _ db) as [[i|]|e]; try discriminate.
    congruence.
Qed.

Lemma resolver_finds_by_title_sample :
  exists id d',
    StatuteId.resolveDocumentId (lit " datenschutz ") Sample.db = (Ok (Some id), Sample.db) /\
    In d' (Store.legal_documents Sample.db) /\ Store.id d' = id.
Proof.
  apply (@resolver_finds_by_title Sample.db (lit " datenschutz ") Sample.dsg
           [] (lit "gesetz") (lit "Datenschutz")).
  - discriminate.
  - vm_compute. repeat constructor.
  - vm_compute. discriminate.
  - simpl. auto.
  - left. reflexivity.
  - vm_compute. repeat constructor.
  - reflexivity.
Defined.

(** ** SR numbers *)

Lemma dotted_cons (g : jsstring) groups :
  dotted (g :: groups) = (46%N : code_unit) :: g ++ dotted groups.
Proof. reflexivity. Qed.

Lemma stops_digit_dotted groups : stops isDigit (dotted groups).
Proof. destruct groups; reflexivity. Qed.

Lemma fwd_star_groups k v cs :
  forall (groups : list jsstring) fuel pos,
    Forall (fun g => g <> [] /\ Forall (fun c => isDigit c = true) g) groups ->
    List.length groups < fuel ->
    k (pos + List.length (dotted groups)) [] cs = Some v ->
    repeatMatcher (matcher (Seq period (plus digit))) true fuel 0 None pos
      (dotted groups) cs k = Some v.
Proof.
  induction groups as [|g groups IH]; intros fuel pos F Lf Hk;
    (destruct fuel as [|fuel]; [simpl in Lf; lia|]);
    cbn [repeatMatcher max_is_zero dec_max Nat.ltb Nat.leb].
  - change (dotted []) with (@nil code_unit) in *.
    simpl in Hk. rewrite Nat.add_0_r in Hk. cbn [matcher orelse]. exact Hk.
  - inversion F as [|? ? [Ng Fg] Fgs]; subst.
    match goal with |- orelse ?X _ = _ => assert (E : X = Some v) end;
      [|rewrite E; reflexivity].
    rewrite dotted_cons in *. apply fwd_Seq, fwd_Class; [reflexivity|].
    unfold plus, digit. apply fwd_greedy; [exact Fg|apply stops_digit_dotted| |].
    { destruct g; [congruence|simpl; lia]. }
    cbv beta.
    replace (S pos + List.length g =? pos) with false
      by (symmetry; apply Nat.eqb_neq; lia).
    rewrite andb_false_r. cbn [pred]. apply IH; [exact Fgs|simpl in Lf; lia|].
    cbn [List.length] in Hk. rewrite length_app in Hk.
    replace (S pos + List.length g + List.length (dotted groups))
      with (pos + S (List.length g + List.length (dotted groups))) by lia.
    exact Hk.
Qed.

Lemma groups_length (groups : list jsstring) :
  List.length groups <= List.length (dotted groups).
Proof.
  induction groups as [|g groups IH]; [simpl; lia|].
  rewrite dotted_cons. cbn [List.length]. rewrite length_app. lia.
Qed.

(** The digits and periods of an SR number, from its first digit on. *)
Lemma fwd_sr_digits ds groups pos cs :
  ds <> [] -> Forall (fun c => isDigit c = true) ds ->
  Forall (fun g => g <> [] /\ Forall (fun c => isDigit c = true) g) groups ->
  matcher (Group 1 (Seq (plus digit) (star (Seq period (plus digit))))) pos
    (ds ++ dotted groups) cs accept
  = Some ((1, ds ++ dotted groups) :: cs).
Proof.
  intros Nd Fd Fg. apply fwd_Group, fwd_Seq. unfold plus, digit.
  apply fwd_greedy; [exact Fd|apply stops_digit_dotted| |].
  { destruct ds; [congruence|simpl; lia]. }
  unfold star. cbn [matcher]. apply fwd_star_groups; [exact Fg| |].
  { pose proof (groups_length groups). lia. }
  unfold accept. do 3 f_equal. apply firstn_whole. rewrite length_app. lia.
Qed.

Lemma fwd_opt_take r pos rest cs k v :
  rest <> [] ->
  (forall d : cont,
     (forall pos' rest' cs', pos' <> pos -> d pos' rest' cs' = k pos' rest' cs') ->
     matcher r pos rest cs d = Some v) ->
  matcher (opt r) pos rest cs k = Some v.
Proof.
  intros Nr H. unfold opt.
  cbn [matcher repeatMatcher max_is_zero dec_max Nat.ltb Nat.leb].
  rewrite H; [reflexivity|].
  intros pos' rest' cs' Np.
  replace (pos' =? pos) with false by (symmetry; apply Nat.eqb_neq; lia).
  destruct rest as [|c rest]; [congruence|]. reflexivity.
Qed.

Lemma digit_is_not_s c :
  isDigit c = true -> N.eqb (toUpperAscii c) (toUpperAscii 83%N) = false.
Proof.
  intros H. apply isDigit_spec in H. apply N.eqb_neq.
  change (toUpperAscii 83%N) with 83%N.
  unfold toUpperAscii, isLower.
  destruct (N.leb_spec 97 c), (N.leb_spec c 122); simpl; lia.
Qed.

(** The expression for SR numbers finds the number of "SR <number>" and of
    "<number>". *)
Lemma exec_srNumber pre n :
  sr_prefix pre -> sr_number n ->
  exec StatuteId.srNumber_re (pre ++ n) = Some [(1, n)].
Proof.
  intros Hp (ds & groups & -> & Nd & Fd & Fg).
  apply exec_at_start.
  change StatuteId.srNumber_re
    with (Seq (opt (Seq (Seq (chr_ci 83) (chr_ci 82)) (star space)))
              (Group 1 (Seq (plus digit) (star (Seq period (plus digit))))))%N.
  apply fwd_Seq.
  assert (Hd0 : exists d0 ds', ds = d0 :: ds' /\ isDigit d0 = true).
  { destruct ds as [|d0 ds']; [congruence|]. inversion Fd; subst. eauto. }
  destruct Hd0 as (d0 & ds' & Eds & Hd0).
  destruct Hp as [-> |(sw & -> & Fsw)].
  - cbn [app]. apply fwd_opt_skip; [|now apply fwd_sr_digits].
    intros d. rewrite Eds. cbn [app matcher chr_ci].
    now rewrite (digit_is_not_s _ Hd0).
  - apply fwd_opt_take.
    { discriminate. }
    intros d Hd. rewrite <- app_assoc.
    change (lit "SR" ++ sw ++ ds ++ dotted groups)
      with (83 :: 82 :: sw ++ ds ++ dotted groups)%N.
    apply fwd_Seq, fwd_Seq, fwd_Class; [reflexivity|].
    apply fwd_Class; [reflexivity|].
    unfold star, space. apply fwd_greedy; [exact Fsw| |lia|].
    { rewrite Eds. simpl. now apply digit_not_space. }
    rewrite Hd by lia. now apply fwd_sr_digits.
Qed.

Lemma select_by_sr_found (p1 p2 : jsstring) db d :
  In d (Store.legal_documents db) ->
  Store.like p1 (Store.id d) = true ->
  exists d',
    StatuteId.select_by_sr p1 p2 db = Ok (Some (Store.id d')) /\
    In d' (Store.legal_documents db) /\
    (Store.like p1 (Store.id d') = true \/
     Store.col (Store.like p2) (Store.short_name d') = true).
Proof.
  intros Hd Hl. unfold StatuteId.select_by_sr, StatuteId.first_id.
  destruct (find _ (Store.legal_documents db)) as [d'|] eqn:Ef.
  - apply find_some in Ef. destruct Ef as [Hin Hp].
    apply orb_true_iff in Hp. exists d'. auto.
  - apply (find_none _ _ Ef) in Hd. cbv beta in Hd. rewrite Hl in Hd. discriminate.
Qed.

(** X19. The ids of the census are found again by their SR number: when the
    store has a document whose id is the census id of an SR number, the
    resolver never answers NotFound for "SR <number>" or "<number>", white
    space around it apart; its answer is the id of a document of the store
    that is the reference itself, or contains the census id, or belongs to a
    document whose short name contains the number. *)
Theorem resolver_finds_sr_number db input pre n d :
  sr_prefix pre -> sr_number n ->
  trim input = pre ++ n ->
  In d (Store.legal_documents db) ->
  Store.id d = Census.srNumberToId n ->
  exists d',
    StatuteId.resolveDocumentId input db = (Ok (Some (Store.id d')), db) /\
    In d' (Store.legal_documents db) /\
    (Store.id d' = trim input \/
     Store.like (StatuteId.percent (Census.srNumberToId n)) (Store.id d') = true \/
     Store.col (Store.like (StatuteId.percent n)) (Store.short_name d') = true).
Proof.
  intros Hp Hn Ht Hd Hid.
  pose proof (exec_srNumber Hp Hn) as Ex.
  assert (Ne : exists c t, pre ++ n = c :: t).
  { destruct Hn as (ds & groups & -> & Nd & _).
    destruct Hp as [-> |(sw & -> & _)]; [|simpl; eauto].
    destruct ds as [|c ds]; [congruence|]. simpl. eauto. }
  destruct Ne as (c & t & Ect).
  unfold StatuteId.resolveDocumentId. rewrite Ht, Ect. rewrite Ect in Ex.
  unfold bind, get, ret.
  destruct (StatuteId.select_by_id (c :: t) db) as [[i|]|e] eqn:E1.
  - unfold StatuteId.select_by_id, StatuteId.first_id in E1. injection E1 as E1.
    destruct (find _ (Store.legal_documents db)) as [d'|] eqn:Ef; [|discriminate].
    injection E1 as <-. apply find_some in Ef. destruct Ef as [Hin Heq].
    apply jseqb_eq in Heq. exists d'. auto.
  - rewrite Ex. change (group 1 [(1, n)]) with n.
    destruct (@select_by_sr_found
                (StatuteId.percent (lit "sr-" ++ StatuteId.dots_to_dashes n))
                (StatuteId.percent n) db d Hd) as (d' & Es & Hin & Hl).
    { rewrite Hid. unfold Census.srNumberToId.
      rewrite <- (app_nil_r (lit "sr-" ++ StatuteId.dots_to_dashes n)) at 2.
      apply (like_contains _ _ [] []). reflexivity. }
    rewrite Es. exists d'. split; [reflexivity|]. split; [exact Hin|]. right. exact Hl.
  - discriminate E1.
Qed.

Lemma resolver_finds_sr_number_sample :
  exists d',
    StatuteId.resolveDocumentId (lit " SR 235.1") Sample.db
    = (Ok (Some (Store.id d')), Sample.db) /\
    In d' (Store.legal_documents Sample.db) /\
    (Store.id d' = trim (lit " SR 235.1") \/
     Store.like (StatuteId.percent (Census.srNumberToId (lit "235.1"))) (Store.id d') = true \/
     Store.col (Store.like (StatuteId.percent (lit "235.1"))) (Store.short_name d') = true).
Proof.
  apply (@resolver_finds_sr_number Sample.db (lit " SR 235.1") (lit "SR ") (lit "235.1")
           Sample.dsg).
  - right. exists (lit " "). split; [reflexivity|repeat constructor].
  - exists (lit "235"), [lit "1"].
    repeat split; [discriminate|repeat constructor|].
    repeat constructor. discriminate.
  - reflexivity.
  - simpl. auto.
  - reflexivity.
Defined.

(** ** Calls of the two citation tools *)

Section CitationCalls.

Variables (raw result context : Type).
Variable handler : Registry.external_tool -> raw -> M result.
Variable getAbout : context -> M result.

(** X20. The two citation tools through the request handler.  A call of
    format_citation with a string under [citation] is answered with the
    formatter's result, not flagged as an error, and the store is left alone;
    a call of validate_citation with a string there is answered, whenever the
    validator returns, with what it returned, not flagged as an error.  A
    call without arguments is answered with a response flagged isError: the
    formatter fails on reading [format], the validator on reading
    [citation]. *)
Theorem citation_tools_answer ctx (req : Registry.request raw) db :
  (Registry.name req = lit "format_citation" ->
   (forall input c,
      Registry.args req = Some input ->
      Registry.arg_citation input = Registry.Str c ->
      exists resp,
        Registry.callTool handler getAbout ctx req db = (Ok resp, db) /\
        Registry.isError resp = false /\
        Registry.response_content resp
        = Registry.Json
            (Registry.FormatCitationResponse result
               (FormatCitation.formatCitationTool
                  (format_as (Registry.arg_format input) c)))) /\
   (Registry.args req = None ->
    exists resp,
      Registry.callTool handler getAbout ctx req db = (Ok resp, db) /\
      Registry.isError resp = true /\
      Registry.response_content resp
      = Registry.Text result
          (lit "Error: Cannot read properties of undefined (reading 'format')"))) /\
  (Registry.name req = lit "validate_citation" ->
   (forall input c out db',
      Registry.args req = Some input ->
      Registry.arg_citation input = Registry.Str c ->
      validateCitationTool (ask c) db = (Ok out, db') ->
      exists resp,
        Registry.callTool handler getAbout ctx req db = (Ok resp, db') /\
        Registry.isError resp = false /\
        Registry.response_content resp
        = Registry.Json (Registry.ValidateCitationResponse result out)) /\
   (Registry.args req = None ->
    exists resp,
      Registry.callTool handler getAbout ctx req db = (Ok resp, db) /\
      Registry.isError resp = true /\
      Registry.response_content resp
      = Registry.Text result
          (lit "Error: Cannot read properties of undefined (reading 'citation')"))).
Proof.
  split; intros Hn; unfold Registry.callTool, Registry.call, try_catch; rewrite Hn.
  - change (Registry.switch (lit "format_citation")) with (Some Registry.format_citation).
    split.
    + intros input c Ha Hc. rewrite Ha. unfold Registry.trimmable. rewrite Hc.
      eexists. split; [reflexivity|]. split; reflexivity.
    + intros Ha. rewrite Ha.
      eexists. split; [reflexivity|]. split; reflexivity.
  - change (Registry.switch (lit "validate_citation"))
      with (Some Registry.validate_citation).
    split.
    + intros input c out db' Ha Hc Hv. rewrite Ha. unfold Registry.trimmable.
      rewrite Hc. unfold bind. unfold ask in Hv. rewrite Hv.
      eexists. split; [reflexivity|]. split; reflexivity.
    + intros Ha. rewrite Ha.
      eexists. split; [reflexivity|]. split; reflexivity.
Qed.

End CitationCalls.

Lemma citation_tools_answer_sample :
  exists out resp,
    validateCitationTool (ask (lit "Art. 6 DSG")) Sample.db = (Ok out, Sample.db) /\
    SampleCalls.run SampleCalls.validate Sample.db = (Ok resp, Sample.db) /\
    Registry.isError resp = false /\
    Registry.response_content resp
    = Registry.Json (Registry.ValidateCitationResponse unit out).
Proof.
  destruct (validateCitationTool (ask (lit "Art. 6 DSG")) Sample.db)
    as [[out|e] db'] eqn:E; [|vm_compute in E; discriminate E].
  assert (D : db' = Sample.db) by (vm_compute in E; now injection E as _ <-).
  subst db'.
  destruct (citation_tools_answer SampleCalls.failing SampleCalls.about_nothing None
              SampleCalls.validate Sample.db) as [_ H].
  destruct (H eq_refl) as [H1 _].
  destruct (H1 {| Registry.arg_citation := Registry.Str (lit "Art. 6 DSG");
                  Registry.arg_format := None |}
               (lit "Art. 6 DSG") out Sample.db eq_refl eq_refl E) as (resp & R).
  exists out, resp. split; [reflexivity|exact R].
Defined.

(** ** The formatter and the parser agree *)

(** X21. Turning a law-first citation round does not change what it cites:
    under the conditions of X14 the formatted citation, in the full format, is
    "Art. <token> <law>"; the parser reads the same document and article
    references from it as from the citation it came from; and formatting it
    again gives it back. *)
Theorem format_keeps_the_parse citation law sep w a :
  art_word w -> article_token a ->
  no_line_terminator law -> clean_end law = true -> separator sep ->
  trim citation = law ++ sep ++ w ++ a ->
  starts_with_art (trim citation) = false ->
  let s := FormatCitation.formatted
             (FormatCitation.formatCitationTool (format_as None citation)) in
  s = lit "Art. " ++ a ++ lit " " ++ law /\
  parseCitation s = parseCitation citation /\
  FormatCitation.formatted (FormatCitation.formatCitationTool (format_as None s)) = s.
Proof.
  intros Hw Tok Lt Hl Hsep Hc Hs.
  destruct (@format_law_first_match citation law sep w a Hw Tok Lt Hl Hsep Hc Hs)
    as [F1 F2].
  destruct (@parse_law_first_match citation law sep w a Hw Tok Lt Hl Hsep Hc Hs)
    as [P1 P2].
  pose proof (law_trimmed _ _ _ Hc Hl) as Tl.
  assert (Nl : law <> []) by (intros ->; discriminate Hl).
  pose proof (article_token_nonempty Tok) as Na.
  assert (Hf : FormatCitation.formatted
                 (FormatCitation.formatCitationTool (format_as None citation))
               = lit "Art. " ++ a ++ lit " " ++ law).
  { unfold FormatCitation.formatCitationTool, format_as.
    cbn [FormatCitation.input_citation FormatCitation.input_format
         FormatCitation.formatted].
    rewrite F1, F2. cbn [option_map].
    change (group 1 [(2, a); (1, law)]) with law.
    change (group 2 [(2, a); (1, law)]) with a.
    destruct a as [|a0 a']; [congruence|reflexivity]. }
  cbv zeta. rewrite Hf.
  destruct (trimmed_cons Tl Nl) as (c & t & El & _ & _).
  assert (Tn : trim (lit "Art. " ++ a ++ lit " " ++ law) = lit "Art. " ++ a ++ lit " " ++ law).
  { rewrite El. apply trim_normalized. now rewrite <- El. }
  split; [reflexivity|]. split.
  - rewrite (@parse_article_first_run _ a law Tok Nl Tl Lt Tn).
    unfold parseCitation. rewrite P1, P2.
    change (group 1 [(2, a); (1, law)]) with law.
    change (group 2 [(2, a); (1, law)]) with a.
    now rewrite Tl.
  - destruct (@format_article_first_run None _ a law Tok Nl Tl Lt Tn) as (_ & _ & Hg).
    rewrite Hg by discriminate. exact Tn.
Qed.

Lemma format_keeps_the_parse_sample :
  let s := FormatCitation.formatted
             (FormatCitation.formatCitationTool (format_as None (lit "OR; art. 41bis"))) in
  s = lit "Art. " ++ lit "41bis" ++ lit " " ++ lit "OR" /\
  parseCitation s = parseCitation (lit "OR; art. 41bis") /\
  FormatCitation.formatted (FormatCitation.formatCitationTool (format_as None s)) = s.
Proof.
  apply (@format_keeps_the_parse (lit "OR; art. 41bis") (lit "OR") (lit "; ")
           (lit "art. ") (lit "41bis")).
  - exists 97%N, 114%N, 116%N, (lit "."), (lit " "). repeat split; auto.
    repeat constructor.
  - exists (lit "41"), (lit "bis").
    repeat split; [discriminate|repeat constructor|repeat constructor].
  - repeat constructor.
  - reflexivity.
  - exists (lit ";"), (lit " "). repeat split; [auto|repeat constructor].
  - reflexivity.
  - reflexivity.
Defined.

(** ** The partitions of the census *)

Lemma startsWith_app (s p : jsstring) :
  Partition.startsWith s p = true <-> exists r, s = p ++ r.
Proof.
  revert s. induction p as [|c p IH]; intros s; cbn [Partition.startsWith app].
  - split; [intros _; exists s; reflexivity|reflexivity].
  - destruct s as [|x s].
    + split; [discriminate|]. intros (r & E). discriminate E.
    + rewrite andb_true_iff, N.eqb_eq, IH. split.
      * intros [-> (r & ->)]. eauto.
      * intros (r & E). injection E as -> ->. eauto.
Qed.

Lemma startsWith_refl (s : jsstring) : Partition.startsWith s s = true.
Proof. apply startsWith_app. exists []. now rewrite app_nil_r. Qed.

Lemma startsWith_trans (s p q : jsstring) :
  Partition.startsWith s p = true -> Partition.startsWith p q = true ->
  Partition.startsWith s q = true.
Proof.
  rewrite !startsWith_app. intros (r & ->) (r' & ->).
  exists (r' ++ r). now rewrite app_assoc.
Qed.

Lemma digit_listed (i : N) :
  (i <= 9)%N -> In i [0; 1; 2; 3; 4; 5; 6; 7; 8; 9]%N.
Proof.
  intros H.
  assert (E : (i = 0 \/ i = 1 \/ i = 2 \/ i = 3 \/ i = 4 \/ i = 5 \/ i = 6 \/ i = 7
               \/ i = 8 \/ i = 9)%N) by lia.
  cbn [In]. intuition auto.
Qed.

Lemma positive_digit_listed (i : N) :
  (1 <= i <= 9)%N -> In i [1; 2; 3; 4; 5; 6; 7; 8; 9]%N.
Proof.
  intros H.
  assert (E : (i = 1 \/ i = 2 \/ i = 3 \/ i = 4 \/ i = 5 \/ i = 6 \/ i = 7
               \/ i = 8 \/ i = 9)%N) by lia.
  cbn [In]. intuition auto.
Qed.

Lemma digit_string_of (c : code_unit) :
  isDigit c = true -> Partition.digit_string (c - 48) = [c] /\ (c - 48 <= 9)%N.
Proof.
  intros H. apply isDigit_spec in H. unfold Partition.digit_string.
  split; [f_equal|]; lia.
Qed.

(** What may stand in a plain number after a prefix of it. *)
Lemma plain_number_next (u : jsstring) c v :
  plain_number (u ++ c :: v) = true ->
  isDigit c = true \/
  (c = 46%N /\ exists d v', v = d :: v' /\ isDigit d = true).
Proof.
  induction u as [|x u IH]; cbn [app plain_number]; intros H;
    apply andb_true_iff in H; destruct H as [H1 H2].
  - apply orb_true_iff in H1. destruct H1 as [H1|H1]; [now left|right].
    apply andb_true_iff in H1. destruct H1 as [H1 H3]. apply N.eqb_eq in H1.
    split; [exact H1|]. destruct v as [|d v']; [discriminate|]. eauto.
  - now apply IH.
Qed.

Lemma plain_number_after_period (u : jsstring) c v :
  plain_number (u ++ 46%N :: c :: v) = true -> isDigit c = true.
Proof.
  intros H. apply plain_number_next in H. destruct H as [H|[_ (d & v' & E & H)]].
  - discriminate H.
  - injection E as <- _. exact H.
Qed.

Lemma endsWith_period_inv (p : jsstring) :
  Partition.endsWith_period p = true -> exists p', p = p' ++ [46%N].
Proof.
  unfold Partition.endsWith_period. destruct (rev p) as [|c t] eqn:E; [discriminate|].
  intros H. apply N.eqb_eq in H. subst c. exists (rev t).
  rewrite <- (rev_involutive p), E. reflexivity.
Qed.

(** A number that goes on after a prefix goes on under one of the
    sub-prefixes. *)
Lemma subPrefixes_cover (n p : jsstring) c r :
  census_number n = true -> n = p ++ c :: r ->
  exists sub, In sub (Partition.subPrefixes p) /\ Partition.startsWith n sub = true.
Proof.
  intros Hn En. unfold census_number in Hn. apply andb_true_iff in Hn.
  destruct Hn as [Hp Hh]. unfold Partition.subPrefixes.
  destruct (jseqb p []) eqn:E0.
  { apply jseqb_eq in E0. subst p. cbn [app] in En. subst n.
    apply orb_true_iff in Hh. destruct Hh as [Hh|Hh].
    - apply andb_true_iff in Hh. destruct Hh as [H1 H2].
      apply N.leb_le in H1, H2.
      exists [c]. split.
      + right. apply in_map_iff. exists (c - 48)%N. split.
        * unfold Partition.digit_string. f_equal. lia.
        * apply positive_digit_listed. lia.
      + apply startsWith_app. exists r. reflexivity.
    - apply andb_true_iff in Hh. destruct Hh as [H1 H2]. apply N.eqb_eq in H1.
      destruct r as [|x [|d r]]; try discriminate.
      apply andb_true_iff in H2. destruct H2 as [H2 _].
      apply andb_true_iff in H2. destruct H2 as [H2 _]. apply N.eqb_eq in H2.
      subst c x. exists (lit "0."). split; [now left|].
      apply startsWith_app. exists (d :: r). reflexivity. }
  destruct (jseqb p (lit "0.")) eqn:E1.
  { apply jseqb_eq in E1. subst p. subst n. cbn [app lit List.map list_ascii_of_string] in Hh.
    change (N_of_ascii "0") with 48%N in Hh. change (N_of_ascii ".") with 46%N in Hh.
    cbn [N.leb N.compare Pos.compare Pos.compare_cont andb orb N.eqb Pos.eqb] in Hh.
    apply andb_true_iff in Hh. destruct Hh as [H1 H2]. apply N.leb_le in H1, H2.
    exists (lit "0." ++ [c]). split.
    - apply in_map_iff. exists (c - 48)%N. split.
      + unfold Partition.digit_string. do 2 f_equal. lia.
      + apply positive_digit_listed. lia.
    - apply startsWith_app. exists r. now rewrite <- app_assoc. }
  rewrite En in Hp.
  destruct (Partition.endsWith_period p) eqn:E2; cbn [negb].
  - destruct (endsWith_period_inv _ E2) as (p' & ->).
    rewrite <- app_assoc in Hp. cbn [app] in Hp.
    apply plain_number_after_period in Hp.
    destruct (digit_string_of _ Hp) as [Ed Hi].
    exists ((p' ++ [46%N]) ++ [c]). split.
    + apply in_map_iff. exists (c - 48)%N. split; [now rewrite Ed|].
      now apply digit_listed.
    + apply startsWith_app. exists r. rewrite En, <- !app_assoc. reflexivity.
  - apply plain_number_next in Hp. destruct Hp as [Hp|[-> _]].
    + destruct (digit_string_of _ Hp) as [Ed Hi].
      exists (p ++ [c]). split.
      * right. apply in_map_iff. exists (c - 48)%N. split; [now rewrite Ed|].
        now apply digit_listed.
      * apply startsWith_app. exists r. rewrite En, <- app_assoc. reflexivity.
    + exists (p ++ lit "."). split; [now left|].
      apply startsWith_app. exists r. rewrite En, <- app_assoc. reflexivity.
Qed.

Section EndpointFacts.

Variable world : Type.
Variable countByPrefix : jsstring -> world -> outcome Partition.number * world.

(** What a loop that comes to an end says of each of its rounds. *)
Lemma for_each_rounds (f : jsstring -> Partition.run world (list jsstring)) :
  forall subs w ps w',
    Partition.for_each f subs w = Some (Ok ps, w') ->
    forall sub, In sub subs ->
      exists w1 w2 r, f sub w1 = Some (Ok r, w2) /\ incl r ps.
Proof.
  induction subs as [|s subs IH]; intros w ps w' H sub Hin; [destruct Hin|].
  cbn [Partition.for_each] in H.
  destruct (f s w) as [[[r|e] w1]|] eqn:Ef; try discriminate.
  destruct (Partition.for_each f subs w1) as [[[rs|e] w2]|] eqn:Er; try discriminate.
  injection H as <- <-. destruct Hin as [<-|Hin].
  - exists w, w1, r. split; [exact Ef|]. now apply incl_appl.
  - destruct (IH _ _ _ Er sub Hin) as (wa & wb & r' & Hf & Hi).
    exists wa, wb, r'. split; [exact Hf|]. now apply incl_appr.
Qed.

(** X22. The partitions lose no SR number: when partitioning under a prefix
    comes to an end, every census number that begins with the prefix begins
    with one of the prefixes returned, unless the endpoint itself counts more
    acts than the limit, or no number, under that very number. *)
Theorem partitions_cover fuel prefix w ps w' n :
  Partition.partitionPrefix countByPrefix fuel prefix w = Some (Ok ps, w') ->
  census_number n = true ->
  Partition.startsWith n prefix = true ->
  (forall w1 count w2,
     countByPrefix n w1 = (Ok count, w2) -> Partition.within_limit count = true) ->
  exists q, In q ps /\ Partition.startsWith n q = true.
Proof.
  intros H Hn Hs Hc. revert prefix w ps w' H Hs.
  induction fuel as [|fuel IH]; intros prefix w ps w' H Hs; [discriminate|].
  cbn [Partition.partitionPrefix] in H.
  destruct (countByPrefix prefix w) as [[count|e] w1] eqn:Ec; [|discriminate].
  destruct (Partition.within_limit count) eqn:El.
  - injection H as <- <-. exists prefix. split; [now left|exact Hs].
  - apply startsWith_app in Hs. destruct Hs as ([|c r] & En).
    + rewrite app_nil_r in En. subst n.
      rewrite (Hc _ _ _ Ec) in El. discriminate.
    + destruct (@subPrefixes_cover n prefix c r Hn En) as (sub & Hin & Hsub).
      destruct (@for_each_rounds _ _ _ _ _ H sub Hin) as (wa & wb & rs & Hf & Hi).
      destruct (IH _ _ _ _ Hf Hsub) as (q & Hq & Hcov).
      exists q. split; [now apply Hi|exact Hcov].
Qed.

(** X23. Each prefix that partitioning returns begins with the prefix asked
    for, and the endpoint counted no more acts under it than the limit. *)
Theorem partitions_within_limit fuel prefix w ps w' q :
  Partition.partitionPrefix countByPrefix fuel prefix w = Some (Ok ps, w') ->
  In q ps ->
  Partition.startsWith q prefix = true /\
  exists w1 count w2,
    countByPrefix q w1 = (Ok count, w2) /\ Partition.within_limit count = true.
Proof.
  revert prefix w ps w' q.
  induction fuel as [|fuel IH]; intros prefix w ps w' q H Hq; [discriminate|].
  cbn [Partition.partitionPrefix] in H.
  destruct (countByPrefix prefix w) as [[count|e] w1] eqn:Ec; [|discriminate].
  destruct (Partition.within_limit count) eqn:El.
  - injection H as <- <-. destruct Hq as [<-|[]].
    split; [apply startsWith_refl|]. exists w, count, w1. auto.
  - assert (G : forall subs wa ps' wb,
               Partition.for_each (Partition.partitionPrefix countByPrefix fuel) subs wa
               = Some (Ok ps', wb) ->
               In q ps' ->
               exists sub wc r wd,
                 In sub subs /\
                 Partition.partitionPrefix countByPrefix fuel sub wc = Some (Ok r, wd) /\
                 In q r).
    { induction subs as [|s subs IHs]; intros wa ps' wb Hf Hin;
        cbn [Partition.for_each] in Hf.
      - injection Hf as <- _. destruct Hin.
      - destruct (Partition.partitionPrefix countByPrefix fuel s wa)
          as [[[r|e] wc]|] eqn:Ef; try discriminate.
        destruct (Partition.for_each _ subs wc) as [[[rs|e] wd]|] eqn:Er;
          try discriminate.
        injection Hf as <- <-. apply in_app_or in Hin. destruct Hin as [Hin|Hin].
        + exists s, wa, r, wc. split; [now left|]. auto.
        + destruct (IHs _ _ _ Er Hin) as (sub & we & r' & wf & Hs & Hp & Hr).
          exists sub, we, r', wf. split; [now right|]. auto. }
    destruct (G _ _ _ _ H Hq) as (sub & wc & r & wd & Hsub & Hp & Hr).
    destruct (IH _ _ _ _ _ Hp Hr) as [Hs Hlim]. split; [|exact Hlim].
    apply startsWith_trans with (p := sub); [exact Hs|].
    clear -Hsub. unfold Partition.subPrefixes in Hsub.
    destruct (jseqb prefix []) eqn:E0.
    { apply jseqb_eq in E0. subst prefix. reflexivity. }
    destruct (jseqb prefix (lit "0.")) eqn:E1.
    { apply jseqb_eq in E1. subst prefix. apply in_map_iff in Hsub.
      destruct Hsub as (i & <- & _). apply startsWith_app. eauto. }
    destruct (negb (Partition.endsWith_period prefix)).
    + destruct Hsub as [<-|Hsub]; [apply startsWith_app; eauto|].
      apply in_map_iff in Hsub. destruct Hsub as (i & <- & _).
      apply startsWith_app. eauto.
    + apply in_map_iff in Hsub. destruct Hsub as (i & <- & _).
      apply startsWith_app. eauto.
Qed.

Lemma subPrefixes_longer (p sub : jsstring) :
  In sub (Partition.subPrefixes p) -> List.length p < List.length sub.
Proof.
  unfold Partition.subPrefixes. intros H.
  destruct (jseqb p []) eqn:E0.
  { apply jseqb_eq in E0. subst p. destruct H as [<-|H]; [simpl; lia|].
    apply in_map_iff in H. destruct H as (i & <- & _). simpl. lia. }
  destruct (jseqb p (lit "0.")) eqn:E1.
  { apply jseqb_eq in E1. subst p. apply in_map_iff in H.
    destruct H as (i & <- & _). simpl. lia. }
  destruct (negb (Partition.endsWith_period p)).
  - destruct H as [<-|H]; [rewrite length_app; simpl; lia|].
    apply in_map_iff in H. destruct H as (i & <- & _). rewrite length_app. simpl. lia.
  - apply in_map_iff in H. destruct H as (i & <- & _). rewrite length_app. simpl. lia.
Qed.

Lemma for_each_ends (f : jsstring -> Partition.run world (list jsstring)) subs :
  (forall sub w, In sub subs -> exists r w', f sub w = Some (Ok r, w')) ->
  forall w, exists ps w', Partition.for_each f subs w = Some (Ok ps, w').
Proof.
  induction subs as [|s subs IH]; intros H w; cbn [Partition.for_each].
  - eauto.
  - destruct (H s w (or_introl eq_refl)) as (r & w1 & ->).
    destruct (IH (fun sub w0 Hin => H sub w0 (or_intror Hin)) w1) as (ps & w2 & ->).
    eauto.
Qed.

Lemma partitionPrefix_ends limit :
  (forall q w, exists count w', countByPrefix q w = (Ok count, w')) ->
  (forall q w count w',
     limit <= List.length q -> countByPrefix q w = (Ok count, w') ->
     Partition.within_limit count = true) ->
  forall fuel prefix w,
    1 <= fuel -> limit + 1 <= fuel + List.length prefix ->
    exists ps w',
      Partition.partitionPrefix countByPrefix fuel prefix w = Some (Ok ps, w').
Proof.
  intros Hok Hlim. induction fuel as [|fuel IH]; intros prefix w H1 H2; [lia|].
  cbn [Partition.partitionPrefix].
  destruct (Hok prefix w) as (count & w1 & Ec). rewrite Ec.
  destruct (Partition.within_limit count) eqn:El; [eauto|].
  assert (Hl : List.length prefix < limit).
  { destruct (Nat.lt_ge_cases (List.length prefix) limit) as [L|L]; [exact L|].
    rewrite (Hlim _ _ _ _ L Ec) in El. discriminate. }
  apply for_each_ends. intros sub w0 Hin.
  apply subPrefixes_longer in Hin. apply IH; lia.
Qed.

(** X24. Partitioning comes to an end when the endpoint answers every count
    and counts no more acts than the limit under every prefix of some length
    or more: fuel for one query more than that length is enough, from any
    prefix and in any state of the endpoint. *)
Theorem partitioning_ends limit prefix w :
  (forall q w, exists count w', countByPrefix q w = (Ok count, w')) ->
  (forall q w count w',
     limit <= List.length q -> countByPrefix q w = (Ok count, w') ->
     Partition.within_limit count = true) ->
  exists ps w',
    Partition.partitionPrefix countByPrefix (S limit) prefix w = Some (Ok ps, w').
Proof.
  intros Hok Hlim. apply (partitionPrefix_ends Hok Hlim); lia.
Qed.

End EndpointFacts.

Lemma partitions_cover_sample :
  exists q,
    In q (lit "0." :: List.map Partition.digit_string [1; 2; 3; 4; 5; 6; 7; 8; 9]%N) /\
    Partition.startsWith (lit "235.1") q = true.
Proof.
  apply (@partitions_cover unit SampleCensus.endpoint 2 [] tt _ tt (lit "235.1")).
  - reflexivity.
  - reflexivity.
  - reflexivity.
  - intros w1 count w2 H. injection H as <- _. reflexivity.
Defined.

Lemma partitions_within_limit_sample :
  Partition.startsWith (lit "0.") [] = true /\
  exists w1 count w2,
    SampleCensus.endpoint (lit "0.") w1 = (Ok count, w2) /\
    Partition.within_limit count = true.
Proof.
  apply (@partitions_within_limit unit SampleCensus.endpoint 2 [] tt
           (lit "0." :: List.map Partition.digit_string [1; 2; 3; 4; 5; 6; 7; 8; 9]%N)
           tt (lit "0.")).
  - reflexivity.
  - now left.
Defined.

Lemma partitioning_ends_sample :
  exists ps w',
    Partition.partitionPrefix SampleCensus.endpoint 2 [] tt = Some (Ok ps, w').
Proof.
  apply (@partitioning_ends unit SampleCensus.endpoint 1 [] tt).
  - intros q w. unfold SampleCensus.endpoint. eauto.
  - intros q w count w' L H. unfold SampleCensus.endpoint in H.
    destruct q as [|c q]; [simpl in L; lia|]. injection H as <- _. reflexivity.
Defined.

(** ** What the parser hands on *)

Lemma sound_sr_number_group :
  sound ValidateCitation.srWithArt_re
    (fun _ cs cs' =>
       exists l a,
         (l <> [] /\ Forall (fun c => (isDigit c || N.eqb c 46) = true) l) /\
         cs' = (2, a) :: (1, l) :: cs).
Proof.
  unfold ValidateCitation.srWithArt_re. cbn [seqs].
  eapply sound_weaken.
  - apply sound_Seq; [apply sound_Bol|].
    apply sound_Seq; [no_group|].
    apply sound_Seq; [no_group|].
    apply sound_Seq; [apply sound_Group, sound_plus_class|].
    apply sound_Seq; [no_group|].
    apply sound_Seq; [no_group|].
    apply sound_Seq; [no_group|].
    apply sound_Seq; [no_group|].
    apply sound_Seq; [no_group|].
    apply sound_Seq; [no_group|].
    apply sound_Seq; [apply sound_Group, sound_sr_article|apply sound_Eol].
  - cbv beta. intros w cs cs' H. open_post H.
    do 2 eexists. split; [split; eassumption|reflexivity].
Qed.

Lemma trimmed_trim s : trimmed (trim s).
Proof. apply trim_idempotent. Qed.

Lemma trimmed_sr (l : jsstring) :
  l <> [] -> Forall (fun c => (isDigit c || N.eqb c 46) = true) l ->
  trimmed (lit "SR " ++ l).
Proof.
  intros Nl Fl. apply trim_fixed. split; [reflexivity|].
  apply dropWhile_fixed. right. rewrite rev_app_distr.
  destruct (rev l) as [|c t] eqn:E.
  { now apply rev_nonempty in Nl. }
  exists c, (t ++ rev (lit "SR ")). split; [reflexivity|].
  assert (Hin : In c l) by (apply in_rev; rewrite E; now left).
  rewrite Forall_forall in Fl. specialize (Fl c Hin).
  apply orb_true_iff in Fl. destruct Fl as [Hd|Hp].
  - now apply digit_not_space.
  - apply N.eqb_eq in Hp. subst c. reflexivity.
Qed.

(** X25. Whatever the citation, the parser hands on clean references: the
    document reference has no white space at either end; an article
    reference, when there is one, is digits followed by ASCII letters; and
    without an article reference the document reference is the whole citation
    without the white space around it. *)
Theorem parsed_references_are_clean citation parsed :
  parseCitation citation = Some parsed ->
  trimmed (documentRef parsed) /\
  (forall a, articleRef parsed = Some a -> article_token a) /\
  (articleRef parsed = None -> documentRef parsed = trim citation).
Proof.
  intros Hp. split; [|split].
  - revert Hp. unfold parseCitation.
    destruct (exec ValidateCitation.artFirst_re _) as [m|] eqn:E1.
    { intros [= <-]. apply trimmed_trim. }
    destruct (exec ValidateCitation.artLast_re _) as [m|] eqn:E2.
    { intros [= <-]. apply trimmed_trim. }
    destruct (exec ValidateCitation.srWithArt_re _) as [m|] eqn:E3.
    { intros [= <-]. cbn [documentRef].
      destruct (exec_sound _ sound_sr_number_group E3) as [_ (l & a & [Nl Fl] & ->)].
      change (group 1 [(2, a); (1, l)]) with l. now apply trimmed_sr. }
    intros [= <-]. apply trimmed_trim.
  - intros a Ha. exact (parseCitation_article _ Hp Ha).
  - revert Hp. unfold parseCitation.
    destruct (exec ValidateCitation.artFirst_re _) as [m|]; [intros [= <-]; discriminate|].
    destruct (exec ValidateCitation.artLast_re _) as [m|]; [intros [= <-]; discriminate|].
    destruct (exec ValidateCitation.srWithArt_re _) as [m|]; [intros [= <-]; discriminate|].
    intros [= <-] _. reflexivity.
Qed.

Lemma parsed_references_are_clean_sample :
  trimmed (lit "DSG") /\
  (forall a, Some (lit "6") = Some a -> article_token a) /\
  (Some (lit "6") = None -> lit "DSG" = trim (lit "  DSG ,Art. 6")).
Proof.
  apply (@parsed_references_are_clean (lit "  DSG ,Art. 6")
           {| documentRef := lit "DSG"; articleRef := Some (lit "6") |}).
  vm_compute. reflexivity.
Defined.
